(** * Voice-controlled shell: parser, sandbox resolver, executor, dispatcher

    A shallow embedding of [src/parser.py], [src/state.py],
    [src/executor.py], [src/commands.py] and the confirmation state machine
    of [src/main.py], with the properties of the specification proved (or
    refuted) on it.

    Conventions.
    - Python [str] is [string]; the model reads utterances as ASCII text.
    - A compiled [re] pattern is a [regex] term run by a backtracking
      matcher that tries alternatives in Python's order (left alternative
      first, greedy repetition longest first, lazy repetition shortest
      first); the matcher is written with a success continuation.
    - A [pathlib.Path] is the list of its components below the file-system
      root (POSIX flavour); the file system is a finite map from such paths
      to nodes.
    - Python exceptions are explicit [result] values. *)

From Stdlib Require Import ZArith Ascii String List Lia Bool.
From stdpp Require Import base option gmap strings list pretty.

Set Default Proof Using "Type".


(* ===================================================================== *)
(** * Part I: definitions *)
(* ===================================================================== *)

(** ** Characters and the few [str] methods the code uses *)
Module Text.

Definition code (a : ascii) : N := N_of_ascii a.

Definition between (lo hi : N) (a : ascii) : bool :=
  (lo <=? code a)%N && (code a <=? hi)%N.

(** [str.isspace] on ASCII: TAB..CR, FS..US and the blank; it is the
    class that both [\s] and [str.strip] use. *)
Definition is_space (a : ascii) : bool :=
  between 9 13 a || between 28 32 a.

Definition is_digit (a : ascii) : bool := between 48 57 a.
Definition is_upper (a : ascii) : bool := between 65 90 a.
Definition is_lower (a : ascii) : bool := between 97 122 a.

(** [\w] on ASCII: letters, digits and the underscore. *)
Definition is_word (a : ascii) : bool :=
  is_lower a || is_upper a || is_digit a || (code a =? 95)%N.

Definition newline : ascii := ascii_of_N 10.
Definition dquote : ascii := ascii_of_N 34.
Definition squote : ascii := ascii_of_N 39.
Definition backslash : ascii := ascii_of_N 92.

Definition lower_char (a : ascii) : ascii :=
  if is_upper a then ascii_of_N (code a + 32) else a.

(** [str.lower] *)
Fixpoint lower (s : string) : string :=
  match s with
  | EmptyString => EmptyString
  | String a s' => String (lower_char a) (lower s')
  end.

(** [str.lstrip], [str.rstrip], [str.strip] with no argument *)
Fixpoint lstrip (s : string) : string :=
  match s with
  | EmptyString => EmptyString
  | String a s' => if is_space a then lstrip s' else s
  end.

Fixpoint rstrip (s : string) : string :=
  match s with
  | EmptyString => EmptyString
  | String a s' =>
      match rstrip s' with
      | EmptyString => if is_space a then EmptyString else String a EmptyString
      | r => String a r
      end
  end.

Definition strip (s : string) : string := rstrip (lstrip s).

(** [s.startswith(w)], returning what follows [w] *)
Fixpoint strip_prefix (w s : string) : option string :=
  match w with
  | EmptyString => Some s
  | String a w' =>
      match s with
      | EmptyString => None
      | String b s' => if Ascii.eqb a b then strip_prefix w' s' else None
      end
  end.

Definition startswith (s w : string) : bool :=
  match strip_prefix w s with Some _ => true | None => false end.

(** [s[:n]] *)
Fixpoint take (n : nat) (s : string) : string :=
  match n, s with
  | S n', String a s' => String a (take n' s')
  | _, _ => EmptyString
  end.

(** [int(s)] for a string of ASCII digits *)
Definition digit_val (a : ascii) : N := (code a - 48)%N.

Fixpoint int_acc (acc : N) (s : string) : N :=
  match s with
  | EmptyString => acc
  | String a s' => int_acc (10 * acc + digit_val a)%N s'
  end.

Definition int (s : string) : N := int_acc 0 s.

(** The last character, for [str.endswith] on one character *)
Fixpoint last_char (s : string) : option ascii :=
  match s with
  | EmptyString => None
  | String a EmptyString => Some a
  | String _ s' => last_char s'
  end.

End Text.

(** ** Regular expressions as Python's [re] runs them *)
Module Re.
Import Text.

(** Character classes: [\s], [\w], [\d], [.], one character, and the
    union that a bracket expression makes of them. *)
Inductive cls : Type :=
| Space
| Word
| Digit
| Dot
| One (a : ascii)
| Or (p q : cls).

Fixpoint in_cls (p : cls) (a : ascii) : bool :=
  match p with
  | Space => is_space a
  | Word => is_word a
  | Digit => is_digit a
  | Dot => negb (Ascii.eqb a newline)
  | One b => Ascii.eqb b a
  | Or p1 p2 => in_cls p1 a || in_cls p2 a
  end.

(** A bracket expression [[p1 p2 ...]] *)
Fixpoint bracket (p : cls) (l : list cls) : cls :=
  match l with
  | [] => p
  | q :: l' => Or p (bracket q l')
  end.

Inductive regex : Type :=
| Eps                              (* the empty pattern *)
| Cls (p : cls)                    (* one character of a class *)
| Lit (w : string)                 (* a literal word *)
| Seq (r1 r2 : regex)              (* r1r2 *)
| Alt (r1 r2 : regex)              (* r1|r2, r1 tried first *)
| Star (r : regex)                 (* r*, greedy *)
| LazyStar (r : regex)             (* r*?, lazy *)
| Group (name : string) (r : regex)  (* (?P<name>r) *)
| Bos                              (* ^ *)
| Eos.                             (* $ *)

(** [r+], [r+?], [r?] *)
Definition Plus (r : regex) : regex := Seq r (Star r).
Definition LazyPlus (r : regex) : regex := Seq r (LazyStar r).
Definition Opt (r : regex) : regex := Alt r Eps.

Definition seqs (l : list regex) : regex := foldr Seq Eps l.

Fixpoint alts (l : list regex) : regex :=
  match l with
  | [] => Eps
  | [r] => r
  | r :: l' => Alt r (alts l')
  end.

(** The captured groups of a match: the latest binding of a name first. *)
Definition caps : Type := list (string * string).

Fixpoint group (name : string) (c : caps) : option string :=
  match c with
  | [] => None
  | (n, v) :: c' => if String.eqb n name then Some v else group name c'
  end.

(** What was consumed between the input [s] and its suffix [s']. *)
Definition consumed (s s' : string) : string :=
  take (String.length s - String.length s') s.

Section Run.
Context {A : Type}.
(** The length of the whole subject string, to recognise its start. *)
Variable n0 : nat.

Definition cont : Type := string -> caps -> option A.
Definition matcher : Type := string -> caps -> cont -> option A.

Definition orelse (x y : option A) : option A :=
  match x with Some a => Some a | None => y end.

(** One more iteration is taken only when the body consumed something,
    so [fuel], the number of characters left, is never exhausted. *)
Fixpoint star_loop (m : matcher) (fuel : nat) : matcher :=
  fun s c k =>
    match fuel with
    | O => k s c
    | S f =>
        orelse
          (m s c (fun s' c' =>
                    if (String.length s' <? String.length s)%nat
                    then star_loop m f s' c' k else None))
          (k s c)
    end.

Fixpoint lazy_loop (m : matcher) (fuel : nat) : matcher :=
  fun s c k =>
    match fuel with
    | O => k s c
    | S f =>
        orelse
          (k s c)
          (m s c (fun s' c' =>
                    if (String.length s' <? String.length s)%nat
                    then lazy_loop m f s' c' k else None))
    end.

Fixpoint run (r : regex) : matcher :=
  match r with
  | Eps => fun s c k => k s c
  | Cls p => fun s c k =>
      match s with
      | String a s' => if in_cls p a then k s' c else None
      | EmptyString => None
      end
  | Lit w => fun s c k =>
      match strip_prefix w s with
      | Some s' => k s' c
      | None => None
      end
  | Seq r1 r2 => fun s c k => run r1 s c (fun s' c' => run r2 s' c' k)
  | Alt r1 r2 => fun s c k => orelse (run r1 s c k) (run r2 s c k)
  | Star r1 => fun s c k => star_loop (run r1) (String.length s) s c k
  | LazyStar r1 => fun s c k => lazy_loop (run r1) (String.length s) s c k
  | Group name r1 => fun s c k =>
      run r1 s c (fun s' c' => k s' ((name, consumed s s') :: c'))
  | Bos => fun s c k =>
      if (String.length s =? n0)%nat then k s c else None
  | Eos => fun s c k =>
      match s with
      | EmptyString => k s c
      | String a EmptyString => if Ascii.eqb a newline then k s c else None
      | _ => None
      end
  end.
End Run.

(** [re.match(pattern, s)]: the pattern must match at the start of [s]
    and may stop before its end; the result is the unread rest of [s]
    with the groups, [None] standing for Python's [None]. *)
Definition re_match (r : regex) (s : string) : option (string * caps) :=
  run (String.length s) r s [] (fun s' c => Some (s', c)).

Definition matches (r : regex) (s : string) : bool :=
  match re_match r s with Some _ => true | None => false end.

(** The match spans the whole of [s] (up to a final newline). *)
Definition fullmatch (r : regex) (s : string) : bool :=
  match re_match r s with
  | Some (rest, _) => String.eqb rest "" || String.eqb rest (String newline "")
  | None => false
  end.

(** [re.sub(r'\bw\b', rep, s)] for a non-empty word [w] of word
    characters: every occurrence of [w] that is neither preceded nor
    followed by a word character is replaced, scanning left to right.
    [prev] tells whether the character before the cursor is a word
    character, [skip] how many characters of a replaced occurrence are
    still to be passed. *)
Definition at_word_end (s : string) : bool :=
  match s with
  | EmptyString => true
  | String a _ => negb (is_word a)
  end.

Definition word_here (w s : string) : bool :=
  match strip_prefix w s with
  | Some rest => at_word_end rest
  | None => false
  end.

Fixpoint sub_word_go (w rep : string) (prev : bool) (skip : nat) (s : string)
  : string :=
  match s with
  | EmptyString => EmptyString
  | String a s' =>
      match skip with
      | S n => sub_word_go w rep true n s'
      | O =>
          if negb prev && word_here w s
          then rep +:+ sub_word_go w rep true (String.length w - 1) s'
          else String a (sub_word_go w rep (is_word a) 0 s')
      end
  end.

Definition sub_word (w rep s : string) : string :=
  sub_word_go w rep false 0 s.

End Re.

(** ** [src/parser.py]: the command parser *)
Module Parser.
Import Text Re.

(** The parsed command: the dictionary that [parse] returns, one
    constructor for each value of its ['type'] entry, carrying the other
    entries. *)
Inductive Intent : Type :=
| HELP
| EXIT
| LIST
| MKDIR (name : string)
| MKFILE (name : string)
| DELETE (kind name : string)
| CD (path : string)
| PWD
| OPEN_APP (app : string)
| OPEN_FILE (name : string)
| SEARCH (query : string)
| RENAME (old new : string)
| HISTORY (count : N)
| COPY (src dst : string)
| MOVE (src dst : string)
| READ (name : string)
| APPEND (name text : string)
| GREP (query : string)
| SIZE (name : string)
| TREE (depth : N)
| TOUCH (name : string)
| CLEAR_HISTORY
| RECENTS (count : N)
| STATS
| UNKNOWN (raw : string).

(** The ['type'] entry of the dictionary *)
Definition type_of (i : Intent) : string :=
  match i with
  | HELP => "HELP" | EXIT => "EXIT" | LIST => "LIST"
  | MKDIR _ => "MKDIR" | MKFILE _ => "MKFILE" | DELETE _ _ => "DELETE"
  | CD _ => "CD" | PWD => "PWD" | OPEN_APP _ => "OPEN_APP"
  | OPEN_FILE _ => "OPEN_FILE" | SEARCH _ => "SEARCH"
  | RENAME _ _ => "RENAME" | HISTORY _ => "HISTORY" | COPY _ _ => "COPY"
  | MOVE _ _ => "MOVE" | READ _ => "READ" | APPEND _ _ => "APPEND"
  | GREP _ => "GREP" | SIZE _ => "SIZE" | TREE _ => "TREE"
  | TOUCH _ => "TOUCH" | CLEAR_HISTORY => "CLEAR_HISTORY"
  | RECENTS _ => "RECENTS" | STATS => "STATS" | UNKNOWN _ => "UNKNOWN"
  end.

(** [self.ALLOWED_APPS]: the spoken application names and their launch
    tokens *)
Definition ALLOWED_APPS : gmap string string :=
  list_to_map
    [ ("calculator", "calc"); ("calc", "calc"); ("notepad", "notepad");
      ("paint", "mspaint"); ("browser", "explorer");
      ("explorer", "explorer") ].

(** *** The pieces the patterns are written with *)

Definition ws0 : regex := Star (Cls Space).          (* \s* *)
Definition ws1 : regex := Plus (Cls Space).          (* \s+ *)

(** [w1\s+w2\s+...] *)
Fixpoint words (l : list string) : regex :=
  match l with
  | [] => Eps
  | [w] => Lit w
  | w :: l' => Seq (Lit w) (Seq ws1 (words l'))
  end.

(** [(?:w1|w2|...)] *)
Definition one_of (l : list string) : regex := alts (map Lit l).

(** [(?:please\s+)?] *)
Definition please : regex := Opt (Seq (Lit "please") ws1).

(** [(?:please\s+|would\s+you\s+kindly\s+)?] *)
Definition please_or_kindly : regex :=
  Opt (Alt (Seq (Lit "please") ws1)
           (Seq (words ["would"; "you"; "kindly"]) ws1)).

(** [^\s*(?:please\s+)?] followed by the rule's own words *)
Definition polite (body : list regex) : regex :=
  Seq Bos (Seq ws0 (Seq please (seqs body))).

(** [[\w\-. ]] and [[\w\-. /\\]] *)
Definition name_chars : cls := bracket Word [One "-"; One "."; One " "].
Definition path_chars : cls :=
  bracket Word [One "-"; One "."; One " "; One "/"; One backslash].

(** [(?P<g>[\w\-. ]+)], [(?P<g>[\w\-. /\\]+)], [(?P<g>\d+)],
    [q(?P<g>.+?)q] *)
Definition name_group (g : string) : regex := Group g (Plus (Cls name_chars)).
Definition path_group (g : string) : regex := Group g (Plus (Cls path_chars)).
Definition digits_group (g : string) : regex := Group g (Plus (Cls Digit)).
Definition quoted_group (q : ascii) (g : string) : regex :=
  Seq (Cls (One q)) (Seq (Group g (LazyPlus (Cls Dot))) (Cls (One q))).

(** *** The bodies of the rules, after the politeness prefix *)

Definition help_body : list regex :=
  [ Opt (Seq (Lit "show") ws1);
    alts [ Lit "help"; words ["what"; "can"; "you"; "do"];
           words ["show"; "available"; "commands"] ];
    ws0; Eos ].

Definition exit_body : list regex :=
  [ one_of ["exit"; "quit"; "goodbye"; "bye"]; ws0; Eos ].

(** The list rule is an alternation at the top of the pattern: its first
    branch carries [^] and the politeness prefix, its second branch
    carries the final [\s*$]. *)
Definition list_first : list regex :=
  [ one_of ["show"; "list"]; Opt (Seq ws1 (Lit "all")); ws1;
    alts [ Seq (Lit "file") (Opt (Lit "s"));
           Seq (Lit "content") (Opt (Lit "s")) ] ].

Definition list_second : regex :=
  seqs [ alts [ seqs [ words ["show"; "me"; "the"]; ws1; Lit "content";
                       Opt (Lit "s") ];
                seqs [ Lit "what"; ws1; Lit "file"; Opt (Lit "s"); ws1;
                       words ["are"; "here"] ] ];
         ws0; Eos ].

Definition list_pattern : regex := Alt (polite list_first) list_second.

Definition mkdir_body : list regex :=
  [ one_of ["create"; "make"]; Opt (Seq ws1 (Lit "a"));
    Opt (Seq ws1 (Lit "new")); ws1; one_of ["folder"; "directory"];
    Opt (Seq ws1 (Lit "called")); ws1; name_group "name"; ws0; Eos ].

Definition mkfile_body : list regex :=
  [ one_of ["create"; "make"]; Opt (Seq ws1 (Lit "a"));
    Opt (Seq ws1 (Lit "new")); ws1; Lit "file";
    Opt (Seq ws1 (Lit "called")); ws1; name_group "name"; ws0; Eos ].

Definition delete_body : list regex :=
  [ one_of ["delete"; "remove"]; ws1; Opt (Seq (Lit "the") ws1);
    Group "kind" (one_of ["file"; "folder"; "directory"]); ws1;
    Opt (Seq (Lit "called") ws1); name_group "name"; ws0; Eos ].

Definition cd_body : list regex :=
  [ alts [ words ["change"; "directory"; "to"]; words ["cd"; "to"];
           words ["go"; "to"]; words ["move"; "to"];
           words ["switch"; "to"; "directory"] ];
    Opt (Seq ws1 (Lit "folder")); ws1; path_group "path"; ws0; Eos ].

Definition back_body : list regex :=
  [ alts [ words ["go"; "back"]; words ["go"; "up"]; Lit "back" ];
    ws0; Eos ].

Definition pwd_body : list regex :=
  [ alts [ words ["where"; "am"; "i"];
           seqs [ Lit "show"; ws1; Opt (Seq (Lit "current") ws1);
                  Opt (Seq (Lit "working") ws1); Lit "directory" ];
           words ["what"; "folder"; "am"; "i"; "in"];
           words ["current"; "location"];
           words ["could"; "you"; "show"; "me"; "where"; "i"; "am"] ];
    ws0; Eos ].

Definition open_app_body : list regex :=
  [ one_of ["open"; "launch"; "start"]; Opt (Seq ws1 (Lit "the")); ws1;
    Group "app" (one_of ["calculator"; "calc"; "notepad"; "paint";
                         "browser"; "explorer"]);
    ws0; Eos ].

Definition open_app_pattern : regex :=
  Seq Bos (Seq ws0 (Seq please_or_kindly (seqs open_app_body))).

Definition open_body : list regex :=
  [ Lit "open"; ws1; path_group "name"; ws0; Eos ].

Definition search_body : list regex :=
  [ alts [ Lit "search"; Lit "find"; words ["look"; "for"] ]; ws1;
    name_group "query"; ws0; Eos ].

Definition rename_body : list regex :=
  [ Lit "rename"; ws1; name_group "old"; ws1; one_of ["to"; "as"]; ws1;
    name_group "new"; ws0; Eos ].

Definition history_body : list regex :=
  [ Lit "history"; Opt (Seq ws1 (digits_group "count")); ws0; Eos ].

Definition copy_body : list regex :=
  [ Lit "copy"; ws1; path_group "src"; ws1; one_of ["to"; "into"]; ws1;
    path_group "dst"; ws0; Eos ].

Definition move_body : list regex :=
  [ Lit "move"; ws1; path_group "src"; ws1; one_of ["to"; "into"]; ws1;
    path_group "dst"; ws0; Eos ].

Definition read_body : list regex :=
  [ one_of ["read"; "show"; "display"]; ws1; Lit "file"; ws1;
    path_group "name"; ws0; Eos ].

Definition append_body (q : ascii) : list regex :=
  [ one_of ["append"; "write"]; ws1; quoted_group q "text"; ws1;
    one_of ["to"; "into"]; ws1; Lit "file"; ws1; path_group "name";
    ws0; Eos ].

Definition grep_body (q : ascii) : list regex :=
  [ alts [ Lit "grep"; words ["find"; "in"; "files"];
           words ["search"; "in"; "files"] ];
    ws1; quoted_group q "query"; ws0; Eos ].

Definition size_body : list regex :=
  [ alts [ words ["size"; "of"]; words ["how"; "big"; "is"] ]; ws1;
    path_group "name"; ws0; Eos ].

Definition tree_body : list regex :=
  [ Lit "tree"; Opt (Seq ws1 (digits_group "depth")); ws0; Eos ].

Definition touch_body : list regex :=
  [ Lit "touch"; ws1; path_group "name"; ws0; Eos ].

Definition clear_history_body : list regex :=
  [ words ["clear"; "history"]; ws0; Eos ].

Definition recents_body : list regex :=
  [ words ["recent"; "files"]; Opt (Seq ws1 (digits_group "count"));
    ws0; Eos ].

Definition stats_body : list regex :=
  [ Lit "stats"; Opt (Seq ws1 (Lit "here")); ws0; Eos ].

Definition open_file_body : list regex :=
  [ Lit "open"; ws1; Lit "file"; ws1; path_group "name"; ws0; Eos ].

(** *** The handlers: from the match object to the intent *)

(** [match.group(g)] of a group that takes part in every match *)
Definition grp (g : string) (m : caps) : string :=
  default "" (group g m).

Definition _handle_help (_ : caps) : Intent := HELP.
Definition _handle_exit (_ : caps) : Intent := EXIT.
Definition _handle_list (_ : caps) : Intent := LIST.
Definition _handle_mkdir (m : caps) : Intent := MKDIR (strip (grp "name" m)).
Definition _handle_mkfile (m : caps) : Intent := MKFILE (strip (grp "name" m)).

Definition _handle_delete (m : caps) : Intent :=
  let kind :=
    if String.eqb (grp "kind" m) "folder" || String.eqb (grp "kind" m) "directory"
    then "folder" else "file" in
  DELETE kind (strip (grp "name" m)).

Definition _handle_cd (m : caps) : Intent := CD (strip (grp "path" m)).
Definition _handle_back (_ : caps) : Intent := CD "..".
Definition _handle_pwd (_ : caps) : Intent := PWD.

Definition _handle_open_app (m : caps) : Intent :=
  let app := strip (grp "app" m) in
  OPEN_APP (default app (ALLOWED_APPS !! app)).

Definition _handle_search (m : caps) : Intent := SEARCH (strip (grp "query" m)).

Definition _handle_rename (m : caps) : Intent :=
  RENAME (strip (grp "old" m)) (strip (grp "new" m)).

(** [int(count_str) if count_str else d] *)
Definition int_or (d : N) (g : string) (m : caps) : N :=
  match group g m with
  | Some (String a s) => int (String a s)
  | _ => d
  end.

Definition _handle_history (m : caps) : Intent := HISTORY (int_or 10 "count" m).

Definition _handle_copy (m : caps) : Intent :=
  COPY (strip (grp "src" m)) (strip (grp "dst" m)).

Definition _handle_move (m : caps) : Intent :=
  MOVE (strip (grp "src" m)) (strip (grp "dst" m)).

Definition _handle_read (m : caps) : Intent := READ (strip (grp "name" m)).

(** [text[1:-1]] when [text] starts and ends with the same quote *)
Definition quoted_by (q : ascii) (s : string) : bool :=
  match s with
  | String a _ => Ascii.eqb a q && bool_decide (last_char s = Some q)
  | EmptyString => false
  end.

Definition unquote (s : string) : string :=
  if quoted_by dquote s || quoted_by squote s
  then take (String.length s - 2) (String.substring 1 (String.length s - 1) s)
  else s.

Definition _handle_append (m : caps) : Intent :=
  APPEND (strip (grp "name" m)) (unquote (grp "text" m)).

Definition _handle_grep (m : caps) : Intent := GREP (strip (grp "query" m)).
Definition _handle_size (m : caps) : Intent := SIZE (strip (grp "name" m)).
Definition _handle_tree (m : caps) : Intent := TREE (int_or 2 "depth" m).
Definition _handle_touch (m : caps) : Intent := TOUCH (strip (grp "name" m)).
Definition _handle_clear_history (_ : caps) : Intent := CLEAR_HISTORY.
Definition _handle_recents (m : caps) : Intent := RECENTS (int_or 10 "count" m).
Definition _handle_stats (_ : caps) : Intent := STATS.

(** The spoken punctuation of [_handle_open_file], in the order of the
    six [re.sub] calls. *)
Definition spoken_punctuation : list (string * string) :=
  [ ("dot", "."); ("period", "."); ("underscore", "_"); ("dash", "-");
    ("slash", "/"); ("backslash", String backslash "") ].

Definition normalize_spoken (s : string) : string :=
  fold_left (fun acc wr => sub_word (fst wr) (snd wr) acc) spoken_punctuation s.

Definition _handle_open_file (m : caps) : Intent :=
  OPEN_FILE (normalize_spoken (strip (grp "name" m))).

(** *** [self.patterns] *)
Definition rule : Type := regex * (caps -> Intent).

Definition patterns : list rule :=
  [ (polite help_body, _handle_help);
    (polite exit_body, _handle_exit);
    (list_pattern, _handle_list);
    (polite mkdir_body, _handle_mkdir);
    (polite mkfile_body, _handle_mkfile);
    (polite delete_body, _handle_delete);
    (polite cd_body, _handle_cd);
    (polite back_body, _handle_back);
    (polite pwd_body, _handle_pwd);
    (open_app_pattern, _handle_open_app);
    (polite open_body, _handle_open_file);
    (polite search_body, _handle_search);
    (polite rename_body, _handle_rename);
    (polite history_body, _handle_history);
    (polite copy_body, _handle_copy);
    (polite move_body, _handle_move);
    (polite read_body, _handle_read);
    (polite (append_body dquote), _handle_append);
    (polite (append_body squote), _handle_append);
    (polite (grep_body dquote), _handle_grep);
    (polite (grep_body squote), _handle_grep);
    (polite size_body, _handle_size);
    (polite tree_body, _handle_tree);
    (polite touch_body, _handle_touch);
    (polite clear_history_body, _handle_clear_history);
    (polite recents_body, _handle_recents);
    (polite stats_body, _handle_stats);
    (polite open_file_body, _handle_open_file) ].

(** The loop of [parse]: the handler of the first pattern that matches. *)
Fixpoint try_patterns (rules : list rule) (text : string) : option Intent :=
  match rules with
  | [] => None
  | (pattern, handler) :: rules' =>
      match re_match pattern text with
      | Some (_, m) => Some (handler m)
      | None => try_patterns rules' text
      end
  end.

(** [text.lower().strip()] *)
Definition normalize (text : string) : string := strip (lower text).

Definition parse (text : string) : Intent :=
  if String.eqb text "" then UNKNOWN text
  else
    let text := normalize text in
    match try_patterns patterns text with
    | Some intent => intent
    | None => UNKNOWN text
    end.

End Parser.

(** ** Paths and the file system that [pathlib], [os] and [shutil] act on *)
Module Fs.
Import Text.

(** An absolute path: its components below the root [/]. *)
Definition Path : Type := list string.

(** Splitting a path string at [/]. *)
Fixpoint split_slash (cur : string) (s : string) : list string :=
  match s with
  | EmptyString => [cur]
  | String a s' =>
      if Ascii.eqb a "/" then cur :: split_slash "" s'
      else split_slash (cur +:+ String a "") s'
  end.

Definition is_absolute (s : string) : bool := startswith s "/".

(** The parts [pathlib] keeps of a path string: empty components and
    [.] are dropped when the path object is built, [..] is kept. *)
Definition parts (s : string) : list string :=
  filter (fun c => c ≠ "" ∧ c ≠ ".") (split_slash "" s).

(** [base / s]: an absolute [s] replaces [base]. *)
Definition join (base : Path) (s : string) : Path :=
  if is_absolute s then parts s else base ++ parts s.

(** [p.parent] and [p.name] *)
Definition parent (p : Path) : Path := removelast p.
Definition name (p : Path) : string := List.last p "".

(** [p.parents]: every proper ancestor of [p], the nearest first. *)
Fixpoint prefixes_below (n : nat) (p : Path) : list Path :=
  match n with
  | O => []
  | S n' => firstn n' p :: prefixes_below n' p
  end.

Definition parents (p : Path) : list Path := prefixes_below (length p) p.

(** [str(p)] for an absolute path, and for a relative one *)
Fixpoint slashed (p : list string) : string :=
  match p with
  | [] => ""
  | c :: p' => "/" +:+ c +:+ slashed p'
  end.

Definition str_abs (p : Path) : string :=
  match p with [] => "/" | _ => slashed p end.

Fixpoint str_rel (p : list string) : string :=
  match p with
  | [] => "."
  | [c] => c
  | c :: p' => c +:+ "/" +:+ str_rel p'
  end.

(** [p.relative_to(base)]: the components of [p] below [base];
    [ValueError] ([None]) when [p] is not [base] or below it. *)
Fixpoint relative_to (p base : Path) : option (list string) :=
  match base, p with
  | [], _ => Some p
  | b :: base', c :: p' => if String.eqb b c then relative_to p' base' else None
  | _ :: _, [] => None
  end.

Inductive node : Type :=
| File (content : string)
| Dir
| Symlink (target : string).

(** The file system: what is at each path. The root is a directory. *)
Definition FS : Type := gmap Path node.

Definition lookup_node (fs : FS) (p : Path) : option node :=
  match p with
  | [] => Some Dir
  | _ => fs !! p
  end.

(** *** [Path.resolve()]

    The components are read left to right against the real path found so
    far: [.] is skipped, [..] drops the last component of the real path,
    a symbolic link is replaced by its target, anything else (present or
    not) is appended. *)
Inductive walk_result : Type :=
| Done (p : Path)
| Jump (from : Path) (rest : list string).

Fixpoint walk (fs : FS) (acc : Path) (comps : list string) : walk_result :=
  match comps with
  | [] => Done acc
  | c :: rest =>
      if bool_decide (c = "" ∨ c = ".") then walk fs acc rest
      else if bool_decide (c = "..") then walk fs (parent acc) rest
      else
        match fs !! (acc ++ [c]) with
        | Some (Symlink target) =>
            Jump (if is_absolute target then [] else acc)
                 (filter (fun c => c ≠ "") (split_slash "" target) ++ rest)
        | _ => walk fs (acc ++ [c]) rest
        end
  end.

(** Following more than [fuel] links is a symbolic-link loop, the error
    that [Path.resolve()] raises ([None]). *)
Fixpoint resolve_from (fs : FS) (fuel : nat) (acc : Path) (comps : list string)
  : option Path :=
  match walk fs acc comps with
  | Done p => Some p
  | Jump from rest =>
      match fuel with
      | O => None
      | S f => resolve_from fs f from rest
      end
  end.

Definition MAXSYMLINKS : nat := 40.

Definition resolve (fs : FS) (p : Path) : option Path :=
  resolve_from fs MAXSYMLINKS [] p.

(** [p.exists()], [p.is_dir()], [p.is_file()]: they follow links and
    answer [False] where the path cannot be resolved. *)
Definition stat (fs : FS) (p : Path) : option node :=
  match resolve fs p with
  | Some q => lookup_node fs q
  | None => None
  end.

Definition exists_ (fs : FS) (p : Path) : bool :=
  match stat fs p with Some _ => true | None => false end.

Definition is_dir (fs : FS) (p : Path) : bool :=
  match stat fs p with Some Dir => true | _ => false end.

Definition is_file (fs : FS) (p : Path) : bool :=
  match stat fs p with Some (File _) => true | _ => false end.

(** *** The exceptions of the modelled calls *)
Inductive exn : Type :=
| ValueError (msg : string)
| RuntimeError (msg : string)
| FileExistsError (p : Path)
| FileNotFoundError (p : Path)
| NotADirectoryError (p : Path)
| IsADirectoryError (p : Path)
| SameFileError (p : Path).

Inductive result (A : Type) : Type :=
| Ok (a : A)
| Raise (e : exn).
Arguments Ok {A} a.
Arguments Raise {A} e.

Definition bind {A B} (x : result A) (f : A -> result B) : result B :=
  match x with
  | Ok a => f a
  | Raise e => Raise e
  end.

(** [str(e)] *)
Definition exn_str (e : exn) : string :=
  match e with
  | ValueError msg => msg
  | RuntimeError msg => msg
  | FileExistsError p => "[Errno 17] File exists: '" +:+ str_abs p +:+ "'"
  | FileNotFoundError p =>
      "[Errno 2] No such file or directory: '" +:+ str_abs p +:+ "'"
  | NotADirectoryError p => "[Errno 20] Not a directory: '" +:+ str_abs p +:+ "'"
  | IsADirectoryError p => "[Errno 21] Is a directory: '" +:+ str_abs p +:+ "'"
  | SameFileError p => "'" +:+ str_abs p +:+ "' and '" +:+ str_abs p
                       +:+ "' are the same file"
  end.

(** *** The system calls behind [Path.mkdir], [Path.touch], [open],
    [Path.unlink], [shutil.rmtree], [Path.rename], [shutil.copy2],
    [shutil.copytree] and [shutil.move] *)

(** The entries at [p] and below it, and the rest. *)
Definition subtree (fs : FS) (p : Path) : FS :=
  filter (fun e => p `prefix_of` e.1) fs.

Definition remove_tree (fs : FS) (p : Path) : FS :=
  filter (fun e => ¬ p `prefix_of` e.1) fs.

(** The entries of [src] and below, re-rooted at [dst]. *)
Definition rerooted (fs : FS) (src dst : Path) : FS :=
  list_to_map
    (map (fun e : Path * node => (dst ++ drop (length src) e.1, e.2))
         (map_to_list (subtree fs src))).

(** A new entry needs an existing parent directory. *)
Definition check_parent (fs : FS) (p : Path) : result unit :=
  match stat fs (parent p) with
  | Some Dir => Ok ()
  | Some _ => Raise (NotADirectoryError p)
  | None => Raise (FileNotFoundError p)
  end.

(** [Path.mkdir(exist_ok=False)] *)
Definition sys_mkdir (fs : FS) (p : Path) : result FS :=
  if bool_decide (is_Some (lookup_node fs p)) then Raise (FileExistsError p)
  else bind (check_parent fs p) (fun _ => Ok (<[p := Dir]> fs)).

(** [Path.touch(exist_ok)]: the modification time is not part of the
    model, so touching an existing file leaves the file system as it is. *)
Definition sys_touch (exist_ok : bool) (fs : FS) (p : Path) : result FS :=
  match stat fs p with
  | Some _ => if exist_ok then Ok fs else Raise (FileExistsError p)
  | None => bind (check_parent fs p) (fun _ => Ok (<[p := File ""]> fs))
  end.

(** [open(p, 'r').read()] *)
Definition sys_read (fs : FS) (p : Path) : result string :=
  match stat fs p with
  | Some (File content) => Ok content
  | Some _ => Raise (IsADirectoryError p)
  | None => Raise (FileNotFoundError p)
  end.

(** [open(p, 'w').write(text)]: the file behind [p] is created or
    truncated. *)
Definition sys_write (fs : FS) (p : Path) (text : string) : result FS :=
  match resolve fs p with
  | None => Raise (FileNotFoundError p)
  | Some q =>
      match lookup_node fs q with
      | Some (File _) => Ok (<[q := File text]> fs)
      | Some _ => Raise (IsADirectoryError p)
      | None => bind (check_parent fs q) (fun _ => Ok (<[q := File text]> fs))
      end
  end.

(** [open(p, 'a').write(text)] *)
Definition sys_append (fs : FS) (p : Path) (text : string) : result FS :=
  match stat fs p with
  | Some (File old) => sys_write fs p (old +:+ text)
  | _ => sys_write fs p text
  end.

(** [Path.unlink()] *)
Definition sys_unlink (fs : FS) (p : Path) : result FS :=
  match lookup_node fs p with
  | Some Dir => Raise (IsADirectoryError p)
  | Some _ => Ok (delete p fs)
  | None => Raise (FileNotFoundError p)
  end.

(** [shutil.rmtree(p)] *)
Definition sys_rmtree (fs : FS) (p : Path) : result FS :=
  match lookup_node fs p with
  | Some Dir => Ok (remove_tree fs p)
  | Some _ => Raise (NotADirectoryError p)
  | None => Raise (FileNotFoundError p)
  end.

(** [Path.rename(dst)] and [shutil.move(src, dst)] onto a free name *)
Definition sys_rename (fs : FS) (src dst : Path) : result FS :=
  match lookup_node fs src with
  | None => Raise (FileNotFoundError src)
  | Some _ =>
      bind (check_parent fs dst)
        (fun _ => Ok (rerooted fs src dst ∪ remove_tree fs src))
  end.

(** [shutil.copy2(src, dst)]: a directory [dst] receives the file under
    the source's name; an existing file [dst] is overwritten. *)
Definition sys_copy2 (fs : FS) (src dst : Path) : result FS :=
  let dst := if is_dir fs dst then dst ++ [name src] else dst in
  if bool_decide (resolve fs src = resolve fs dst ∧ is_Some (stat fs src))
  then Raise (SameFileError src)
  else bind (sys_read fs src) (fun content => sys_write fs dst content).

(** [shutil.copytree(src, dst)]: [dst] must not exist. *)
Definition sys_copytree (fs : FS) (src dst : Path) : result FS :=
  if exists_ fs dst then Raise (FileExistsError dst)
  else bind (check_parent fs dst) (fun _ => Ok (rerooted fs src dst ∪ fs)).

End Fs.

(** ** [src/state.py]: the sandbox root and the current directory *)
Module State.
Import Text Fs.

(** [self.base] and [self.cwd] *)
Record ShellState : Type := mkState { base : Path; cwd : Path }.

(** The argument of [resolve_in_cwd] and [change_directory] is a string
    in the signatures; [executor.cd] passes a [Path] object. *)
Inductive path_arg : Type :=
| Str (s : string)
| PathObj (p : Path).

(** [ShellState(sandbox_path)] on a sandbox directory that exists:
    [sandbox] stands for the resolved [Path(sandbox_path)]. *)
Definition init (sandbox : Path) : ShellState :=
  {| base := sandbox; cwd := sandbox |}.

(** [self.base in target.parents or target == self.base] after
    [target.resolve()]; a failing [resolve] is caught and answers
    [False]. *)
Definition inside_sandbox (st : ShellState) (fs : FS) (target : Path) : bool :=
  match resolve fs target with
  | Some target =>
      bool_decide (base st ∈ parents target) || bool_decide (target = base st)
  | None => false
  end.

(** [rel in (".", "")]: a [Path] object is equal to no string. *)
Definition is_here (rel : path_arg) : bool :=
  match rel with
  | Str s => String.eqb s "." || String.eqb s ""
  | PathObj _ => false
  end.

(** [self.cwd / rel] *)
Definition under_cwd (st : ShellState) (rel : path_arg) : Path :=
  match rel with
  | Str s => join (cwd st) s
  | PathObj p => p
  end.

Definition arg_str (rel : path_arg) : string :=
  match rel with
  | Str s => s
  | PathObj p => str_abs p
  end.

Definition escape_message (rel : path_arg) : string :=
  "Path '" +:+ arg_str rel +:+ "' would escape sandbox".

Definition loop_message (p : Path) : string :=
  "Symlink loop from '" +:+ str_abs p +:+ "'".

Definition resolve_in_cwd (st : ShellState) (fs : FS) (rel : path_arg)
  : result Path :=
  if is_here rel then Ok (cwd st)
  else
    match resolve fs (under_cwd st rel) with
    | None => Raise (RuntimeError (loop_message (under_cwd st rel)))
    | Some target =>
        if negb (inside_sandbox st fs target)
        then Raise (ValueError (escape_message rel))
        else Ok target
    end.

(** The new state and the returned flag; [ValueError] is caught, any
    other exception leaves the method with the state as it was. *)
Definition change_directory (st : ShellState) (fs : FS) (path : path_arg)
  : result (ShellState * bool) :=
  match resolve_in_cwd st fs path with
  | Ok new_dir =>
      if negb (is_dir fs new_dir) then Ok (st, false)
      else Ok ({| base := base st; cwd := new_dir |}, true)
  | Raise (ValueError _) => Ok (st, false)
  | Raise e => Raise e
  end.

Definition current_directory (st : ShellState) : Path := cwd st.

End State.

(** ** [src/executor.py] *)
Module Executor.
Import Text Fs State.

(** What the operations act on: the file system, the shell state, the
    processes started so far, the lines printed so far and the rows of
    the journal [logs.csv] (text, intent type, outcome). *)
Record World : Type := mkWorld {
  w_fs : FS;
  w_state : ShellState;
  w_procs : list string;
  w_out : list string;
  w_log : list (string * string * string)
}.

Definition print (line : string) (w : World) : World :=
  {| w_fs := w_fs w; w_state := w_state w; w_procs := w_procs w;
     w_out := w_out w ++ [line]; w_log := w_log w |}.

Definition set_fs (fs : FS) (w : World) : World :=
  {| w_fs := fs; w_state := w_state w; w_procs := w_procs w;
     w_out := w_out w; w_log := w_log w |}.

Definition set_state (st : ShellState) (w : World) : World :=
  {| w_fs := w_fs w; w_state := st; w_procs := w_procs w;
     w_out := w_out w; w_log := w_log w |}.

Definition spawn (command : string) (w : World) : World :=
  {| w_fs := w_fs w; w_state := w_state w; w_procs := w_procs w ++ [command];
     w_out := w_out w; w_log := w_log w |}.

Definition set_log (log : list (string * string * string)) (w : World) : World :=
  {| w_fs := w_fs w; w_state := w_state w; w_procs := w_procs w;
     w_out := w_out w; w_log := log |}.

(** [platform.system()] *)
Inductive System : Type := Windows | Linux | Darwin.

(** The whitelist of each platform *)
Definition ALLOWED_APPS : gmap string (gmap string string) :=
  list_to_map
    [ ("Windows", list_to_map [("notepad", "notepad"); ("calc", "calc")]);
      ("Linux", list_to_map [("gedit", "gedit");
                             ("calculator", "gnome-calculator");
                             ("code", "code")]) ].

Definition os_name (sys : System) : string :=
  match sys with Windows => "Windows" | _ => "Linux" end.

Definition resolve_here (w : World) (rel : string) : result Path :=
  resolve_in_cwd (w_state w) (w_fs w) (Str rel).

Definition inside (w : World) (p : Path) : bool :=
  inside_sandbox (w_state w) (w_fs w) p.

(** [str.capitalize] on the two kinds *)
Definition capitalize (s : string) : string :=
  match s with
  | EmptyString => EmptyString
  | String a s' =>
      String (if is_lower a then ascii_of_N (code a - 32) else a) (lower s')
  end.

(** The message of an [except] chain that tells [FileExistsError] or
    [FileNotFoundError] apart from the rest; [PermissionError] is not
    raised by the modelled file system. *)
Definition mkdir (w : World) (name : string) : World :=
  match resolve_here w name with
  | Raise e => print ("Error creating directory: " +:+ exn_str e) w
  | Ok new_dir =>
      if negb (inside w new_dir)
      then print "Error: Cannot create directory outside sandbox" w
      else
        match sys_mkdir (w_fs w) new_dir with
        | Ok fs => print ("Created directory: " +:+ name) (set_fs fs w)
        | Raise (FileExistsError _) =>
            print ("Error: Directory '" +:+ name +:+ "' already exists") w
        | Raise e => print ("Error creating directory: " +:+ exn_str e) w
        end
  end.

Definition mkfile (w : World) (name : string) : World :=
  match resolve_here w name with
  | Raise e => print ("Error creating file: " +:+ exn_str e) w
  | Ok new_file =>
      if negb (inside w new_file)
      then print "Error: Cannot create file outside sandbox" w
      else
        match sys_touch false (w_fs w) new_file with
        | Ok fs => print ("Created file: " +:+ name) (set_fs fs w)
        | Raise (FileExistsError _) =>
            print ("Error: File '" +:+ name +:+ "' already exists") w
        | Raise e => print ("Error creating file: " +:+ exn_str e) w
        end
  end.

Definition delete_error (kind name : string) (e : exn) : string :=
  match e with
  | FileNotFoundError _ =>
      "Error: " +:+ capitalize kind +:+ " '" +:+ name +:+ "' not found"
  | _ => "Error deleting " +:+ kind +:+ ": " +:+ exn_str e
  end.

Definition delete (w : World) (kind name : string) : World :=
  match resolve_here w name with
  | Raise e => print (delete_error kind name e) w
  | Ok target =>
      if negb (inside w target)
      then print "Error: Cannot delete items outside sandbox" w
      else if String.eqb kind "folder" then
        if negb (is_dir (w_fs w) target)
        then print ("Error: '" +:+ name +:+ "' is not a directory") w
        else
          match sys_rmtree (w_fs w) target with
          | Ok fs => print ("Deleted directory: " +:+ name) (set_fs fs w)
          | Raise e => print (delete_error kind name e) w
          end
      else
        if negb (is_file (w_fs w) target)
        then print ("Error: '" +:+ name +:+ "' is not a file") w
        else
          match sys_unlink (w_fs w) target with
          | Ok fs => print ("Deleted file: " +:+ name) (set_fs fs w)
          | Raise e => print (delete_error kind name e) w
          end
  end.

Definition cd_error (path : string) (e : exn) : string :=
  match e with
  | FileNotFoundError _ => "Error: Directory '" +:+ path +:+ "' not found"
  | _ => "Error changing directory: " +:+ exn_str e
  end.

Definition cd (w : World) (path : string) : World :=
  if String.eqb path ".."
     && bool_decide (current_directory (w_state w) = base (w_state w))
  then print "Error: Already at sandbox root" w
  else
    match resolve_here w path with
    | Raise e => print (cd_error path e) w
    | Ok target =>
        if negb (inside w target)
        then print "Error: Cannot change to directory outside sandbox" w
        else if negb (is_dir (w_fs w) target)
        then print ("Error: '" +:+ path +:+ "' is not a directory") w
        else
          match change_directory (w_state w) (w_fs w) (PathObj target) with
          | Ok (st, _) =>
              print ("Changed directory to: " +:+ name target) (set_state st w)
          | Raise e => print (cd_error path e) w
          end
    end.

Definition pwd (st : ShellState) : string :=
  match relative_to (current_directory st) (base st) with
  | Some rel_path => "/" +:+ str_rel rel_path
  | None => "/"
  end.

Definition open_app (sys : System) (w : World) (app : string) : World :=
  let allowed := default ∅ (ALLOWED_APPS !! os_name sys) in
  match allowed !! app with
  | None => print ("Error: Application '" +:+ app +:+ "' is not allowed") w
  | Some command => print ("Opened application: " +:+ app) (spawn command w)
  end.

(** The operations below return their message. *)
Definition error (e : exn) : string := "Error: " +:+ exn_str e.

Definition copy_item (w : World) (src_name dst_name : string) : string * World :=
  match resolve_here w src_name with
  | Raise e => (error e, w)
  | Ok src =>
      match resolve_here w dst_name with
      | Raise e => (error e, w)
      | Ok dst =>
          let dst :=
            if exists_ (w_fs w) dst && is_dir (w_fs w) dst
            then dst ++ [name src] else dst in
          if negb (inside w src) || negb (inside w dst)
          then ("Error: Operation outside sandbox", w)
          else if negb (exists_ (w_fs w) src)
          then ("Error: '" +:+ src_name +:+ "' not found", w)
          else if is_dir (w_fs w) src then
            if exists_ (w_fs w) dst
            then ("Error: '" +:+ name dst +:+ "' already exists", w)
            else
              match sys_copytree (w_fs w) src dst with
              | Ok fs =>
                  ("Copied folder '" +:+ name src +:+ "' to '" +:+ name dst
                   +:+ "'", set_fs fs w)
              | Raise e => (error e, w)
              end
          else
            let dst := if is_dir (w_fs w) dst then dst ++ [name src] else dst in
            match sys_copy2 (w_fs w) src dst with
            | Ok fs =>
                ("Copied file '" +:+ name src +:+ "' to '" +:+ name dst +:+ "'",
                 set_fs fs w)
            | Raise e => (error e, w)
            end
      end
  end.

Definition move_item (w : World) (src_name dst_name : string) : string * World :=
  match resolve_here w src_name with
  | Raise e => (error e, w)
  | Ok src =>
      match resolve_here w dst_name with
      | Raise e => (error e, w)
      | Ok dst =>
          let dst :=
            if exists_ (w_fs w) dst && is_dir (w_fs w) dst
            then dst ++ [name src] else dst in
          if negb (inside w src) || negb (inside w dst)
          then ("Error: Operation outside sandbox", w)
          else if negb (exists_ (w_fs w) src)
          then ("Error: '" +:+ src_name +:+ "' not found", w)
          else if exists_ (w_fs w) dst
          then ("Error: Target '" +:+ dst_name +:+ "' already exists", w)
          else
            match sys_rename (w_fs w) src dst with
            | Ok fs =>
                ("Moved '" +:+ name src +:+ "' to '" +:+ name dst +:+ "'",
                 set_fs fs w)
            | Raise e => (error e, w)
            end
      end
  end.

Definition append_file (w : World) (name_ text : string) : string * World :=
  match resolve_here w name_ with
  | Raise e => (error e, w)
  | Ok path =>
      if negb (inside w path) then ("Error: Outside sandbox", w)
      else
        match sys_append (w_fs w) path (text +:+ String newline "") with
        | Ok fs => ("Appended text to '" +:+ name path +:+ "'", set_fs fs w)
        | Raise e => (error e, w)
        end
  end.

Definition touch_file (w : World) (name_ : string) : string * World :=
  match resolve_here w name_ with
  | Raise e => (error e, w)
  | Ok path =>
      if negb (inside w path) then ("Error: Outside sandbox", w)
      else
        match sys_touch true (w_fs w) path with
        | Ok fs => ("Touched '" +:+ name path +:+ "'", set_fs fs w)
        | Raise e => (error e, w)
        end
  end.

Definition rename_item (w : World) (old new : string) : string * World :=
  match resolve_here w old with
  | Raise e => (error e, w)
  | Ok src =>
      if negb (inside w src)
      then ("Error: Cannot rename items outside sandbox", w)
      else if negb (exists_ (w_fs w) src)
      then ("Error: '" +:+ old +:+ "' not found", w)
      else
        let dst := join (parent src) new in
        if negb (inside w dst) then ("Error: Target path outside sandbox", w)
        else if exists_ (w_fs w) dst
        then ("Error: '" +:+ new +:+ "' already exists", w)
        else
          match sys_rename (w_fs w) src dst with
          | Ok fs =>
              ("Renamed " +:+ (if is_dir fs dst then "folder" else "file")
               +:+ " '" +:+ name src +:+ "' to '" +:+ name dst +:+ "'",
               set_fs fs w)
          | Raise e => (error e, w)
          end
  end.

(** *** Sizes *)

Definition st_size (fs : FS) (p : Path) : option Z :=
  match stat fs p with
  | Some (File content) => Some (Z.of_nat (String.length content))
  | _ => None
  end.

(** The size of a file, or the sizes of the files below a directory
    added up. *)
Definition _dir_size (fs : FS) (path : Path) : Z :=
  if is_file fs path then default 0%Z (st_size fs path)
  else
    map_fold
      (fun p _ total =>
         if bool_decide (path `prefix_of` p ∧ p ≠ path)
         then (total + default 0 (st_size fs p))%Z else total)
      0%Z fs.

Definition units : list string := ["B"; "KB"; "MB"; "GB"; "TB"].

(** [f"{size:.2f}"] for the float [num / den]: the nearest multiple of
    one hundredth, a tie going to the even one. Byte counts below [2^53]
    and their quotients by powers of 1024 are floats with no rounding
    error, which is what lets the model keep them as fractions. *)
Definition hundredths (num den : Z) : Z :=
  let q := (100 * num / den)%Z in
  let r := (100 * num mod den)%Z in
  if (2 * r <? den)%Z then q
  else if (den <? 2 * r)%Z then (q + 1)%Z
  else if Z.even q then q else (q + 1)%Z.

Definition two_digits (n : Z) : string :=
  if (n <? 10)%Z then "0" +:+ pretty n else pretty n.

Definition format_2f (num den : Z) : string :=
  let h := hundredths num den in
  pretty (h / 100)%Z +:+ "." +:+ two_digits (h mod 100)%Z.

(** The loop of [_fmt_size]: [size] is [num / den]; the last line of the
    function, after the loop, is [fmt_fallthrough]. *)
Definition fmt_fallthrough (bytes_count : Z) : string :=
  pretty bytes_count +:+ " B".

Fixpoint fmt_loop (bytes_count num den : Z) (us : list string) : string :=
  match us with
  | [] => fmt_fallthrough bytes_count
  | u :: us' =>
      if (num <? 1024 * den)%Z || String.eqb u (List.last units "")
      then format_2f num den +:+ " " +:+ u
      else fmt_loop bytes_count num (den * 1024)%Z us'
  end.

Definition _fmt_size (bytes_count : Z) : string :=
  fmt_loop bytes_count bytes_count 1 units.

Definition item_size (w : World) (name_ : string) : string :=
  match resolve_here w name_ with
  | Raise e => error e
  | Ok path =>
      if negb (inside w path) then "Error: Outside sandbox"
      else if negb (exists_ (w_fs w) path)
      then "Error: '" +:+ name_ +:+ "' not found"
      else
        "Size of '" +:+ name path +:+ "': "
        +:+ _fmt_size (_dir_size (w_fs w) path)
  end.

(** *** Opening a file with the default handler *)

(** [^(?P<base>[\w\-. /\\]+)\s+(?P<ext>txt|pdf|...)$] *)
Definition base_ext : Re.regex :=
  Re.seqs [ Re.Bos; Parser.path_group "base"; Parser.ws1;
            Re.Group "ext" (Parser.one_of ["txt"; "pdf"; "docx"; "xlsx"; "csv";
                                           "md"; "png"; "jpg"; "jpeg"]);
            Re.Eos ].

Definition candidates (name_ : string) : list string :=
  let normalized := strip (Parser.normalize_spoken name_) in
  [strip name_]
  ++ (if bool_decide (normalized ≠ strip name_) then [normalized] else [])
  ++ match Re.re_match base_ext normalized with
     | Some (_, m) =>
         [strip (Parser.grp "base" m) +:+ "." +:+ strip (Parser.grp "ext" m)]
     | None => []
     end.

Fixpoint first_existing (w : World) (cands : list string) : option Path :=
  match cands with
  | [] => None
  | cand :: cands' =>
      match resolve_here w cand with
      | Ok p =>
          if inside w p && exists_ (w_fs w) p then Some p
          else first_existing w cands'
      | Raise _ => first_existing w cands'
      end
  end.

Definition open_file (sys : System) (w : World) (name_ : string)
  : string * World :=
  match first_existing w (candidates name_) with
  | None =>
      ("Error: '" +:+ strip (Parser.normalize_spoken name_) +:+ "' not found", w)
  | Some path =>
      if negb (inside w path) then ("Error: Outside sandbox", w)
      else
        ("Opened '" +:+ name path +:+ "'",
         spawn (match sys with
                | Windows => str_abs path
                | _ => "xdg-open " +:+ str_abs path
                end) w)
  end.

(** [clear_history]: the journal is cut back to its header. *)
Definition clear_history (w : World) : string * World :=
  ("History cleared", set_log [] w).

End Executor.

(** ** [src/commands.py]: routing an intent to the executor *)
Module Commands.
Import Text Fs State Executor Parser.

(** The special states that [handle] returns *)
Inductive token : Type :=
| TOK_EXIT
| TOK_AWAIT_CONFIRM_DELETE (kind name : string).

Definition said (msg_w : string * World) : World := print msg_w.1 msg_w.2.

(** The listings that the read-only commands print (help, directory
    contents, search and grep results, file text, history, recent files,
    statistics, tree) are not modelled: these commands leave the world as
    it is. *)
Definition handle (sys : System) (intent : Intent) (w : World)
  : option token * World :=
  match intent with
  | HELP | LIST | SEARCH _ | READ _ | HISTORY _ | RECENTS _ | STATS
  | GREP _ | TREE _ | UNKNOWN _ => (None, w)
  | EXIT => (Some TOK_EXIT, w)
  | MKDIR name =>
      (None, print ("Created folder '" +:+ name +:+ "'") (mkdir w name))
  | MKFILE name =>
      (None, print ("Created file '" +:+ name +:+ "'") (mkfile w name))
  | RENAME old new => (None, said (rename_item w old new))
  | COPY src dst => (None, said (copy_item w src dst))
  | MOVE src dst => (None, said (move_item w src dst))
  | APPEND name text => (None, said (append_file w name text))
  | DELETE kind name => (Some (TOK_AWAIT_CONFIRM_DELETE kind name), w)
  | CD path =>
      (None, print ("Changed directory to '" +:+ path +:+ "'") (cd w path))
  | PWD => (None, print ("Current directory: " +:+ pwd (w_state w)) w)
  | CLEAR_HISTORY => (None, said (clear_history w))
  | SIZE name => (None, print (item_size w name) w)
  | TOUCH name => (None, said (touch_file w name))
  | OPEN_FILE name => (None, said (open_file sys w name))
  | OPEN_APP app =>
      (None, print ("Opened " +:+ app) (open_app sys w app))
  end.

End Commands.

(** ** [src/main.py]: the confirmation state machine and the command loop *)
Module Main.
Import Text Fs State Executor Parser Commands.

(** [ShellStateMachine] with the shell it belongs to, run without the
    graphical interface. *)
Record Shell : Type := mkShell {
  state : string;
  pending_payload : option (string * string);   (* kind, name *)
  world : World;
  running : bool
}.

Definition READY : string := "READY".
Definition AWAIT_CONFIRM_DELETE : string := "AWAIT_CONFIRM_DELETE".

(** [VoiceShell(args)] on an existing sandbox directory *)
Definition start (fs : FS) (sandbox : Path) : Shell :=
  {| state := READY; pending_payload := None;
     world := {| w_fs := fs; w_state := State.init sandbox; w_procs := [];
                 w_out := []; w_log := [] |};
     running := true |}.

(** [logging_util.log_event] *)
Definition log_event (text intent_type outcome : string) (w : World) : World :=
  set_log (w_log w ++ [(text, intent_type, outcome)]) w.

Definition affirmative (text : string) : bool :=
  bool_decide (strip (lower text) ∈ ["yes"; "y"]).

(** The returned flag tells whether the text was taken as the answer. *)
Definition handle_delete_confirmation (sh : Shell) (text : string)
  : bool * Shell :=
  match pending_payload sh with
  | Some (kind, name) =>
      if negb (String.eqb (state sh) AWAIT_CONFIRM_DELETE) then (false, sh)
      else if affirmative text then
        let outcome :=
          "Successfully deleted " +:+ kind +:+ " '" +:+ name +:+ "'" in
        (true,
         {| state := READY; pending_payload := None;
            world := log_event text "DELETE_CONFIRM" outcome
                       (print outcome (delete (world sh) kind name));
            running := running sh |})
      else
        let outcome := "Delete " +:+ kind +:+ " '" +:+ name +:+ "' cancelled." in
        (true,
         {| state := READY; pending_payload := None;
            world := log_event text "DELETE_CANCEL" outcome
                       (print outcome (world sh));
            running := running sh |})
  | None => (false, sh)
  end.

Definition set_delete_confirmation (sh : Shell) (kind name : string) : Shell :=
  {| state := AWAIT_CONFIRM_DELETE; pending_payload := Some (kind, name);
     world := log_event
                ("Request delete " +:+ kind +:+ " '" +:+ name +:+ "'")
                "DELETE_REQUEST" "Awaiting confirmation"
                (print ("Confirm delete " +:+ kind +:+ " '" +:+ name
                        +:+ "'? Say yes/no") (world sh));
     running := running sh |}.

Definition with_world (w : World) (sh : Shell) : Shell :=
  {| state := state sh; pending_payload := pending_payload sh; world := w;
     running := running sh |}.

Definition process_command (sys : System) (sh : Shell) (text : string) : Shell :=
  match handle_delete_confirmation sh text with
  | (true, sh') => sh'
  | (false, _) =>
      let intent := parse text in
      let (result, w) := handle sys intent (world sh) in
      let w :=
        match intent with
        | UNKNOWN _ => log_event text "UNKNOWN" "Command not recognized" w
        | _ =>
            log_event text (type_of intent)
              (match result with
               | None => "Success"
               | Some TOK_EXIT => "Exit requested"
               | Some _ => "Delete confirmation requested"
               end) w
        end in
      match result with
      | None => with_world w sh
      | Some TOK_EXIT =>
          {| state := state sh; pending_payload := pending_payload sh;
             world := w; running := false |}
      | Some (TOK_AWAIT_CONFIRM_DELETE kind name) =>
          set_delete_confirmation (with_world w sh) kind name
      end
  end.

(** The loop of [run]: the texts that the input source yields, one after
    the other, while the shell is running; an empty text is skipped. *)
Fixpoint run_shell (sys : System) (sh : Shell) (texts : list string) : Shell :=
  match texts with
  | [] => sh
  | text :: texts' =>
      if running sh then
        run_shell sys
          (if String.eqb text "" then sh else process_command sys sh text)
          texts'
      else sh
  end.

End Main.

(** ** Notions used to state the properties *)
Module Notions.
Import Text Re Parser Fs State Executor Commands Main.

(** Every character, for properties checked by enumeration. *)
Definition all_ascii (P : ascii -> bool) : bool :=
  forallb (fun n => P (ascii_of_nat n)) (seq 0 256).

Section Lang.
(** The length of the whole subject string. *)
Variable n0 : nat.

(** [lang r s c s' c']: the pattern [r] can read a prefix of [s],
    leaving [s'], and turns the groups [c] into [c']. *)
Inductive lang : regex -> string -> caps -> string -> caps -> Prop :=
| lang_eps s c : lang Eps s c s c
| lang_cls p a s c : in_cls p a = true -> lang (Cls p) (String a s) c s c
| lang_lit w s s' c : strip_prefix w s = Some s' -> lang (Lit w) s c s' c
| lang_seq r1 r2 s c s1 c1 s2 c2 :
    lang r1 s c s1 c1 -> lang r2 s1 c1 s2 c2 -> lang (Seq r1 r2) s c s2 c2
| lang_alt_l r1 r2 s c s' c' : lang r1 s c s' c' -> lang (Alt r1 r2) s c s' c'
| lang_alt_r r1 r2 s c s' c' : lang r2 s c s' c' -> lang (Alt r1 r2) s c s' c'
| lang_star_stop r s c : lang (Star r) s c s c
| lang_star_more r s c s1 c1 s2 c2 :
    lang r s c s1 c1 -> String.length s1 < String.length s ->
    lang (Star r) s1 c1 s2 c2 -> lang (Star r) s c s2 c2
| lang_lazy_stop r s c : lang (LazyStar r) s c s c
| lang_lazy_more r s c s1 c1 s2 c2 :
    lang r s c s1 c1 -> String.length s1 < String.length s ->
    lang (LazyStar r) s1 c1 s2 c2 -> lang (LazyStar r) s c s2 c2
| lang_group g r s c s' c' :
    lang r s c s' c' -> lang (Group g r) s c s' ((g, consumed s s') :: c')
| lang_bos s c : String.length s = n0 -> lang Bos s c s c
| lang_eos_end c : lang Eos "" c "" c
| lang_eos_newline c :
    lang Eos (String newline "") c (String newline "") c.
End Lang.

(** *** How a pattern can start *)

(** The pattern can read nothing. *)
Fixpoint nullable (r : regex) : bool :=
  match r with
  | Eps | Star _ | LazyStar _ | Bos | Eos => true
  | Cls _ => false
  | Lit w => String.eqb w ""
  | Seq r1 r2 => nullable r1 && nullable r2
  | Alt r1 r2 => nullable r1 || nullable r2
  | Group _ r1 => nullable r1
  end.

(** The pattern can read the character [a] first. *)
Fixpoint first (r : regex) (a : ascii) : bool :=
  match r with
  | Eps | Bos | Eos => false
  | Cls p => in_cls p a
  | Lit w => match w with String b _ => Ascii.eqb b a | EmptyString => false end
  | Seq r1 r2 => first r1 a || (nullable r1 && first r2 a)
  | Alt r1 r2 => first r1 a || first r2 a
  | Star r1 | LazyStar r1 | Group _ r1 => first r1 a
  end.

(** The pattern does not look at the start of the subject. *)
Fixpoint no_bos (r : regex) : bool :=
  match r with
  | Bos => false
  | Eps | Cls _ | Lit _ | Eos => true
  | Seq r1 r2 | Alt r1 r2 => no_bos r1 && no_bos r2
  | Star r1 | LazyStar r1 | Group _ r1 => no_bos r1
  end.

(** The rule's own words start with neither a blank nor one of the
    letters in [avoid], cannot be empty and hold no [^]. *)
Definition clear_start (avoid : list ascii) (body : list regex) : bool :=
  all_ascii (fun a =>
    if is_space a || bool_decide (a ∈ avoid) then negb (first (seqs body) a)
    else true)
  && negb (nullable (seqs body)) && no_bos (seqs body).

(** *** The politeness fillers *)

(** What [\s+] leaves of a string, when it matches. *)
Definition after_ws1 (s : string) : option string :=
  match s with
  | String a s' => if is_space a then Some (lstrip s') else None
  | EmptyString => None
  end.

(** What [please\s+] and [would\s+you\s+kindly\s+] leave of a string. *)
Definition eat_please (s : string) : option string :=
  strip_prefix "please" s ≫= after_ws1.

Definition eat_kindly (s : string) : option string :=
  ((((strip_prefix "would" s ≫= after_ws1) ≫= strip_prefix "you")
     ≫= after_ws1) ≫= strip_prefix "kindly") ≫= after_ws1.

(** The utterance starts with a politeness filler. *)
Definition has_filler (s : string) : bool :=
  bool_decide (is_Some (eat_please s)) || bool_decide (is_Some (eat_kindly s)).

Definition eat_filler (s : string) : option string :=
  match eat_please s with
  | Some s' => Some s'
  | None => eat_kindly s
  end.

(** What is left of a subject once the blanks and the filler in front of
    it are read: by [^\s*(?:please\s+)?] and by
    [^\s*(?:please\s+|would\s+you\s+kindly\s+)?]. *)
Definition core (s : string) : string :=
  default (lstrip s) (eat_please (lstrip s)).

Definition core2 (s : string) : string :=
  default (lstrip s) (eat_filler (lstrip s)).

(** The utterance is taken by one of the rules. *)
Definition recognized (text : string) : Prop :=
  match parse text with UNKNOWN _ => False | _ => True end.

(** The ['type'] entry that each rule's handler writes, rule by rule. *)
Definition rule_types : list string :=
  [ "HELP"; "EXIT"; "LIST"; "MKDIR"; "MKFILE"; "DELETE"; "CD"; "CD"; "PWD";
    "OPEN_APP"; "OPEN_FILE"; "SEARCH"; "RENAME"; "HISTORY"; "COPY"; "MOVE";
    "READ"; "APPEND"; "APPEND"; "GREP"; "GREP"; "SIZE"; "TREE"; "TOUCH";
    "CLEAR_HISTORY"; "RECENTS"; "STATS"; "OPEN_FILE" ].

(** Rule number [n] is the first rule whose pattern matches [s], with the
    groups [m]. *)
Definition first_match (rules : list rule) (s : string) (n : nat)
    (handler : caps -> Intent) (m : caps) : Prop :=
  (exists pattern rest,
      rules !! n = Some (pattern, handler)
      /\ re_match pattern s = Some (rest, m))
  /\ forall j r, j < n -> rules !! j = Some r -> re_match r.1 s = None.

(** *** Characters of an utterance *)

Fixpoint forall_chars (P : ascii -> bool) (s : string) : bool :=
  match s with
  | EmptyString => true
  | String a s' => P a && forall_chars P s'
  end.

(** The only white space in the utterance is the blank character: no
    tab, no line break. *)
Definition blank_or_visible (a : ascii) : bool :=
  negb (is_space a) || Ascii.eqb a " ".

Definition only_blanks (s : string) : bool := forall_chars blank_or_visible s.

(** *** Anchoring *)

(** Every way through the pattern ends with [$]. *)
Definition is_eps (r : regex) : bool :=
  match r with Eps => true | _ => false end.

Fixpoint ends_with_eos (r : regex) : bool :=
  match r with
  | Eos => true
  | Seq r1 r2 => ends_with_eos r2 || (is_eps r2 && ends_with_eos r1)
  | Alt r1 r2 => ends_with_eos r1 && ends_with_eos r2
  | _ => false
  end.

(** [z] is what is left of [t] after some prefix. *)
Definition suffix (z t : string) : Prop := exists p, t = p +:+ z.

(** *** Real paths *)

(** A component that [Path.resolve()] keeps as it is. *)
Definition plain (c : string) : Prop := c <> "" /\ c <> "." /\ c <> "..".

Definition not_link (fs : FS) (p : Path) : Prop :=
  forall target, fs !! p <> Some (Symlink target).

(** A real path: plain components, and no symbolic link at the path or
    at any of its ancestors. *)
Inductive real (fs : FS) : Path -> Prop :=
| real_root : real fs []
| real_snoc p c :
    real fs p -> plain c -> not_link fs (p ++ [c]) -> real fs (p ++ [c]).

(** The path is fully normalized in the file system: resolving it
    changes nothing. *)
Definition normalized (fs : FS) (p : Path) : Prop := resolve fs p = Some p.

(** *** Sizes *)

(** The unit that [_fmt_size] ends on: the first of B, KB, MB, GB under
    which the count scales below 1024, else TB. *)
Definition unit_index (n : Z) : nat :=
  if (n <? 1024)%Z then 0
  else if (n <? 1024 ^ 2)%Z then 1
  else if (n <? 1024 ^ 3)%Z then 2
  else if (n <? 1024 ^ 4)%Z then 3
  else 4.

(** *** The shell *)

(** The current directory is the sandbox root or lies below it. *)
Definition confined (st : ShellState) : Prop := base st `prefix_of` cwd st.

(** The machine is ready with nothing pending, or waits for the answer
    to a pending delete. *)
Definition consistent (sh : Shell) : Prop :=
  (state sh = READY /\ pending_payload sh = None)
  \/ (state sh = AWAIT_CONFIRM_DELETE /\ is_Some (pending_payload sh)).

(** *** The matcher and the readings of a pattern *)

(** Soundness of a matcher for a relation of readings: a result comes
    from a reading that the continuation accepts. *)
Definition sound {A : Type} (m : @matcher A)
  (P : string -> caps -> string -> caps -> Prop) : Prop :=
  forall s c k a, m s c k = Some a ->
    exists s' c', P s c s' c' /\ k s' c' = Some a.

(** Completeness: a reading that the continuation accepts makes the
    matcher succeed. *)
Definition complete {A : Type} (m : @matcher A)
  (P : string -> caps -> string -> caps -> Prop) : Prop :=
  forall s c s' c' k, P s c s' c' -> is_Some (k s' c') -> is_Some (m s c k).

(** A continuation that fails on every text that starts with a blank. *)
Definition fails_on_blank {A : Type} (k : @cont A) : Prop :=
  forall a s c, is_space a = true -> k (String a s) c = None.

(** *** What a pattern and its groups can read *)

Fixpoint has_char (a : ascii) (w : string) : bool :=
  match w with
  | EmptyString => false
  | String b w' => Ascii.eqb b a || has_char a w'
  end.

(** The characters that the pattern can read. *)
Fixpoint reads (r : regex) (a : ascii) : bool :=
  match r with
  | Cls p => in_cls p a
  | Lit w => has_char a w
  | Seq r1 r2 | Alt r1 r2 => reads r1 a || reads r2 a
  | Star r1 | LazyStar r1 | Group _ r1 => reads r1 a
  | Eps | Bos | Eos => false
  end.

(** The characters that the group [g] of the pattern can hold. *)
Fixpoint group_reads (g : string) (r : regex) (a : ascii) : bool :=
  match r with
  | Group g' r1 => (String.eqb g' g && reads r1 a) || group_reads g r1 a
  | Seq r1 r2 | Alt r1 r2 => group_reads g r1 a || group_reads g r2 a
  | Star r1 | LazyStar r1 => group_reads g r1 a
  | Eps | Cls _ | Lit _ | Bos | Eos => false
  end.

(** The words that a pattern made of literals and alternatives reads. *)
Fixpoint words_of (r : regex) : list string :=
  match r with
  | Lit w => [w]
  | Alt r1 r2 => words_of r1 ++ words_of r2
  | _ => []
  end.

Fixpoint only_words (r : regex) : bool :=
  match r with
  | Lit _ => true
  | Alt r1 r2 => only_words r1 && only_words r2
  | _ => false
  end.

(** The words that the group [g] of the pattern can hold, when every
    group of that name is made of literals and alternatives. *)
Fixpoint group_words (g : string) (r : regex) : list string :=
  match r with
  | Group g' r1 =>
      (if String.eqb g' g then words_of r1 else []) ++ group_words g r1
  | Seq r1 r2 | Alt r1 r2 => group_words g r1 ++ group_words g r2
  | Star r1 | LazyStar r1 => group_words g r1
  | Eps | Cls _ | Lit _ | Bos | Eos => []
  end.

Fixpoint group_only_words (g : string) (r : regex) : bool :=
  match r with
  | Group g' r1 =>
      (if String.eqb g' g then only_words r1 else true)
      && group_only_words g r1
  | Seq r1 r2 | Alt r1 r2 => group_only_words g r1 && group_only_words g r2
  | Star r1 | LazyStar r1 => group_only_words g r1
  | Eps | Cls _ | Lit _ | Bos | Eos => true
  end.

(** Every match of the pattern sets the group [g]. *)
Fixpoint sure_group (g : string) (r : regex) : bool :=
  match r with
  | Group g' r1 => String.eqb g' g || sure_group g r1
  | Seq r1 r2 => sure_group g r1 || sure_group g r2
  | Alt r1 r2 => sure_group g r1 && sure_group g r2
  | _ => false
  end.

(** *** The sandbox and the rest of the file system *)

(** No entry at the path [base] or below it is a symbolic link. *)
Definition no_links_below (base : Path) (fs : FS) : Prop :=
  forall p target, base `prefix_of` p -> fs !! p <> Some (Symlink target).

(** The two file systems hold the same at every path that is neither
    [base] nor below it. *)
Definition same_outside (base : Path) (fs fs' : FS) : Prop :=
  forall p, ~ base `prefix_of` p -> fs' !! p = fs !! p.

(** Every entry of [fs] is still there, unchanged, in [fs']. *)
Definition kept (fs fs' : FS) : Prop :=
  forall p n, fs !! p = Some n -> fs' !! p = Some n.

(** Nothing is stored at [p] or below it. *)
Definition free_at (fs : FS) (p : Path) : Prop :=
  forall q, p `prefix_of` q -> fs !! q = None.

(** The entry, if any, is a symbolic link. *)
Definition is_link (n : option node) : bool :=
  match n with Some (Symlink _) => true | _ => false end.

(** Every entry sits in a directory: what is stored at [p ++ [c]] has a
    directory at [p]. *)
Definition tree_shaped (fs : FS) : Prop :=
  forall p c, is_Some (fs !! (p ++ [c])) -> lookup_node fs p = Some Dir.

(** From [fs] to [fs'] nothing changes outside [base], and no symbolic
    link appears in it. *)
Definition safe_step (base : Path) (fs fs' : FS) : Prop :=
  same_outside base fs fs'
  /\ (no_links_below base fs -> no_links_below base fs').

(** The current directory is resolved and in the sandbox, and the
    directory that holds the sandbox contains no symbolic link. *)
Definition settled (w : World) : Prop :=
  normalized (w_fs w) (cwd (w_state w)) /\ confined (w_state w)
  /\ no_links_below (parent (base (w_state w))) (w_fs w).

(** The intent names nothing with a path separator in the one place
    where the executor joins a name to a path without resolving it. *)
Definition plain_target (intent : Intent) : Prop :=
  match intent with
  | RENAME _ new => has_char "/" new = false
  | _ => True
  end.

(** A check of [tree_shaped] that can be run. *)
Definition tree_check (fs : FS) : bool :=
  forallb
    (fun e : Path * node =>
       match e.1 with
       | [] => true
       | _ => match lookup_node fs (parent e.1) with
              | Some Dir => true
              | _ => false
              end
       end)
    (map_to_list fs).

(** A check of [no_links_below] that can be run. *)
Definition links_check (base : Path) (fs : FS) : bool :=
  forallb
    (fun e : Path * node =>
       negb (bool_decide (base `prefix_of` e.1) && is_link (Some e.2)))
    (map_to_list fs).

End Notions.

(* ===================================================================== *)
(** * Part II: properties *)
(* ===================================================================== *)

(** ** Strings *)
Module TextFacts.
Import Text Parser Notions.

Lemma append_nil_l (s : string) : "" +:+ s = s.
Proof. reflexivity. Qed.

Lemma append_cons (a : ascii) (s t : string) :
  String a s +:+ t = String a (s +:+ t).
Proof. reflexivity. Qed.

Lemma append_nil_r (s : string) : s +:+ "" = s.
Proof.
  induction s as [|a s IH]; [reflexivity | rewrite append_cons; congruence].
Qed.

Lemma append_assoc (s1 s2 s3 : string) :
  (s1 +:+ s2) +:+ s3 = s1 +:+ (s2 +:+ s3).
Proof.
  induction s1 as [|a s1 IH]; [reflexivity|].
  simpl; rewrite ?append_cons; simpl; congruence.
Qed.

Lemma length_append (s1 s2 : string) :
  String.length (s1 +:+ s2) = String.length s1 + String.length s2.
Proof.
  induction s1 as [|a s1 IH]; [reflexivity|].
  simpl; rewrite ?append_cons; simpl; congruence.
Qed.

Lemma lower_append (s1 s2 : string) : lower (s1 +:+ s2) = lower s1 +:+ lower s2.
Proof.
  induction s1 as [|a s1 IH]; [reflexivity|].
  simpl; rewrite ?append_cons; simpl; congruence.
Qed.

Lemma all_ascii_spec (P : ascii -> bool) :
  all_ascii P = true -> forall a, P a = true.
Proof.
  unfold all_ascii. rewrite forallb_forall. intros H a.
  rewrite <- (ascii_nat_embedding a). apply H, in_seq.
  pose proof (nat_ascii_bounded a). lia.
Qed.

Lemma lower_char_space (a : ascii) : is_space (lower_char a) = is_space a.
Proof.
  apply Bool.eqb_prop. revert a.
  apply (all_ascii_spec (fun a => Bool.eqb (is_space (lower_char a)) (is_space a))).
  vm_compute. reflexivity.
Qed.

Lemma strip_prefix_cons (b a : ascii) (w s : string) :
  strip_prefix (String b w) (String a s)
  = if Ascii.eqb b a then strip_prefix w s else None.
Proof. reflexivity. Qed.

Lemma strip_prefix_append (w s s' : string) :
  strip_prefix w s = Some s' <-> s = w +:+ s'.
Proof.
  revert s. induction w as [|a w IH]; intros s; simpl.
  - rewrite append_nil_l. split; congruence.
  - rewrite append_cons. destruct s as [|b s]; [split; discriminate|].
    destruct (Ascii.eqb_spec a b) as [->|Hne].
    + rewrite IH. split; congruence.
    + split; [discriminate | congruence].
Qed.

Lemma strip_prefix_length (w s s' : string) :
  strip_prefix w s = Some s' ->
  String.length s = String.length w + String.length s'.
Proof. intros ->%strip_prefix_append. apply length_append. Qed.

Lemma lstrip_not_space (s : string) :
  match lstrip s with
  | String a _ => is_space a = false
  | EmptyString => True
  end.
Proof.
  induction s as [|a s IH]; simpl; [done|].
  destruct (is_space a) eqn:E; [done | by rewrite E].
Qed.

Lemma lstrip_id (a : ascii) (s : string) :
  is_space a = false -> lstrip (String a s) = String a s.
Proof. intros H. simpl. by rewrite H. Qed.

Lemma lstrip_idemp (s : string) : lstrip (lstrip s) = lstrip s.
Proof.
  pose proof (lstrip_not_space s) as H.
  destruct (lstrip s) as [|a s']; [done | by apply lstrip_id].
Qed.

Lemma rstrip_cons (a : ascii) (s : string) :
  rstrip (String a s)
  = if String.eqb (rstrip s) "" && is_space a then "" else String a (rstrip s).
Proof. simpl. destruct (rstrip s); [by destruct (is_space a) | done]. Qed.

Lemma strip_comm (s : string) : lstrip (rstrip s) = rstrip (lstrip s).
Proof.
  induction s as [|a s IH]; [done|].
  rewrite rstrip_cons. simpl lstrip. destruct (is_space a) eqn:E.
  - rewrite <- IH. destruct (rstrip s) as [|b r]; [done|]. simpl. by rewrite E.
  - rewrite andb_false_r, rstrip_cons, E, andb_false_r. simpl. by rewrite E.
Qed.

Lemma strip_no_blank_start (s : string) : lstrip (strip s) = strip s.
Proof. unfold strip. by rewrite <- strip_comm, lstrip_idemp. Qed.

Lemma rstrip_append_l (w s : string) :
  rstrip s <> "" -> rstrip (w +:+ s) = w +:+ rstrip s.
Proof.
  intros Hs. induction w as [|a w IH]; [done|].
  rewrite !append_cons, rstrip_cons, IH.
  destruct (w +:+ rstrip s) eqn:E; [|done].
  destruct w; [by rewrite append_nil_l in E | by rewrite append_cons in E].
Qed.

(** *** Suffixes and properties of every character *)

Lemma suffix_refl (s : string) : suffix s s.
Proof. by exists "". Qed.

Lemma suffix_trans (s1 s2 s3 : string) :
  suffix s1 s2 -> suffix s2 s3 -> suffix s1 s3.
Proof.
  intros [p1 ->] [p2 ->]. exists (p2 +:+ p1). by rewrite append_assoc.
Qed.

Lemma suffix_cons (a : ascii) (s : string) : suffix s (String a s).
Proof. by exists (String a ""). Qed.

Lemma suffix_lstrip (s : string) : suffix (lstrip s) s.
Proof.
  induction s as [|a s IH]; simpl; [apply suffix_refl|].
  destruct (is_space a); [|apply suffix_refl].
  eapply suffix_trans; [exact IH | apply suffix_cons].
Qed.

Lemma suffix_strip_prefix (w s s' : string) :
  strip_prefix w s = Some s' -> suffix s' s.
Proof. intros ->%strip_prefix_append. by exists w. Qed.

Lemma after_ws1_Some (s s' : string) :
  after_ws1 s = Some s' <->
  exists a r, s = String a r /\ is_space a = true /\ s' = lstrip r.
Proof.
  destruct s as [|a r]; simpl.
  - split; [done | by intros (? & ? & ? & _)].
  - destruct (is_space a) eqn:E.
    + split; [intros [= <-]; eauto | by intros (? & ? & [= <- <-] & _ & ->)].
    + split; [done | intros (? & ? & [= <- <-] & ? & _); congruence].
Qed.

Lemma suffix_after_ws1 (s s' : string) : after_ws1 s = Some s' -> suffix s' s.
Proof.
  intros (a & r & -> & _ & ->)%after_ws1_Some.
  eapply suffix_trans; [apply suffix_lstrip | apply suffix_cons].
Qed.

Lemma suffix_eat_please (s s' : string) : eat_please s = Some s' -> suffix s' s.
Proof.
  unfold eat_please. destruct (strip_prefix "please" s) as [s1|] eqn:E; [|done].
  simpl. intros H%suffix_after_ws1.
  eapply suffix_trans; [exact H | by eapply suffix_strip_prefix].
Qed.

Lemma suffix_core (s : string) : suffix (core s) s.
Proof.
  unfold core. destruct (eat_please (lstrip s)) as [s'|] eqn:E; simpl.
  - eapply suffix_trans; [by apply suffix_eat_please | apply suffix_lstrip].
  - apply suffix_lstrip.
Qed.

Lemma forall_chars_append (P : ascii -> bool) (s1 s2 : string) :
  forall_chars P (s1 +:+ s2) = forall_chars P s1 && forall_chars P s2.
Proof.
  induction s1 as [|a s1 IH]; [done|].
  rewrite append_cons. simpl. by rewrite IH, andb_assoc.
Qed.

Lemma forall_chars_suffix (P : ascii -> bool) (z t : string) :
  suffix z t -> forall_chars P t = true -> forall_chars P z = true.
Proof.
  intros [p ->]. rewrite forall_chars_append. by intros [_ ?]%andb_true_iff.
Qed.

Lemma forall_chars_impl (P Q : ascii -> bool) (s : string) :
  (forall a, P a = true -> Q a = true) ->
  forall_chars P s = true -> forall_chars Q s = true.
Proof.
  intros HPQ. induction s as [|a s IH]; simpl; [done|].
  intros [? ?]%andb_true_iff. apply andb_true_iff. auto.
Qed.

Lemma forall_chars_and (P Q : ascii -> bool) (s : string) :
  forall_chars P s = true -> forall_chars Q s = true ->
  forall_chars (fun a => P a && Q a) s = true.
Proof.
  induction s as [|a s IH]; simpl; [done|].
  intros [? ?]%andb_true_iff [? ?]%andb_true_iff.
  rewrite !andb_true_iff. auto.
Qed.

Lemma lower_char_blank (a : ascii) :
  blank_or_visible a = true -> blank_or_visible (lower_char a) = true.
Proof.
  revert a.
  assert (forall a, implb (blank_or_visible a) (blank_or_visible (lower_char a))
                    = true) as H
    by (apply all_ascii_spec; vm_compute; reflexivity).
  intros a Ha. specialize (H a). by rewrite Ha in H.
Qed.

Lemma only_blanks_lower (s : string) :
  only_blanks s = true -> only_blanks (lower s) = true.
Proof.
  unfold only_blanks. induction s as [|a s IH]; simpl; [done|].
  intros [? ?]%andb_true_iff. apply andb_true_iff.
  split; [by apply lower_char_blank | auto].
Qed.

Lemma rstrip_prefix_chars (P : ascii -> bool) (s : string) :
  forall_chars P s = true -> forall_chars P (rstrip s) = true.
Proof.
  induction s as [|a s IH]; [done|]. rewrite rstrip_cons. simpl.
  intros [Ha Hs]%andb_true_iff.
  destruct (_ && _); [done|]. simpl. by rewrite Ha, IH.
Qed.

Lemma only_blanks_normalize (u : string) :
  only_blanks u = true -> only_blanks (normalize u) = true.
Proof.
  intros H%only_blanks_lower. unfold normalize, strip, only_blanks in *.
  apply rstrip_prefix_chars.
  by eapply forall_chars_suffix; [apply suffix_lstrip|].
Qed.

Lemma rstrip_idemp (s : string) : rstrip (rstrip s) = rstrip s.
Proof.
  induction s as [|a s IH]; [done|]. rewrite rstrip_cons.
  destruct (rstrip s) as [|b r] eqn:E.
  - destruct (is_space a) eqn:Ha; simpl; [done | by rewrite Ha].
  - change (String.eqb (String b r) "") with false. cbv iota beta.
    change (false && is_space a) with false. cbv iota.
    by rewrite rstrip_cons, IH.
Qed.

(** A non-empty suffix of a text with no blank at its end has none
    either. *)
Lemma rstrip_suffix (z t : string) :
  suffix z t -> rstrip t = t -> z <> "" -> rstrip z = z.
Proof.
  intros [p ->] Ht Hz. induction p as [|a p IH]; [done|].
  rewrite append_cons, rstrip_cons in Ht.
  destruct (_ && _); [done|]. injection Ht as Ht. auto.
Qed.

Lemma take_all (s : string) : take (String.length s) s = s.
Proof. induction s as [|a s IH]; simpl; congruence. Qed.

End TextFacts.

(** ** The matcher against a declarative reading of the patterns *)
Module ReFacts.
Import Text Re Notions TextFacts.

Section Adequacy.
Context {A : Type}.
Variable n0 : nat.
#[local] Abbreviation lang := (Notions.lang n0).
#[local] Abbreviation sound := (Notions.sound (A:=A)).
#[local] Abbreviation complete := (Notions.complete (A:=A)).

Lemma orelse_Some (x y : option A) (a : A) :
  orelse x y = Some a <-> x = Some a \/ (x = None /\ y = Some a).
Proof. destruct x; simpl; split; intros; intuition congruence. Qed.

Lemma orelse_is_Some (x y : option A) :
  is_Some (orelse x y) <-> is_Some x \/ is_Some y.
Proof.
  destruct x; simpl; split; intros; eauto.
  - by destruct H as [[? ?]|?].
Qed.

Lemma orelse_None_r (x : option A) : orelse x None = x.
Proof. by destruct x. Qed.

(** *** Soundness: a result comes from a reading of the pattern *)

Lemma star_loop_sound (r : regex) :
  sound (run n0 r) (lang r) ->
  forall fuel, sound (star_loop (run n0 r) fuel) (lang (Star r)).
Proof.
  intros Hr fuel. induction fuel as [|f IH]; intros s c k a; simpl.
  - intros H. exists s, c. split; [constructor | done].
  - rewrite orelse_Some. intros [H | [_ H]].
    + apply Hr in H as (s1 & c1 & H1 & H).
      destruct (String.length s1 <? String.length s) eqn:E; [|done].
      apply Nat.ltb_lt in E. apply IH in H as (s2 & c2 & H2 & H).
      exists s2, c2. split; [|done]. by eapply lang_star_more.
    + exists s, c. split; [constructor | done].
Qed.

Lemma lazy_loop_sound (r : regex) :
  sound (run n0 r) (lang r) ->
  forall fuel, sound (lazy_loop (run n0 r) fuel) (lang (LazyStar r)).
Proof.
  intros Hr fuel. induction fuel as [|f IH]; intros s c k a; simpl.
  - intros H. exists s, c. split; [constructor | done].
  - rewrite orelse_Some. intros [H | [_ H]].
    + exists s, c. split; [constructor | done].
    + apply Hr in H as (s1 & c1 & H1 & H).
      destruct (String.length s1 <? String.length s) eqn:E; [|done].
      apply Nat.ltb_lt in E. apply IH in H as (s2 & c2 & H2 & H).
      exists s2, c2. split; [|done]. by eapply lang_lazy_more.
Qed.

Theorem run_sound (r : regex) : sound (run n0 r) (lang r).
Proof.
  induction r as [|p|w|r1 IH1 r2 IH2|r1 IH1 r2 IH2|r IH|r IH|g r IH| |];
    intros s c k a; simpl.
  - intros H. exists s, c. split; [constructor | done].
  - destruct s as [|b s]; [done|].
    destruct (in_cls p b) eqn:E; [|done].
    intros H. exists s, c. split; [by constructor | done].
  - destruct (strip_prefix w s) as [s'|] eqn:E; [|done].
    intros H. exists s', c. split; [by constructor | done].
  - intros H. apply IH1 in H as (s1 & c1 & H1 & H).
    apply IH2 in H as (s2 & c2 & H2 & H).
    exists s2, c2. split; [by econstructor | done].
  - rewrite orelse_Some. intros [H | [_ H]].
    + apply IH1 in H as (s' & c' & H1 & H). exists s', c'.
      split; [by apply lang_alt_l | done].
    + apply IH2 in H as (s' & c' & H1 & H). exists s', c'.
      split; [by apply lang_alt_r | done].
  - by apply star_loop_sound.
  - by apply lazy_loop_sound.
  - intros H. apply IH in H as (s' & c' & H1 & H).
    exists s', ((g, consumed s s') :: c'). split; [by constructor | done].
  - destruct (String.length s =? n0) eqn:E; [|done].
    apply Nat.eqb_eq in E.
    intros H. exists s, c. split; [by constructor | done].
  - destruct s as [|b [|b' s]]; [| |done].
    + intros H. exists "", c. split; [constructor | done].
    + destruct (Ascii.eqb_spec b newline) as [->|]; [|done].
      intros H. exists (String newline ""), c. split; [constructor | done].
Qed.

(** *** Completeness: a reading that the continuation accepts makes the
    matcher succeed (with the result of the first such reading in
    Python's order) *)

Lemma star_loop_complete (r : regex) :
  complete (run n0 r) (lang r) ->
  forall s c s' c', lang (Star r) s c s' c' ->
  forall fuel (k : @cont A), String.length s <= fuel -> is_Some (k s' c') ->
  is_Some (star_loop (run n0 r) fuel s c k).
Proof.
  intros Hr s c s' c' H. remember (Star r) as r0 eqn:E.
  induction H as [| | | | | |r' s c|r' s c s1 c1 s2 c2 H1 _ Hlt H2 IH| | | | | |];
    try discriminate; injection E as ->; intros fuel k Hfuel Hk.
  - destruct fuel; simpl; [done|]. apply orelse_is_Some. by right.
  - destruct fuel as [|f]; [lia|]. simpl. apply orelse_is_Some. left.
    eapply Hr; [exact H1|]. apply Nat.ltb_lt in Hlt as Hlt'. rewrite Hlt'.
    apply IH; [done | lia | done].
Qed.

Lemma lazy_loop_complete (r : regex) :
  complete (run n0 r) (lang r) ->
  forall s c s' c', lang (LazyStar r) s c s' c' ->
  forall fuel (k : @cont A), String.length s <= fuel -> is_Some (k s' c') ->
  is_Some (lazy_loop (run n0 r) fuel s c k).
Proof.
  intros Hr s c s' c' H. remember (LazyStar r) as r0 eqn:E.
  induction H as [| | | | | | | |r' s c|r' s c s1 c1 s2 c2 H1 _ Hlt H2 IH| | | |];
    try discriminate; injection E as ->; intros fuel k Hfuel Hk.
  - destruct fuel; simpl; [done|]. apply orelse_is_Some. by left.
  - destruct fuel as [|f]; [lia|]. simpl. apply orelse_is_Some. right.
    eapply Hr; [exact H1|]. apply Nat.ltb_lt in Hlt as Hlt'. rewrite Hlt'.
    apply IH; [done | lia | done].
Qed.

Theorem run_complete (r : regex) : complete (run n0 r) (lang r).
Proof.
  induction r as [|p|w|r1 IH1 r2 IH2|r1 IH1 r2 IH2|r IH|r IH|g r IH| |];
    intros s c s' c' k H Hk; inversion H; subst; simpl.
  all: try done.
  all: try (by rewrite H1).
  all: try (by eapply star_loop_complete).
  all: try (by eapply lazy_loop_complete).
  all: try (by apply orelse_is_Some; left; eapply IH1).
  all: try (by apply orelse_is_Some; right; eapply IH2).
  all: try (by eapply IH).
  all: try (eapply IH1; [eassumption|]; by eapply IH2).
  by rewrite Nat.eqb_refl.
Qed.
End Adequacy.

(** [re.match] succeeds exactly when the pattern reads a prefix of the
    subject; the groups are those of a reading. *)
Lemma re_match_sound (r : regex) (s s' : string) (c' : caps) :
  re_match r s = Some (s', c') -> lang (String.length s) r s [] s' c'.
Proof.
  intros H. apply run_sound in H as (s1 & c1 & H & [= -> ->]). done.
Qed.

Lemma re_match_complete (r : regex) (s s' : string) (c' : caps) :
  lang (String.length s) r s [] s' c' -> is_Some (re_match r s).
Proof. intros H. eapply run_complete; [exact H | by eexists]. Qed.

End ReFacts.

(** ** How the matcher runs the parts that every rule starts with *)
Module PrefixFacts.
Import Text Re Parser Notions TextFacts ReFacts.

Section Run.
Context {A : Type}.
Variable n0 : nat.
Implicit Types (k : @cont A) (s : string) (c : caps) (r : regex).

(** A pattern that cannot start with [a] fails on a subject that starts
    with [a], unless it can read nothing and what follows it succeeds. *)
Lemma run_first_fail r a s c k :
  first r a = false ->
  (nullable r = true -> forall c', k (String a s) c' = None) ->
  run n0 r (String a s) c k = None.
Proof.
  revert c k.
  induction r as [|p|w|r1 IH1 r2 IH2|r1 IH1 r2 IH2|r IH|r IH|g r IH| |];
    intros c k Hf Hk; simpl in *.
  - by apply Hk.
  - by rewrite Hf.
  - destruct w as [|b w]; simpl; [by apply Hk | by rewrite Hf].
  - apply orb_false_iff in Hf as [Hf1 Hf2]. apply IH1; [done|].
    intros Hn c'. rewrite Hn in *. simpl in *. by apply IH2.
  - apply orb_false_iff in Hf as [Hf1 Hf2].
    rewrite IH1, IH2; [done | done | | done |];
      intros Hn; apply Hk; rewrite Hn; by rewrite ?orb_true_r.
  - rewrite IH; [by rewrite Hk | done |].
    intros _ c'. by rewrite Nat.ltb_irrefl.
  - rewrite Hk by done. rewrite IH; [done | done |].
    intros _ c'. by rewrite Nat.ltb_irrefl.
  - apply IH; [done|]. intros Hn c'. by apply Hk.
  - repeat case_match; try done; by apply Hk.
  - destruct s; [|done]. destruct (Ascii.eqb a newline); [by apply Hk | done].
Qed.

(** A pattern without [^] does not depend on where the subject starts. *)
Lemma star_loop_eq (m1 m2 : @matcher A) :
  (forall s c k1 k2, (forall s' c', k1 s' c' = k2 s' c') ->
                     m1 s c k1 = m2 s c k2) ->
  forall fuel s c k1 k2, (forall s' c', k1 s' c' = k2 s' c') ->
    star_loop m1 fuel s c k1 = star_loop m2 fuel s c k2.
Proof.
  intros Hm fuel. induction fuel as [|f IH]; intros s c k1 k2 Hk; simpl.
  - apply Hk.
  - rewrite Hk. f_equal. apply Hm. intros s' c'.
    destruct (Nat.ltb _ _); [by apply IH | done].
Qed.

Lemma lazy_loop_eq (m1 m2 : @matcher A) :
  (forall s c k1 k2, (forall s' c', k1 s' c' = k2 s' c') ->
                     m1 s c k1 = m2 s c k2) ->
  forall fuel s c k1 k2, (forall s' c', k1 s' c' = k2 s' c') ->
    lazy_loop m1 fuel s c k1 = lazy_loop m2 fuel s c k2.
Proof.
  intros Hm fuel. induction fuel as [|f IH]; intros s c k1 k2 Hk; simpl.
  - apply Hk.
  - rewrite Hk. f_equal. apply Hm. intros s' c'.
    destruct (Nat.ltb _ _); [by apply IH | done].
Qed.
End Run.

Lemma run_no_bos {A : Type} (n1 n2 : nat) (r : regex) :
  no_bos r = true ->
  forall s c (k1 k2 : @cont A), (forall s' c', k1 s' c' = k2 s' c') ->
    run n1 r s c k1 = run n2 r s c k2.
Proof.
  induction r as [|p|w|r1 IH1 r2 IH2|r1 IH1 r2 IH2|r IH|r IH|g r IH| |];
    intros Hb s c k1 k2 Hk; simpl in *; try done.
  - destruct s; [done|]. by rewrite Hk.
  - destruct (strip_prefix w s); [by rewrite Hk | done].
  - apply andb_true_iff in Hb as [Hb1 Hb2]. apply IH1; [done|].
    intros s' c'. by apply IH2.
  - apply andb_true_iff in Hb as [Hb1 Hb2].
    by rewrite (IH1 Hb1 s c k1 k2 Hk), (IH2 Hb2 s c k1 k2 Hk).
  - apply star_loop_eq; [|done]. intros. by apply IH.
  - apply lazy_loop_eq; [|done]. intros. by apply IH.
  - apply IH; [done|]. intros s' c'. apply Hk.
  - destruct s as [|a [|b s]]; rewrite ?Hk; done.
Qed.

Section Polite.
Context {A : Type}.
Variable n0 : nat.
Implicit Types (k : @cont A) (s : string) (c : caps) (r : regex).

(** [\s*] and [\s+] in front of something that cannot start with a
    blank read all the blanks there are. *)
Lemma star_space fuel s c k :
  String.length s <= fuel -> fails_on_blank k ->
  star_loop (run n0 (Cls Space)) fuel s c k = k (lstrip s) c.
Proof.
  intros Hfuel Hk. revert fuel Hfuel.
  induction s as [|a s IH]; intros fuel Hfuel.
  - destruct fuel; simpl; [done|]. by destruct (k "" c).
  - destruct fuel as [|f]; simpl in *; [lia|].
    destruct (is_space a) eqn:E.
    + assert ((String.length s <? S (String.length s)) = true) as ->
        by (apply Nat.ltb_lt; lia).
      rewrite IH by lia. rewrite (Hk _ _ _ E). apply orelse_None_r.
    + done.
Qed.

Lemma run_ws0 s c k :
  fails_on_blank k -> run n0 ws0 s c k = k (lstrip s) c.
Proof. intros Hk. by apply star_space. Qed.

Lemma run_ws1 s c k :
  fails_on_blank k ->
  run n0 ws1 s c k =
    match after_ws1 s with Some s' => k s' c | None => None end.
Proof.
  intros Hk. unfold ws1, Plus. simpl run. destruct s as [|a s]; [done|].
  simpl. destruct (is_space a); [|done]. by apply star_space.
Qed.

Lemma lit_fails_on_blank w k :
  match w with String b _ => is_space b = false | EmptyString => False end ->
  fails_on_blank (fun s c => run n0 (Lit w) s c k).
Proof.
  destruct w as [|b w]; [done|]. intros Hb a s c Ha. simpl.
  destruct (Ascii.eqb_spec b a) as [->|]; [congruence | done].
Qed.

Lemma first_fails_on_blank r k :
  (forall a, is_space a = true -> first r a = false) ->
  nullable r = false ->
  fails_on_blank (fun s c => run n0 r s c k).
Proof.
  intros Hf Hn a s c Ha. apply run_first_fail; [by apply Hf | congruence].
Qed.

Lemma eat_please_blank a s : is_space a = true -> eat_please (String a s) = None.
Proof.
  intros Ha. unfold eat_please. rewrite strip_prefix_cons.
  destruct (Ascii.eqb_spec "p" a) as [<-|]; [by vm_compute in Ha | done].
Qed.

Lemma eat_please_p s s' :
  eat_please s = Some s' -> exists t, s = String "p" t.
Proof.
  unfold eat_please. destruct (strip_prefix "please" s) as [t|] eqn:E; [|done].
  apply strip_prefix_append in E as ->. intros _. by eexists.
Qed.

Lemma eat_kindly_blank a s : is_space a = true -> eat_kindly (String a s) = None.
Proof.
  intros Ha. unfold eat_kindly. rewrite strip_prefix_cons.
  destruct (Ascii.eqb_spec "w" a) as [<-|]; [by vm_compute in Ha | done].
Qed.

Lemma eat_kindly_w s s' :
  eat_kindly s = Some s' -> exists t, s = String "w" t.
Proof.
  unfold eat_kindly. destruct (strip_prefix "would" s) as [t|] eqn:E; [|done].
  apply strip_prefix_append in E as ->. intros _. by eexists.
Qed.

(** The equations of [run], for rewriting without unfolding literals. *)
Lemma run_Seq r1 r2 s c k :
  run n0 (Seq r1 r2) s c k = run n0 r1 s c (fun s' c' => run n0 r2 s' c' k).
Proof. reflexivity. Qed.

Lemma run_Alt r1 r2 s c k :
  run n0 (Alt r1 r2) s c k = orelse (run n0 r1 s c k) (run n0 r2 s c k).
Proof. reflexivity. Qed.

Lemma run_Lit w s c k :
  run n0 (Lit w) s c k =
    match strip_prefix w s with Some s' => k s' c | None => None end.
Proof. reflexivity. Qed.

Lemma run_Eps s c k : run n0 Eps s c k = k s c.
Proof. reflexivity. Qed.

Lemma run_Cls p a s c k :
  run n0 (Cls p) (String a s) c k = if in_cls p a then k s c else None.
Proof. reflexivity. Qed.

Lemma run_Star r s c k :
  run n0 (Star r) s c k = star_loop (run n0 r) (String.length s) s c k.
Proof. reflexivity. Qed.

Lemma run_Group g r s c k :
  run n0 (Group g r) s c k
  = run n0 r s c (fun s' c' => k s' ((g, consumed s s') :: c')).
Proof. reflexivity. Qed.

Lemma run_Bos s c k :
  run n0 Bos s c k = if String.length s =? n0 then k s c else None.
Proof. reflexivity. Qed.

(** [(?:please\s+)?] in front of words that start with neither a blank
    nor [p]: the filler is read when it is there. *)
Lemma run_please r s c k :
  (forall a, is_space a = true -> first r a = false) ->
  first r "p" = false -> nullable r = false ->
  run n0 (Seq please r) s c k =
    run n0 r (default s (eat_please s)) c k.
Proof.
  intros Hblank Hp Hn.
  pose proof (first_fails_on_blank r k Hblank Hn) as Hkb.
  unfold please, Opt. rewrite run_Seq, run_Alt, run_Seq, run_Lit, run_Eps.
  unfold eat_please.
  destruct (strip_prefix "please" s) as [s1|] eqn:E1; [|reflexivity].
  rewrite (run_ws1 _ _ _ Hkb).
  change (Some s1 ≫= after_ws1) with (after_ws1 s1).
  apply strip_prefix_append in E1 as ->.
  change ("please" +:+ s1) with (String "p" ("lease" +:+ s1)).
  pose proof (run_first_fail n0 r "p"%char ("lease" +:+ s1) c k Hp
                ltac:(intros; congruence)) as Hfail.
  destruct (after_ws1 s1); [|reflexivity].
  simpl. rewrite Hfail. apply orelse_None_r.
Qed.

(** The same for [(?:please\s+|would\s+you\s+kindly\s+)?]. *)
Lemma run_please_or_kindly r s c k :
  (forall a, is_space a = true -> first r a = false) ->
  first r "p" = false -> first r "w" = false -> nullable r = false ->
  run n0 (Seq please_or_kindly r) s c k =
    run n0 r (default s (eat_filler s)) c k.
Proof.
  intros Hblank Hp Hw Hn.
  pose proof (first_fails_on_blank r k Hblank Hn) as Hkb.
  unfold please_or_kindly, Opt, words.
  rewrite run_Seq, run_Alt, run_Alt, run_Eps, !run_Seq, !run_Lit.
  unfold eat_filler, eat_please, eat_kindly.
  destruct (strip_prefix "please" s) as [s1|] eqn:E1.
  - rewrite (run_ws1 _ _ _ Hkb).
    change (Some s1 ≫= after_ws1) with (after_ws1 s1).
    apply strip_prefix_append in E1 as ->.
    change ("please" +:+ s1) with (String "p" ("lease" +:+ s1)).
    rewrite (strip_prefix_cons "w" "p").
    change (Ascii.eqb "w" "p") with false. cbv iota.
    pose proof (run_first_fail n0 r "p"%char ("lease" +:+ s1) c k Hp
                  ltac:(intros; congruence)) as Hfail.
    destruct (after_ws1 s1); [|reflexivity].
    simpl. rewrite Hfail. by rewrite !orelse_None_r.
  - change (None ≫= after_ws1) with (@None string).
    change (orelse None ?x) with x. cbv iota.
    destruct (strip_prefix "would" s) as [s2|] eqn:E2; [|reflexivity].
    cbv beta. rewrite run_Seq.
    rewrite run_ws1 by (intros a' s' c' Ha'; rewrite run_Seq;
                        by apply (lit_fails_on_blank "you")).
    change (Some s2 ≫= after_ws1) with (after_ws1 s2).
    apply strip_prefix_append in E2 as ->.
    change ("would" +:+ s2) with (String "w" ("ould" +:+ s2)).
    pose proof (run_first_fail n0 r "w"%char ("ould" +:+ s2) c k Hw
                  ltac:(intros; congruence)) as Hfail.
    destruct (after_ws1 s2) as [s3|]; [|reflexivity].
    rewrite run_Seq, run_Lit.
    change (Some s3 ≫= strip_prefix "you") with (strip_prefix "you" s3).
    destruct (strip_prefix "you" s3) as [s4|]; [|reflexivity].
    rewrite run_Seq.
    rewrite run_ws1 by (by apply (lit_fails_on_blank "kindly")).
    change (Some s4 ≫= after_ws1) with (after_ws1 s4).
    destruct (after_ws1 s4) as [s5|]; [|reflexivity].
    rewrite run_Lit.
    change (Some s5 ≫= strip_prefix "kindly") with (strip_prefix "kindly" s5).
    destruct (strip_prefix "kindly" s5) as [s6|]; [|reflexivity].
    rewrite (run_ws1 _ _ _ Hkb).
    change (Some s6 ≫= after_ws1) with (after_ws1 s6).
    destruct (after_ws1 s6); [|reflexivity].
    simpl. rewrite Hfail. apply orelse_None_r.
Qed.

(** *** Greedy repetition takes the longest run first *)

Lemma star_space_first fuel s c k :
  String.length s <= fuel -> is_Some (k (lstrip s) c) ->
  star_loop (run n0 (Cls Space)) fuel s c k = k (lstrip s) c.
Proof.
  revert fuel. induction s as [|a s IH]; intros fuel Hfuel Hk.
  - destruct fuel; simpl; [done|]. by destruct (k "" c).
  - destruct fuel as [|f]; simpl in *; [lia|].
    destruct (is_space a) eqn:E; [|done].
    assert ((String.length s <? S (String.length s)) = true) as ->
      by (apply Nat.ltb_lt; lia).
    rewrite IH by (done || lia). by destruct Hk as [x ->].
Qed.

Lemma run_ws1_first s s' c k :
  after_ws1 s = Some s' -> is_Some (k s' c) -> run n0 ws1 s c k = k s' c.
Proof.
  intros (a & r & -> & Ha & ->)%after_ws1_Some Hk.
  unfold ws1, Plus. rewrite run_Seq. simpl. rewrite Ha.
  by apply star_space_first.
Qed.

Lemma star_cls_all p fuel s c k :
  String.length s <= fuel -> forall_chars (in_cls p) s = true ->
  is_Some (k "" c) ->
  star_loop (run n0 (Cls p)) fuel s c k = k "" c.
Proof.
  revert fuel. induction s as [|a s IH]; intros fuel Hfuel Hs Hk.
  - destruct fuel; simpl; [done|]. by destruct (k "" c).
  - destruct fuel as [|f]; simpl in *; [lia|].
    apply andb_true_iff in Hs as [-> Hs].
    assert ((String.length s <? S (String.length s)) = true) as ->
      by (apply Nat.ltb_lt; lia).
    rewrite IH by (done || lia). by destruct Hk as [x ->].
Qed.

(** [(?P<g>[...]+)] on a subject made of characters of the class, in
    front of something that accepts the end of the subject: the group
    is the whole subject. *)
Lemma run_group_all g p s c k :
  forall_chars (in_cls p) s = true -> s <> "" ->
  is_Some (k "" ((g, s) :: c)) ->
  run n0 (Group g (Plus (Cls p))) s c k = k "" ((g, s) :: c).
Proof.
  intros Hs Hne Hk. destruct s as [|a s]; [done|].
  simpl in Hs. apply andb_true_iff in Hs as [Ha Hs].
  assert (consumed (String a s) "" = String a s) as Hall.
  { unfold consumed. rewrite Nat.sub_0_r. apply take_all. }
  unfold Plus. rewrite run_Group, run_Seq, run_Cls, Ha, run_Star.
  rewrite star_cls_all; rewrite ?Hall; done.
Qed.

Lemma lang_star_cls p s c s' c' :
  lang n0 (Star (Cls p)) s c s' c' ->
  exists w, s = w +:+ s' /\ forall_chars (in_cls p) w = true.
Proof.
  intros H. remember (Star (Cls p)) as r eqn:E.
  induction H as [| | | | | |r' s c|r' s c s1 c1 s2 c2 H1 _ Hlt H2 IH| | | | | |];
    try discriminate; injection E as ->.
  - by exists "".
  - destruct (IH eq_refl) as (w & -> & Hw). inversion H1; subst.
    exists (String a w). split; [done|]. simpl.
    match goal with H : in_cls _ _ = true |- _ => by rewrite H end.
Qed.

(** After the blanks comes a character that the next part cannot start
    with. *)
Lemma ws1_then_fail r a b s z c k :
  (forall a, is_space a = true -> first r a = false) ->
  nullable r = false -> first r b = false ->
  is_space a = true -> lstrip s = String b z ->
  run n0 ws1 (String a s) c (fun s' c' => run n0 r s' c' k) = None.
Proof.
  intros Hblank Hn Hb Ha Hs.
  rewrite run_ws1 by (by apply first_fails_on_blank).
  simpl. rewrite Ha, Hs. apply run_first_fail; [done | congruence].
Qed.
End Polite.

End PrefixFacts.

(** ** The parser *)
Module ParserFacts.
Import Text Re Parser Notions TextFacts ReFacts PrefixFacts.

Lemma clear_start_spec (avoid : list ascii) (body : list regex) :
  clear_start avoid body = true ->
  (forall a, is_space a = true -> first (seqs body) a = false)
  /\ (forall a, a ∈ avoid -> first (seqs body) a = false)
  /\ nullable (seqs body) = false
  /\ no_bos (seqs body) = true.
Proof.
  unfold clear_start. rewrite !andb_true_iff, negb_true_iff.
  intros [[Hall Hn] Hb]. pose proof (all_ascii_spec _ Hall) as H.
  repeat split; [| |done|done].
  - intros a Ha. specialize (H a). simpl in H. rewrite Ha in H. simpl in H.
    by apply negb_true_iff.
  - intros a Ha. specialize (H a). simpl in H.
    rewrite (bool_decide_eq_true_2 _ Ha), orb_true_r in H.
    by apply negb_true_iff.
Qed.

(** A rule of the common shape reads the blanks and the [please] in front
    of the utterance and then runs its own words on the rest. *)
Lemma run_polite {A : Type} (body : list regex) (s : string) (c : caps)
    (k : @cont A) :
  clear_start ["p"%char] body = true ->
  run (String.length s) (polite body) s c k
  = run (String.length s) (seqs body) (core s) c k.
Proof.
  intros (Hblank & Hp & Hn & _)%clear_start_spec.
  assert (first (seqs body) "p" = false) as Hp' by (apply Hp; set_solver).
  unfold polite, core. rewrite run_Seq, run_Bos, Nat.eqb_refl, run_Seq.
  rewrite run_ws0; [by apply run_please|].
  intros a s' c' Ha. rewrite run_please by done.
  rewrite eat_please_blank by done.
  change (default (String a s') None) with (String a s').
  by apply run_first_fail; [apply Hblank | congruence].
Qed.

Lemma run_open_app {A : Type} (s : string) (c : caps) (k : @cont A) :
  run (String.length s) open_app_pattern s c k
  = run (String.length s) (seqs open_app_body) (core2 s) c k.
Proof.
  assert (clear_start ["p"; "w"]%char open_app_body = true) as H
    by (vm_compute; reflexivity).
  apply clear_start_spec in H as (Hblank & Hp & Hn & _).
  assert (first (seqs open_app_body) "p" = false) as Hp1 by (apply Hp; set_solver).
  assert (first (seqs open_app_body) "w" = false) as Hp2 by (apply Hp; set_solver).
  unfold open_app_pattern, core2. rewrite run_Seq, run_Bos, Nat.eqb_refl, run_Seq.
  rewrite run_ws0; [by apply run_please_or_kindly|].
  intros a s' c' Ha. rewrite run_please_or_kindly by done.
  unfold eat_filler. rewrite eat_please_blank, eat_kindly_blank by done.
  change (default (String a s') None) with (String a s').
  by apply run_first_fail; [apply Hblank | congruence].
Qed.

(** Two utterances with the same text after the filler are matched alike
    by such a rule: same rest, same groups. *)
Lemma re_match_polite (body : list regex) (s1 s2 : string) :
  clear_start ["p"%char] body = true -> core s1 = core s2 ->
  re_match (polite body) s1 = re_match (polite body) s2.
Proof.
  intros Hc Hcore. unfold re_match. rewrite !run_polite, Hcore by done.
  apply clear_start_spec in Hc as (_ & _ & _ & Hb). by apply run_no_bos.
Qed.

Lemma re_match_open_app (s1 s2 : string) :
  core2 s1 = core2 s2 ->
  re_match open_app_pattern s1 = re_match open_app_pattern s2.
Proof.
  intros Hcore. unfold re_match. rewrite !run_open_app, Hcore.
  by apply run_no_bos.
Qed.

Lemma re_match_list (s1 s2 : string) :
  core s1 = core s2 ->
  re_match list_second s1 = None -> re_match list_second s2 = None ->
  re_match list_pattern s1 = re_match list_pattern s2.
Proof.
  intros Hcore H1 H2.
  pose proof (re_match_polite list_first s1 s2 ltac:(vm_compute; reflexivity)
                Hcore) as Hp.
  unfold re_match, list_pattern in *. rewrite !run_Alt, H1, H2, !orelse_None_r.
  exact Hp.
Qed.

Lemma try_patterns_ext (rules : list rule) (s1 s2 : string) :
  Forall (fun r : rule => re_match r.1 s1 = re_match r.1 s2) rules ->
  try_patterns rules s1 = try_patterns rules s2.
Proof.
  induction 1 as [|[pattern handler] rules H _ IH]; simpl in *; [done|].
  rewrite H. by destruct (re_match pattern s2) as [[? ?]|].
Qed.

(** Every rule matches two utterances alike when they have the same text
    after the filler and neither has one of the list rule's set phrases. *)
Lemma patterns_core (s1 s2 : string) :
  core s1 = core s2 -> core2 s1 = core2 s2 ->
  re_match list_second s1 = None -> re_match list_second s2 = None ->
  try_patterns patterns s1 = try_patterns patterns s2.
Proof.
  intros H1 H2 H3 H4. apply try_patterns_ext. unfold patterns.
  repeat apply Forall_cons_2; try apply Forall_nil_2; cbn [fst];
    first [ by apply re_match_list
          | by apply re_match_open_app
          | apply re_match_polite; [vm_compute; reflexivity | done] ].
Qed.

Lemma try_patterns_cons (pattern : regex) (handler : caps -> Intent)
    (rules : list rule) (s : string) :
  try_patterns ((pattern, handler) :: rules) s
  = match re_match pattern s with
    | Some (_, m) => Some (handler m)
    | None => try_patterns rules s
    end.
Proof. reflexivity. Qed.

(** [try_patterns] returns what the handler of the first matching rule
    builds, and nothing when no rule matches. *)
Lemma try_patterns_Some (rules : list rule) (s : string) (i : Intent) :
  try_patterns rules s = Some i <->
  exists n handler m, first_match rules s n handler m /\ handler m = i.
Proof.
  revert i. induction rules as [|[pattern handler] rules IH]; intros i.
  - split; [done|]. by intros (n & h & m & [(p & rest & H & _) _] & _).
  - rewrite try_patterns_cons.
    destruct (re_match pattern s) as [[rest m]|] eqn:E.
    + split.
      * intros [= <-]. exists 0, handler, m. repeat split; [|intros; lia].
        by exists pattern, rest.
      * intros ([|n] & h & m' & [(p & rest' & H & Hm) Hfirst] & <-).
        -- simpl in H. injection H as <- <-. congruence.
        -- specialize (Hfirst 0 (pattern, handler) ltac:(lia) eq_refl).
           simpl in Hfirst. congruence.
    + rewrite IH. split.
      * intros (n & h & m & [(p & rest & H & Hm) Hfirst] & <-).
        exists (S n), h, m. repeat split; [by exists p, rest|].
        intros [|j] r Hj Hr; simpl in Hr; [by injection Hr as <- | ].
        apply (Hfirst j); [lia | done].
      * intros ([|n] & h & m & [(p & rest & H & Hm) Hfirst] & <-).
        -- simpl in H. injection H as <- <-. congruence.
        -- exists n, h, m. repeat split; [by exists p, rest|].
           intros j r Hj Hr. apply (Hfirst (S j)); [lia | done].
Qed.

Lemma try_patterns_None (rules : list rule) (s : string) :
  try_patterns rules s = None <->
  Forall (fun r : rule => re_match r.1 s = None) rules.
Proof.
  induction rules as [|[pattern handler] rules IH].
  - split; [constructor | done].
  - rewrite try_patterns_cons, Forall_cons, <- IH. simpl.
    destruct (re_match pattern s) as [[rest m]|]; [|tauto].
    split; [done | by intros [? _]].
Qed.

Lemma patterns_types :
  Forall2 (fun (r : rule) (ty : string) => forall m, type_of (r.2 m) = ty)
    patterns rule_types.
Proof. unfold patterns, rule_types. repeat constructor. Qed.

Lemma first_match_type (s : string) (n : nat) (handler : caps -> Intent)
    (m : caps) :
  first_match patterns s n handler m ->
  rule_types !! n = Some (type_of (handler m)).
Proof.
  intros [(p & rest & H & _) _].
  destruct (Forall2_lookup_l _ _ _ _ _ patterns_types H) as (ty & Hty & Heq).
  by rewrite Hty, <- (Heq m).
Qed.

(** No handler builds an [UNKNOWN] intent. *)
Lemma try_patterns_known (s : string) (i : Intent) :
  try_patterns patterns s = Some i -> type_of i <> "UNKNOWN".
Proof.
  intros (n & h & m & Hfirst & <-)%try_patterns_Some.
  apply first_match_type in Hfirst. intros E. rewrite E in Hfirst.
  apply list_elem_of_lookup_2 in Hfirst. unfold rule_types in Hfirst.
  repeat (apply elem_of_cons in Hfirst as [Hfirst|Hfirst]; [discriminate|]).
  by apply elem_of_nil in Hfirst.
Qed.

Lemma recognized_spec (u : string) :
  recognized u <->
  u <> "" /\ try_patterns patterns (normalize u) = Some (parse u).
Proof.
  unfold recognized, parse. destruct (String.eqb_spec u "") as [->|Hu].
  - split; [done | by intros [? _]].
  - cbv zeta. destruct (try_patterns patterns (normalize u)) as [i|] eqn:E.
    + split; [done | intros _]. apply try_patterns_known in E.
      by destruct i.
    + split; [done | by intros [_ ?]].
Qed.

Lemma recognized_text (u : string) :
  recognized u -> rstrip (lower u) <> "".
Proof.
  intros [_ H]%recognized_spec Hblank.
  unfold normalize, strip in H. rewrite <- strip_comm, Hblank in H.
  assert (try_patterns patterns (lstrip "") = None) as E by (vm_compute; reflexivity).
  by rewrite E in H.
Qed.

Lemma normalize_prefixed (w u : string) :
  lower w = w -> lstrip (w +:+ lower u) = w +:+ lower u ->
  rstrip (lower u) <> "" ->
  normalize (w +:+ u) = w +:+ rstrip (lower u).
Proof.
  intros Hw Hl Hu. unfold normalize, strip.
  by rewrite lower_append, Hw, Hl, rstrip_append_l.
Qed.

Lemma core_no_filler (u : string) :
  has_filler (normalize u) = false ->
  core (normalize u) = normalize u /\ core2 (normalize u) = normalize u.
Proof.
  unfold has_filler, core, core2, eat_filler, normalize.
  rewrite strip_no_blank_start. intros [H1 H2]%orb_false_iff.
  apply bool_decide_eq_false in H1, H2.
  destruct (eat_please _); [by destruct H1|].
  destruct (eat_kindly _); [by destruct H2|]. done.
Qed.

(** The rules in front of the application rule take no utterance that
    starts with [would you kindly]. *)
Lemma polite_fails_on_kindly (body : list regex) (x : string) :
  clear_start ["p"%char] body = true ->
  (forall n c k, run (A := string * caps) n (seqs body)
                   ("would you kindly " +:+ x) c k = None) ->
  re_match (polite body) ("would you kindly " +:+ x) = None.
Proof.
  intros Hc H. unfold re_match. rewrite run_polite by done. apply H.
Qed.

Lemma kindly_reaches_open_app (x : string) :
  try_patterns patterns ("would you kindly " +:+ x)
  = match re_match open_app_pattern ("would you kindly " +:+ x) with
    | Some (_, m) => Some (_handle_open_app m)
    | None => None
    end.
Proof.
  unfold patterns. rewrite !try_patterns_cons.
  rewrite !polite_fails_on_kindly
    by first [vm_compute; reflexivity | intros; reflexivity].
  assert (re_match list_pattern ("would you kindly " +:+ x) = None) as ->.
  { pose proof (polite_fails_on_kindly list_first x
                  ltac:(vm_compute; reflexivity) ltac:(intros; reflexivity)) as H.
    unfold re_match, list_pattern in *. by rewrite run_Alt, H. }
  reflexivity.
Qed.

Lemma open_app_is_tenth (s : string) (a : string) :
  try_patterns patterns s = Some (OPEN_APP a) ->
  exists rest m, re_match open_app_pattern s = Some (rest, m)
                 /\ _handle_open_app m = OPEN_APP a.
Proof.
  intros (n & h & m & Hfirst & Hm)%try_patterns_Some.
  pose proof (first_match_type _ _ _ _ Hfirst) as Hty. rewrite Hm in Hty.
  destruct Hfirst as [(p & rest & Hn & Hp) _].
  assert (n = 9) as ->.
  { unfold rule_types in Hty.
    do 9 (destruct n as [|n]; [by simplify_eq|]).
    destruct n as [|n]; [done|].
    do 18 (destruct n as [|n]; [by simplify_eq|]). done. }
  injection Hn as <- <-. eauto.
Qed.

End ParserFacts.

(** ** The two rules for [open <name>] *)
Module OpenFacts.
Import Text Re Parser Notions TextFacts ReFacts PrefixFacts ParserFacts.

Lemma blank_is_space_only (a : ascii) :
  is_space a = true -> blank_or_visible a = true -> a = " "%char.
Proof.
  assert (forall a, implb (is_space a && blank_or_visible a) (Ascii.eqb a " ")
                    = true) as H
    by (apply all_ascii_spec; vm_compute; reflexivity).
  intros Ha Hb. specialize (H a). rewrite Ha, Hb in H. by apply Ascii.eqb_eq.
Qed.

Lemma blanks_are_path_chars (w : string) :
  forall_chars is_space w = true -> only_blanks w = true ->
  forall_chars (in_cls path_chars) w = true.
Proof.
  intros H1 H2. pose proof (forall_chars_and _ _ _ H1 H2) as H.
  revert H. apply forall_chars_impl. intros a [Ha Hb]%andb_true_iff.
  by rewrite (blank_is_space_only a Ha Hb).
Qed.

(** A check by enumeration that a pattern cannot start with white
    space. *)
Lemma first_blank_free (r : regex) :
  all_ascii (fun a => implb (is_space a) (negb (first r a))) = true ->
  forall a, is_space a = true -> first r a = false.
Proof.
  intros H a Ha. apply all_ascii_spec with (a := a) in H.
  rewrite Ha in H. by apply negb_true_iff.
Qed.

Lemma strip_prefix_here (w s : string) : strip_prefix w (w +:+ s) = Some s.
Proof. by apply strip_prefix_append. Qed.

Section Shape.
Variable n0 : nat.

(** What the explicit rule asks of the text after the filler, when the
    only white space is the blank: [open], white space, [file ] and
    then characters of a name up to the end. *)
Lemma open_file_shape (s0 : string) (c : caps) (k : @cont (string * caps))
    (x : string * caps) :
  run n0 (seqs open_file_body) s0 c k = Some x ->
  only_blanks s0 = true ->
  exists a s1 z,
    s0 = "open" +:+ String a s1 /\ is_space a = true
    /\ lstrip s1 = "file " +:+ z
    /\ forall_chars (in_cls path_chars) z = true /\ z <> "".
Proof.
  intros H Hblanks.
  change (seqs open_file_body) with
    (Seq (Lit "open")
       (Seq ws1 (Seq (Lit "file")
          (Seq ws1 (Seq (path_group "name") (Seq ws0 (Seq Eos Eps))))))) in H.
  rewrite run_Seq, run_Lit in H.
  destruct (strip_prefix "open" s0) as [s1|] eqn:E1; [|done].
  apply strip_prefix_append in E1 as ->.
  rewrite run_Seq, run_ws1 in H.
  2:{ apply (first_fails_on_blank _
               (Seq (Lit "file")
                  (Seq ws1 (Seq (path_group "name") (Seq ws0 (Seq Eos Eps)))))).
      - apply first_blank_free. vm_compute. reflexivity.
      - done. }
  destruct (after_ws1 s1) as [s2|] eqn:E2; [|done].
  apply after_ws1_Some in E2 as (a & s1' & -> & Ha & ->).
  rewrite run_Seq, run_Lit in H.
  destruct (strip_prefix "file" (lstrip s1')) as [s3|] eqn:E3; [|done].
  apply strip_prefix_append in E3.
  assert (only_blanks s3 = true) as Hs3.
  { eapply forall_chars_suffix; [|exact Hblanks].
    apply (suffix_trans _ (lstrip s1')); [rewrite E3; by exists "file"|].
    apply (suffix_trans _ s1'); [apply suffix_lstrip|].
    apply (suffix_trans _ (String a s1')); [apply suffix_cons|].
    by exists "open". }
  apply run_sound in H as (s' & c' & H & _).
  unfold ws1, ws0, path_group, Plus in H.
  inversion H as [| | |? ? ? ? s4 c4 ? ? Hws Hrest| | | | | | | | | |]; subst.
  inversion Hws as [| | |? ? ? ? ? ? ? ? Hb Hw1| | | | | | | | | |]; subst.
  inversion Hb; subst.
  apply lang_star_cls in Hw1 as (w1 & -> & Hw1).
  inversion Hrest as [| | |? ? ? ? s5 c5 ? ? Hname Htail| | | | | | | | | |]; subst.
  inversion Hname as [| | | | | | | | | |? ? ? ? ? ? Hplus| | |]; subst.
  inversion Hplus as [| | |? ? ? ? ? ? ? ? Hd Hn| | | | | | | | | |]; subst.
  inversion Hd; subst.
  apply lang_star_cls in Hn as (w2 & -> & Hw2).
  inversion Htail as [| | |? ? ? ? s6 c6 ? ? Hws0 Hend| | | | | | | | | |]; subst.
  apply lang_star_cls in Hws0 as (w3 & -> & Hw3).
  inversion Hend as [| | |? ? ? ? ? ? ? ? Heos Heps| | | | | | | | | |]; subst.
  inversion Heps; subst.
  unfold only_blanks in Hs3. simpl in Hs3.
  rewrite !forall_chars_append in Hs3. simpl in Hs3.
  rewrite !forall_chars_append in Hs3.
  repeat match goal with
         | H : _ && _ = true |- _ => apply andb_true_iff in H as [? ?]
         end.
  match goal with
  | Hs : in_cls Space ?b = true, Hv : blank_or_visible ?b = true |- _ =>
      pose proof (blank_is_space_only b Hs Hv) as ->
  end.
  eexists a, s1', _. split; [done|]. split; [done|].
  split; [rewrite E3; reflexivity|].
  inversion Heos; subst; [|done].
  split; [|by destruct w1].
  rewrite forall_chars_append. simpl. rewrite !forall_chars_append.
  repeat (apply andb_true_iff; split); try done;
    by apply blanks_are_path_chars.
Qed.

(** On such a text the generic rule matches and its group is all that
    follows [open] and the white space. *)
Lemma open_generic_takes_all (a : ascii) (s1 name : string) (c : caps) :
  is_space a = true -> lstrip s1 = name ->
  forall_chars (in_cls path_chars) name = true -> name <> "" ->
  run n0 (seqs open_body) ("open" +:+ String a s1) c
    (fun s' c' => Some (s', c'))
  = Some ("", ("name", name) :: c).
Proof.
  intros Ha Hs Hname Hne.
  change (seqs open_body) with
    (Seq (Lit "open") (Seq ws1 (Seq (path_group "name") (Seq ws0 (Seq Eos Eps))))).
  rewrite run_Seq, run_Lit, strip_prefix_here, run_Seq.
  assert (after_ws1 (String a s1) = Some name) as Hws
    by (simpl; by rewrite Ha, Hs).
  rewrite (run_ws1_first _ _ _ _ _ Hws); rewrite run_Seq;
    unfold path_group; rewrite run_group_all; done.
Qed.

(** The application rule does not take it: no application is called
    [file]. *)
Lemma open_app_not_file (a : ascii) (s1 z : string) (c : caps)
    (k : @cont (string * caps)) :
  is_space a = true -> lstrip s1 = "file " +:+ z ->
  run n0 (seqs open_app_body) ("open" +:+ String a s1) c k = None.
Proof.
  intros Ha Hs.
  set (apps := Seq (Group "app" (one_of ["calculator"; "calc"; "notepad";
                                         "paint"; "browser"; "explorer"]))
                 (Seq ws0 (Seq Eos Eps))).
  change (seqs open_app_body) with
    (Seq (Alt (Lit "open") (Alt (Lit "launch") (Lit "start")))
       (Seq (Opt (Seq ws1 (Lit "the"))) (Seq ws1 apps))).
  rewrite run_Seq, !run_Alt, !run_Lit, strip_prefix_here.
  change (strip_prefix "launch" ("open" +:+ String a s1)) with (@None string).
  change (strip_prefix "start" ("open" +:+ String a s1)) with (@None string).
  cbv iota. rewrite !orelse_None_r. unfold Opt.
  rewrite run_Seq, run_Alt, run_Eps, !run_Seq.
  rewrite (ws1_then_fail n0 (Lit "the") a "f" s1 ("ile " +:+ z));
    [ | apply first_blank_free; vm_compute; reflexivity | done..].
  rewrite (ws1_then_fail n0 apps a "f" s1 ("ile " +:+ z));
    [ | apply first_blank_free; vm_compute; reflexivity | done..].
  done.
Qed.
End Shape.

(** Spoken punctuation leaves the leading word [file] alone. *)
Lemma normalize_spoken_file (z : string) :
  normalize_spoken ("file " +:+ z) = "file " +:+ normalize_spoken z.
Proof. reflexivity. Qed.

Lemma strip_file (z t : string) :
  suffix z t -> rstrip t = t -> z <> "" ->
  strip ("file " +:+ z) = "file " +:+ z.
Proof.
  intros Hsuf Ht Hz. pose proof (rstrip_suffix z t Hsuf Ht Hz) as Hr.
  unfold strip. change (lstrip ("file " +:+ z)) with ("file " +:+ z).
  rewrite rstrip_append_l; congruence.
Qed.

Lemma polite_fails_on_char (body : list regex) (t : string) (b : ascii)
    (z : string) :
  clear_start ["p"%char] body = true -> first (seqs body) b = false ->
  core t = String b z -> re_match (polite body) t = None.
Proof.
  intros Hc Hb Ht. unfold re_match. rewrite run_polite, Ht by done.
  apply clear_start_spec in Hc as (_ & _ & Hn & _).
  apply run_first_fail; [done | congruence].
Qed.

(** On a text that reads [open], white space, [file ...] after the filler,
    the ten rules in front of the generic rule all fail. *)
Lemma rules_before_open_fail (t : string) (a : ascii) (s1 z : string) :
  lstrip t = t -> core t = "open" +:+ String a s1 ->
  is_space a = true -> lstrip s1 = "file " +:+ z ->
  Forall (fun r : rule => re_match r.1 t = None) (firstn 10 patterns).
Proof.
  intros Ht Hcore Ha Hs1.
  assert (core2 t = core t) as Hcore2.
  { unfold core, core2, eat_filler in *. rewrite Ht in *.
    destruct (eat_please t); [done|]. simpl in Hcore. by rewrite Hcore. }
  assert (re_match list_second t = None) as Hlist.
  { unfold core in Hcore. rewrite Ht in Hcore. unfold re_match.
    destruct (eat_please t) as [s0|] eqn:E.
    - apply eat_please_p in E as [t' ->]. by apply run_first_fail.
    - simpl in Hcore. rewrite Hcore. by apply run_first_fail. }
  unfold patterns. cbn [firstn].
  repeat apply Forall_cons_2; try apply Forall_nil_2; cbn [fst].
  all: try (apply (polite_fails_on_char _ t "o" ("pen" +:+ String a s1));
            [vm_compute; reflexivity | vm_compute; reflexivity | exact Hcore]).
  - pose proof (polite_fails_on_char list_first t "o" ("pen" +:+ String a s1)
                  ltac:(vm_compute; reflexivity) ltac:(vm_compute; reflexivity)
                  Hcore) as H.
    unfold re_match, list_pattern in *. by rewrite run_Alt, H, Hlist.
  - unfold re_match. rewrite run_open_app, Hcore2, Hcore.
    by eapply open_app_not_file.
Qed.

End OpenFacts.

(** ** Claims on the parser *)
Module ParserClaims.
Import Text Re Parser Notions TextFacts ReFacts PrefixFacts ParserFacts.
Import OpenFacts.

(** [parse], spelled out: an empty text is unknown; otherwise the intent
    is what the handler of the first matching rule builds from the
    lowercased, trimmed text, and unknown when no rule matches. *)
Lemma parse_first_match (text : string) :
  text <> "" ->
  (exists n handler m,
      first_match patterns (normalize text) n handler m
      /\ parse text = handler m)
  \/ (Forall (fun r : rule => re_match r.1 (normalize text) = None) patterns
      /\ parse text = UNKNOWN (normalize text)).
Proof.
  intros Htext. unfold parse.
  destruct (String.eqb_spec text "") as [|_]; [done|]. cbv zeta.
  destruct (try_patterns patterns (normalize text)) as [i|] eqn:E.
  - left. apply try_patterns_Some in E as (n & h & m & H & <-). eauto.
  - right. by apply try_patterns_None in E.
Qed.

(** A pattern that ends with [$] on every way through it matches whole
    utterances only. *)
Lemma lang_ends_with_eos (n0 : nat) (r : regex) (s s' : string) (c c' : caps) :
  ends_with_eos r = true -> lang n0 r s c s' c' ->
  s' = "" \/ s' = String newline "".
Proof.
  intros Hr H. induction H; simpl in Hr; try done; try (by auto).
  - apply orb_true_iff in Hr as [?|[Heps ?]%andb_true_iff]; [by auto|].
    destruct r2; try done. inversion H0; subst. auto.
  - apply andb_true_iff in Hr as [? ?]. auto.
  - apply andb_true_iff in Hr as [? ?]. auto.
Qed.

Lemma anchored_fullmatch (r : regex) (s : string) :
  ends_with_eos r = true -> fullmatch r s = matches r s.
Proof.
  intros Hr. unfold fullmatch, matches.
  destruct (re_match r s) as [[rest m]|] eqn:E; [|done].
  apply re_match_sound in E.
  by destruct (lang_ends_with_eos _ _ _ _ _ _ Hr E) as [-> | ->].
Qed.

(** Every rule but the list rule is anchored at the end of the
    utterance. *)
Lemma rules_anchored :
  map (fun r : rule => ends_with_eos r.1) patterns
  = [true; true; false] ++ replicate 25 true.
Proof. vm_compute. reflexivity. Qed.

(** C4 (code defect). The rules are tried in the canonical order and the
    first match wins ([parse_first_match], [patterns_types]), but the list
    rule is not a full-utterance pattern: the [^] and the [$] of its source
    text sit in different branches of a top-level alternation, so its first
    branch matches a prefix. On [show file notes.txt] the parser answers
    LIST although the list pattern stops after [show file]; the first rule
    that matches the whole utterance is the read rule, which would give
    READ [notes.txt]. *)
Theorem list_rule_matches_a_prefix :
  parse "show file notes.txt" = LIST
  /\ re_match list_pattern "show file notes.txt" = Some (" notes.txt", [])
  /\ fullmatch list_pattern "show file notes.txt" = false
  /\ (exists m, first_match
                  (filter (fun r : rule => fullmatch r.1 "show file notes.txt" = true)
                     patterns)
                  "show file notes.txt" 0 _handle_read m
                /\ _handle_read m = READ "notes.txt").
Proof.
  split; [by vm_compute|]. split; [by vm_compute|]. split; [by vm_compute|].
  exists [("name", "notes.txt")]. split; [|by vm_compute].
  split; [|intros; lia]. exists (polite read_body), "".
  split; by vm_compute.
Qed.

(** C9 (counterexample). [would you kindly] is not accepted by the rule
    that creates a file: the utterance with the filler is not parsed as
    the utterance without it. *)
Lemma kindly_not_in_mkfile_rule :
  parse "create file test.txt" = MKFILE "test.txt"
  /\ parse ("would you kindly " +:+ "create file test.txt")
     <> parse "create file test.txt".
Proof. by vm_compute. Qed.

(** C9 (amended). For an utterance [u] that does not already start with
    a filler: if a rule takes [u], other than through one of the list
    rule's two set phrases, then [please u] is parsed to the same intent
    with the same fields; and if [u] is parsed to an OPEN_APP intent, so
    is [would you kindly u]. The filler is read by the pattern's prefix
    and reaches no captured field. *)
Theorem fillers_ignored (u : string) :
  has_filler (normalize u) = false ->
  (recognized u -> re_match list_second (normalize u) = None ->
   parse ("please " +:+ u) = parse u)
  /\ (forall app, parse u = OPEN_APP app ->
                  parse ("would you kindly " +:+ u) = OPEN_APP app).
Proof.
  intros Hfill. destruct (core_no_filler u Hfill) as [Hc1 Hc2]. split.
  - intros Hrec Hlist. pose proof (recognized_text u Hrec) as Htext.
    apply recognized_spec in Hrec as [Hu Hrec].
    assert (normalize ("please " +:+ u) = "please " +:+ rstrip (lower u)) as Hn
      by (by apply normalize_prefixed).
    unfold parse at 1. change (String.eqb ("please " +:+ u) "") with false.
    cbv iota zeta. rewrite Hn.
    rewrite (patterns_core _ (normalize u)), Hrec; [done| | |done|done].
    + rewrite Hc1. unfold normalize, strip. rewrite <- strip_comm. reflexivity.
    + rewrite Hc2. unfold normalize, strip. rewrite <- strip_comm. reflexivity.
  - intros app Happ.
    assert (recognized u) as Hrec by (unfold recognized; by rewrite Happ).
    pose proof (recognized_text u Hrec) as Htext.
    apply recognized_spec in Hrec as [Hu Hrec]. rewrite Happ in Hrec.
    apply open_app_is_tenth in Hrec as (rest & m & Hm & Happ').
    assert (normalize ("would you kindly " +:+ u)
            = "would you kindly " +:+ rstrip (lower u)) as Hn
      by (by apply normalize_prefixed).
    unfold parse. change (String.eqb ("would you kindly " +:+ u) "") with false.
    cbv iota zeta. rewrite Hn, kindly_reaches_open_app.
    rewrite (re_match_open_app _ (normalize u)), Hm; [by rewrite Happ'|].
    rewrite Hc2. unfold normalize, strip. rewrite <- strip_comm. reflexivity.
Qed.

Lemma fillers_ignored_witness :
  parse ("please " +:+ "create file test.txt") = parse "create file test.txt"
  /\ parse ("would you kindly " +:+ "open notepad") = OPEN_APP "notepad".
Proof.
  split.
  - apply (fillers_ignored "create file test.txt");
      [vm_compute; reflexivity | vm_compute; exact I | vm_compute; reflexivity].
  - apply (fillers_ignored "open notepad"); vm_compute; reflexivity.
Defined.

(** C10 (counterexample). With a tab between [file] and the name the
    generic rule does not match, because a tab is no character of a name,
    and the explicit rule at the end of the list fires: the name is
    [notes.txt], without the word [file]. *)
Lemma open_file_rule_fires_after_tab :
  let u := "open file" +:+ String (ascii_of_N 9) "notes.txt" in
  matches (polite open_file_body) (normalize u) = true
  /\ matches (polite open_body) (normalize u) = false
  /\ try_patterns (firstn 27 patterns) (normalize u) = None
  /\ parse u = OPEN_FILE "notes.txt".
Proof. by vm_compute. Qed.

(** C10 (amended). For every utterance whose only white space is the
    blank character and that the explicit rule [open file <name>] at the
    end of the list matches, the generic rule [open <name>] is the first
    rule that matches, so the explicit rule does not fire: the intent is
    OPEN_FILE and its name keeps the word [file] in front. *)
Theorem generic_open_shadows_open_file (u : string) :
  only_blanks u = true ->
  matches (polite open_file_body) (normalize u) = true ->
  exists rest,
    first_match patterns (normalize u) 10 _handle_open_file
      [("name", "file " +:+ rest)]
    /\ parse u = OPEN_FILE ("file " +:+ normalize_spoken rest).
Proof.
  intros Hblanks%only_blanks_normalize Hmatch.
  assert (u <> "") as Hu by (intros ->; by vm_compute in Hmatch).
  set (t := normalize u) in *.
  assert (lstrip t = t) as Hl by apply strip_no_blank_start.
  assert (rstrip t = t) as Hr by apply rstrip_idemp.
  unfold matches, re_match in Hmatch.
  rewrite run_polite in Hmatch by (vm_compute; reflexivity).
  destruct (run _ _ (core t) _ _) as [x|] eqn:E; [|done].
  apply OpenFacts.open_file_shape in E as (a & s1 & z & Hcore & Ha & Hs1 & Hz & Hne);
    [|by eapply forall_chars_suffix; [apply suffix_core|]].
  assert (re_match (polite open_body) t = Some ("", [("name", "file " +:+ z)]))
    as Hopen.
  { unfold re_match. rewrite run_polite, Hcore by (vm_compute; reflexivity).
    apply OpenFacts.open_generic_takes_all; [done | done | | done].
    by rewrite forall_chars_append, Hz. }
  pose proof (OpenFacts.rules_before_open_fail t a s1 z Hl Hcore Ha Hs1) as Hnone.
  assert (first_match patterns t 10 _handle_open_file [("name", "file " +:+ z)])
    as Hfirst.
  { split; [by exists (polite open_body), ""|].
    intros j r Hj Hr'. rewrite Forall_lookup in Hnone. apply (Hnone j).
    by rewrite lookup_take_lt. }
  assert (suffix z t) as Hsuf.
  { apply (suffix_trans _ (lstrip s1)); [rewrite Hs1; by exists "file "|].
    apply (suffix_trans _ s1); [apply suffix_lstrip|].
    apply (suffix_trans _ (String a s1)); [apply suffix_cons|].
    apply (suffix_trans _ (core t)); [rewrite Hcore; by exists "open"|].
    apply suffix_core. }
  exists z. split; [done|].
  unfold parse. destruct (String.eqb_spec u "") as [|_]; [done|]. cbv zeta.
  fold t.
  assert (try_patterns patterns t
          = Some (_handle_open_file [("name", "file " +:+ z)])) as ->
    by (apply try_patterns_Some; eauto).
  unfold _handle_open_file.
  change (grp "name" [("name", "file " +:+ z)]) with ("file " +:+ z).
  by rewrite (OpenFacts.strip_file z t), OpenFacts.normalize_spoken_file.
Qed.

Lemma generic_open_shadows_open_file_witness :
  exists rest,
    first_match patterns (normalize "open file notes.txt") 10 _handle_open_file
      [("name", "file " +:+ rest)]
    /\ parse "open file notes.txt" = OPEN_FILE ("file " +:+ normalize_spoken rest).
Proof.
  apply (generic_open_shadows_open_file "open file notes.txt");
    vm_compute; reflexivity.
Defined.

End ParserClaims.

(** ** Paths and [Path.resolve()] *)
Module FsFacts.
Import Text Fs Notions.

(** [base in p.parents or p == base] says that [base] is a prefix of
    [p]. *)
Lemma elem_of_prefixes_below (n : nat) (p b : Path) :
  b ∈ prefixes_below n p <-> exists k, k < n /\ b = firstn k p.
Proof.
  induction n as [|n IH]; simpl.
  - rewrite elem_of_nil. split; [done | intros (k & ? & _); lia].
  - rewrite elem_of_cons, IH. split.
    + intros [-> | (k & ? & ->)]; [exists n | exists k]; split; (lia || done).
    + intros (k & Hk & ->). destruct (decide (k = n)) as [->|]; [by left|].
      right. exists k. split; [lia | done].
Qed.

Lemma inside_prefix (base p : Path) :
  base ∈ parents p \/ p = base <-> base `prefix_of` p.
Proof.
  unfold parents. rewrite elem_of_prefixes_below. split.
  - intros [(k & _ & ->) | ->]; [|done].
    exists (skipn k p). by rewrite firstn_skipn.
  - intros [q ->]. destruct q as [|c q]; [right; by rewrite app_nil_r|].
    left. exists (length base). split.
    + rewrite length_app. simpl. lia.
    + by rewrite firstn_app, firstn_all, Nat.sub_diag, app_nil_r.
Qed.

Section Resolve.
Variable fs : FS.

Lemma real_inv_snoc (p : Path) (c : string) :
  real fs (p ++ [c]) -> real fs p /\ plain c /\ not_link fs (p ++ [c]).
Proof.
  intros H. inversion H as [E | p' c' Hp Hc Hl E].
  - by destruct p.
  - apply app_inj_tail in E as [-> ->]. done.
Qed.

Lemma real_parent (p : Path) : real fs p -> real fs (parent p).
Proof.
  intros H. destruct H as [|p c Hp _ _]; [constructor|].
  unfold parent. by rewrite removelast_last.
Qed.

Lemma real_prefix (p q : Path) : real fs (p ++ q) -> real fs p.
Proof.
  induction q as [|c q IH] using rev_ind; [by rewrite app_nil_r|].
  rewrite app_assoc. intros (H & _ & _)%real_inv_snoc. auto.
Qed.

(** Walking from a real path stays on real paths. *)
Lemma walk_real (acc : Path) (comps : list string) :
  real fs acc ->
  match walk fs acc comps with
  | Done p => real fs p
  | Jump from _ => real fs from
  end.
Proof.
  revert acc. induction comps as [|c rest IH]; intros acc Hacc; simpl; [done|].
  case_bool_decide as H1; [by apply IH|].
  case_bool_decide as H2; [by apply IH, real_parent|].
  destruct (fs !! (acc ++ [c])) as [[content| |target]|] eqn:E.
  - apply IH. constructor; [done | unfold plain; naive_solver |].
    intros t Ht. pose proof (eq_trans (eq_sym E) Ht). discriminate.
  - apply IH. constructor; [done | unfold plain; naive_solver |].
    intros t Ht. pose proof (eq_trans (eq_sym E) Ht). discriminate.
  - destruct (is_absolute target); [constructor | done].
  - apply IH. constructor; [done | unfold plain; naive_solver |].
    intros t Ht. pose proof (eq_trans (eq_sym E) Ht). discriminate.
Qed.

Lemma resolve_from_real (fuel : nat) (acc : Path) (comps : list string)
    (q : Path) :
  real fs acc -> resolve_from fs fuel acc comps = Some q -> real fs q.
Proof.
  revert acc comps. induction fuel as [|f IH]; intros acc comps Hacc; simpl;
    pose proof (walk_real acc comps Hacc) as Hw;
    destruct (walk fs acc comps) as [p|from rest]; try congruence.
  by apply IH.
Qed.

(** A real path walks to itself. *)
Lemma walk_of_real (acc comps : Path) :
  real fs (acc ++ comps) -> walk fs acc comps = Done (acc ++ comps).
Proof.
  revert acc. induction comps as [|c rest IH]; intros acc H; simpl.
  - by rewrite app_nil_r.
  - replace (acc ++ c :: rest) with ((acc ++ [c]) ++ rest) in *
      by (by rewrite <- app_assoc).
    pose proof (real_prefix _ _ H) as (_ & (H1 & H2 & H3) & Hl)%real_inv_snoc.
    rewrite bool_decide_eq_false_2 by (by intros [?|?]).
    rewrite bool_decide_eq_false_2 by done.
    destruct (fs !! (acc ++ [c])) as [[content| |target]|] eqn:E;
      try (by apply IH).
    by destruct (Hl target).
Qed.

Lemma resolve_from_of_real (fuel : nat) (q : Path) :
  real fs q -> resolve_from fs fuel [] q = Some q.
Proof.
  intros H. destruct fuel; simpl; by rewrite (walk_of_real [] q H).
Qed.

(** What [resolve] returns is a real path, and [resolve] leaves a real
    path as it is: resolving twice is resolving once. *)
Lemma resolve_real (p q : Path) : resolve fs p = Some q -> real fs q.
Proof. apply resolve_from_real. constructor. Qed.

Lemma resolve_of_real (q : Path) : real fs q -> normalized fs q.
Proof. apply resolve_from_of_real. Qed.

Theorem resolve_idempotent (p q : Path) :
  resolve fs p = Some q -> resolve fs q = Some q.
Proof. intros H%resolve_real. by apply resolve_of_real. Qed.

(** A normalized path has only plain components and no link on it. *)
Lemma normalized_real (p : Path) : normalized fs p <-> real fs p.
Proof. split; [apply resolve_real | apply resolve_of_real]. Qed.
End Resolve.

End FsFacts.

(** ** Claims on the sandbox resolver ([src/state.py]) *)
Module StateClaims.
Import Text Fs State Notions FsFacts.

Lemma inside_sandbox_spec (st : ShellState) (fs : FS) (target : Path) :
  inside_sandbox st fs target = true <->
  exists q, resolve fs target = Some q /\ base st `prefix_of` q.
Proof.
  unfold inside_sandbox. destruct (resolve fs target) as [q|].
  - rewrite orb_true_iff, !bool_decide_eq_true, inside_prefix. split.
    + intros ?. by exists q.
    + by intros (? & [= <-] & ?).
  - split; [done | by intros (q & ? & _)].
Qed.

(** On a path that [resolve] has returned, the check of [inside_sandbox]
    is the check that the sandbox root is a prefix of that very path. *)
Lemma inside_sandbox_resolved (st : ShellState) (fs : FS) (p target : Path) :
  resolve fs p = Some target ->
  inside_sandbox st fs target = true <-> base st `prefix_of` target.
Proof.
  intros H%resolve_idempotent. rewrite inside_sandbox_spec. split.
  - intros (q & Hq & ?). congruence.
  - intros ?. by exists target.
Qed.

(** What [resolve_in_cwd] returns, case by case. *)
Lemma resolve_in_cwd_cases (st : ShellState) (fs : FS) (rel : path_arg) :
  match resolve_in_cwd st fs rel with
  | Ok p =>
      (is_here rel = true /\ p = cwd st)
      \/ (is_here rel = false /\ resolve fs (under_cwd st rel) = Some p
          /\ base st `prefix_of` p)
  | Raise (ValueError msg) =>
      msg = escape_message rel
      /\ exists t, resolve fs (under_cwd st rel) = Some t
                   /\ ~ base st `prefix_of` t
  | Raise (RuntimeError _) => resolve fs (under_cwd st rel) = None
  | Raise _ => False
  end.
Proof.
  unfold resolve_in_cwd. destruct (is_here rel) eqn:Hhere; [by left|].
  destruct (resolve fs (under_cwd st rel)) as [t|] eqn:Hres; [|done].
  pose proof (inside_sandbox_resolved st fs _ _ Hres) as Hin.
  destruct (inside_sandbox st fs t); simpl.
  - right. split; [done|]. split; [done|]. by apply Hin.
  - split; [done|]. exists t. split; [done|]. intros H%Hin. done.
Qed.




End StateClaims.

(** ** Claims on the executor ([src/executor.py]) *)
Module ExecutorClaims.
Import Text Fs State Executor Notions TextFacts FsFacts StateClaims.

(** *** Applications *)

(** C2. [open_app] starts a process only for a key of the whitelist of
    the running platform, and then the whitelisted command; for any
    other token it prints that the application is not allowed and starts
    nothing. *)
Theorem open_app_fails_closed (sys : System) (w : World) (app : string) :
  let allowed := default ∅ (ALLOWED_APPS !! os_name sys) in
  (w_procs (open_app sys w app) <> w_procs w -> is_Some (allowed !! app))
  /\ (forall command, allowed !! app = Some command ->
        w_procs (open_app sys w app) = w_procs w ++ [command])
  /\ (allowed !! app = None ->
        open_app sys w app
        = print ("Error: Application '" +:+ app +:+ "' is not allowed") w
        /\ w_procs (open_app sys w app) = w_procs w).
Proof.
  intros allowed. unfold open_app. fold allowed.
  destruct (allowed !! app) as [command|]; simpl.
  - split; [by eauto|]. split; [by intros ? [= <-] | done].
  - split; [done|]. split; done.
Qed.

Lemma open_app_fails_closed_witness :
  w_procs (open_app Linux (mkWorld ∅ (State.init ["sb"]) [] [] []) "gedit")
  = ["gedit"]
  /\ w_procs (open_app Linux (mkWorld ∅ (State.init ["sb"]) [] [] []) "rm -rf /")
     = []
  /\ w_procs (open_app Windows (mkWorld ∅ (State.init ["sb"]) [] [] []) "gedit")
     = [].
Proof.
  set (w := mkWorld ∅ (State.init ["sb"]) [] [] []).
  split; [|split].
  - apply (proj1 (proj2 (open_app_fails_closed Linux w "gedit")) "gedit").
    by vm_compute.
  - apply (proj2 (proj2 (open_app_fails_closed Linux w "rm -rf /"))).
    by vm_compute.
  - apply (proj2 (proj2 (open_app_fails_closed Windows w "gedit"))).
    by vm_compute.
Defined.

(** *** The working directory as text *)

Lemma relative_to_app (base rel : Path) : relative_to (base ++ rel) base = Some rel.
Proof.
  induction base as [|b base IH]; [by destruct rel|].
  simpl. by rewrite String.eqb_refl.
Qed.

(** Below the root, [pwd] is the root marker followed by the path
    relative to the sandbox. *)
Lemma pwd_below_root (st : ShellState) (rel : list string) :
  cwd st = base st ++ rel -> pwd st = "/" +:+ str_rel rel.
Proof.
  intros H. unfold pwd, current_directory. by rewrite H, relative_to_app.
Qed.

(** C7 (code defect). At the sandbox root [pwd] returns [/.] and not the
    root marker [/]: the path of the root relative to itself is [.], and
    the [/] of the [except] branch is reached only when the current
    directory is outside the root. *)
Theorem pwd_at_root (st : ShellState) :
  cwd st = base st -> pwd st = "/.".
Proof.
  intros H. apply (pwd_below_root st []). by rewrite app_nil_r.
Qed.

Lemma pwd_at_root_witness :
  pwd (State.init ["home"; "user"; "sandbox"]) = "/.".
Proof. apply pwd_at_root. reflexivity. Defined.

(** *** Sizes *)

(** [format_2f] prints the nearest number of hundredths. *)
Lemma hundredths_nearest (num den : Z) :
  (0 < den)%Z ->
  (2 * Z.abs (100 * num - hundredths num den * den) <= den)%Z.
Proof.
  intros Hden. unfold hundredths.
  pose proof (Z.div_mod (100 * num) den ltac:(lia)) as Hdm.
  pose proof (Z.mod_pos_bound (100 * num) den Hden) as Hmod.
  destruct (Z.ltb_spec (2 * ((100 * num) mod den)) den);
    [|destruct (Z.ltb_spec den (2 * ((100 * num) mod den)));
      [|destruct (Z.even (100 * num / den))]]; nia.
Qed.

Lemma two_digits_length (m : Z) :
  (0 <= m < 100)%Z -> String.length (two_digits m) = 2.
Proof.
  intros Hm.
  assert (forallb (fun k => String.length (two_digits (Z.of_nat k)) =? 2)
            (seq 0 100) = true) as H by (vm_compute; reflexivity).
  rewrite forallb_forall in H. specialize (H (Z.to_nat m)).
  rewrite Z2Nat.id in H by lia. apply Nat.eqb_eq, H, in_seq. lia.
Qed.

(** A whole number of bytes is printed with [.00] after it. *)
Lemma format_2f_whole (n : Z) : format_2f n 1 = pretty n +:+ ".00".
Proof.
  unfold format_2f, hundredths.
  rewrite Z.div_1_r, Z.mod_1_r. change (2 * 0 <? 1)%Z with true. cbv iota.
  rewrite (Z.mul_comm 100 n), Z.div_mul, Z.mod_mul by lia. reflexivity.
Qed.

Lemma fmt_size_unit (n : Z) :
  _fmt_size n
  = format_2f n (1024 ^ Z.of_nat (unit_index n))
    +:+ " " +:+ nth (unit_index n) units "".
Proof.
  unfold _fmt_size, unit_index, units, fmt_loop.
  change (1024 * 1)%Z with 1024%Z.
  change (1024 * (1 * 1024))%Z with (1024 ^ 2)%Z.
  change (1024 * (1 * 1024 * 1024))%Z with (1024 ^ 3)%Z.
  change (1024 * (1 * 1024 * 1024 * 1024))%Z with (1024 ^ 4)%Z.
  change (String.eqb "B" (List.last ["B"; "KB"; "MB"; "GB"; "TB"] "")) with false.
  change (String.eqb "KB" (List.last ["B"; "KB"; "MB"; "GB"; "TB"] "")) with false.
  change (String.eqb "MB" (List.last ["B"; "KB"; "MB"; "GB"; "TB"] "")) with false.
  change (String.eqb "GB" (List.last ["B"; "KB"; "MB"; "GB"; "TB"] "")) with false.
  change (String.eqb "TB" (List.last ["B"; "KB"; "MB"; "GB"; "TB"] "")) with true.
  rewrite !orb_false_r, orb_true_r.
  destruct (n <? 1024)%Z; [reflexivity|].
  destruct (n <? 1024 ^ 2)%Z; [reflexivity|].
  destruct (n <? 1024 ^ 3)%Z; [reflexivity|].
  destruct (n <? 1024 ^ 4)%Z; reflexivity.
Qed.

(** Evaluating the powers of 1024 at a known exponent. *)
Ltac pow_1024 :=
  repeat match goal with
    | |- context [(1024 ^ Z.of_nat ?k / 1024)%Z] =>
        let x := eval vm_compute in (1024 ^ Z.of_nat k / 1024)%Z in
        change (1024 ^ Z.of_nat k / 1024)%Z with x
    | |- context [(1024 ^ Z.of_nat ?k)%Z] =>
        let x := eval vm_compute in (1024 ^ Z.of_nat k)%Z in
        change (1024 ^ Z.of_nat k)%Z with x
    end.

Lemma unit_index_cases (n : Z) :
  (unit_index n = 0 /\ (n < 1024)%Z)
  \/ (unit_index n = 1 /\ (1024 <= n < 1024 * 1024)%Z)
  \/ (unit_index n = 2 /\ (1024 * 1024 <= n < 1024 * 1024 * 1024)%Z)
  \/ (unit_index n = 3
      /\ (1024 * 1024 * 1024 <= n < 1024 * 1024 * 1024 * 1024)%Z)
  \/ (unit_index n = 4 /\ (1024 * 1024 * 1024 * 1024 <= n)%Z).
Proof.
  unfold unit_index.
  change (1024 ^ 2)%Z with (1024 * 1024)%Z.
  change (1024 ^ 3)%Z with (1024 * 1024 * 1024)%Z.
  change (1024 ^ 4)%Z with (1024 * 1024 * 1024 * 1024)%Z.
  destruct (Z.ltb_spec n 1024); [lia|].
  destruct (Z.ltb_spec n (1024 * 1024)); [lia|].
  destruct (Z.ltb_spec n (1024 * 1024 * 1024)); [lia|].
  destruct (Z.ltb_spec n (1024 * 1024 * 1024 * 1024)); lia.
Qed.

(** C8 (counterexample). A plain byte count is printed with two
    decimals like every other unit, not as a bare integer: 512 bytes give
    [512.00 B], and the bare form [512 B] of the last line of [_fmt_size]
    is never produced. *)
Lemma bytes_are_printed_with_decimals :
  _fmt_size 512 = "512.00 B" /\ _fmt_size 512 <> "512 B"
  /\ fmt_fallthrough 512 = "512 B".
Proof. by vm_compute. Qed.

(** C8 (amended). Every byte count is printed as the nearest number of
    hundredths of its value scaled by a power of 1024, with exactly two
    decimal places, in the first of the units B, KB, MB, GB under which
    the scaled value is below 1024, else in TB; a plain byte count below
    1024 is printed as the count followed by [.00 B]. The size of a
    zero-byte file in the sandbox is reported as [0.00 B], not as an
    error. *)
Theorem size_is_scaled_by_1024 (n : Z) :
  (0 <= n < 2 ^ 53)%Z ->
  let k := unit_index n in
  let den := (1024 ^ Z.of_nat k)%Z in
  let h := hundredths n den in
  _fmt_size n
  = pretty (h / 100)%Z +:+ "." +:+ two_digits (h mod 100)%Z
    +:+ " " +:+ nth k units ""
  /\ String.length (two_digits (h mod 100)%Z) = 2
  /\ (2 * Z.abs (100 * n - h * den) <= den)%Z
  /\ (k < 4 -> (n < 1024 * den)%Z)
  /\ (0 < k -> (1024 * (den / 1024) <= n)%Z)
  /\ ((n < 1024)%Z -> _fmt_size n = pretty n +:+ ".00 B")
  /\ (forall (w : World) (name : string) (path : Path),
        resolve_here w name = Ok path -> inside w path = true ->
        stat (w_fs w) path = Some (File "") ->
        item_size w name = "Size of '" +:+ Fs.name path +:+ "': 0.00 B").
Proof.
  intros Hn k den h.
  assert (0 < den)%Z as Hden by (apply Z.pow_pos_nonneg; lia).
  split; [rewrite fmt_size_unit; unfold format_2f; by rewrite !append_assoc|].
  split; [apply two_digits_length, Z.mod_pos_bound; lia|].
  split; [by apply hundredths_nearest|].
  split; [|split; [|split]].
  - destruct (unit_index_cases n) as [[E ?]|[[E ?]|[[E ?]|[[E ?]|[E ?]]]]];
      subst den k; rewrite E; intros ?; pow_1024; lia.
  - destruct (unit_index_cases n) as [[E ?]|[[E ?]|[[E ?]|[[E ?]|[E ?]]]]];
      subst den k; rewrite E; intros ?; pow_1024; lia.
  - intros Hsmall. rewrite fmt_size_unit. unfold unit_index.
    destruct (Z.ltb_spec n 1024); [|lia].
    change (1024 ^ Z.of_nat 0)%Z with 1%Z. rewrite format_2f_whole.
    by rewrite append_assoc.
  - intros w name path Hres Hin Hstat. unfold item_size.
    rewrite Hres, Hin. simpl negb. cbv iota.
    unfold exists_, _dir_size, is_file, st_size. rewrite Hstat. reflexivity.
Qed.

Lemma size_is_scaled_by_1024_witness :
  _fmt_size 1152 = "1.12 KB" /\ _fmt_size 1023 = "1023.00 B"
  /\ _fmt_size 0 = "0.00 B".
Proof.
  split; [|split].
  - rewrite (proj1 (size_is_scaled_by_1024 1152 ltac:(lia))). by vm_compute.
  - apply (size_is_scaled_by_1024 1023 ltac:(lia)). lia.
  - apply (size_is_scaled_by_1024 0 ltac:(lia)). lia.
Defined.

(** *** Copying *)

Lemma stat_normalized (fs : FS) (p : Path) :
  normalized fs p -> stat fs p = lookup_node fs p.
Proof. unfold normalized, stat. by intros ->. Qed.

Lemma name_snoc (p : Path) (c : string) : name (p ++ [c]) = c.
Proof. apply last_last. Qed.

Lemma lookup_node_snoc (fs : FS) (p : Path) (c : string) :
  lookup_node fs (p ++ [c]) = fs !! (p ++ [c]).
Proof. by destruct p. Qed.

(** The part of the property that holds: a file copied to an existing
    directory that has no entry of the file's name is placed inside the
    directory under that name. *)
Lemma copy_into_directory (w : World) (src_name dst_name : string)
    (src dst : Path) (content : string) :
  resolve_here w src_name = Ok src -> resolve_here w dst_name = Ok dst ->
  normalized (w_fs w) src -> normalized (w_fs w) dst ->
  stat (w_fs w) src = Some (File content) ->
  stat (w_fs w) dst = Some Dir ->
  inside w src = true -> inside w (dst ++ [name src]) = true ->
  w_fs w !! (dst ++ [name src]) = None ->
  copy_item w src_name dst_name
  = ("Copied file '" +:+ name src +:+ "' to '" +:+ name src +:+ "'",
     set_fs (<[dst ++ [name src] := File content]> (w_fs w)) w).
Proof.
  intros Hsrc Hdst Hnsrc Hndst Hssrc Hsdst Hisrc Hitgt Hfree.
  assert (plain (name src)) as Hplain.
  { rewrite stat_normalized in Hssrc by done. apply normalized_real in Hnsrc.
    destruct src as [|c0 src0] using rev_ind; [done|].
    rewrite name_snoc. by apply real_inv_snoc in Hnsrc as (_ & ? & _). }
  assert (normalized (w_fs w) (dst ++ [name src])) as Hntgt.
  { apply normalized_real. constructor; [by apply normalized_real | done |].
    intros t Ht. pose proof (eq_trans (eq_sym Hfree) Ht). discriminate. }
  assert (stat (w_fs w) (dst ++ [name src]) = None) as Hstgt
    by (by rewrite stat_normalized, lookup_node_snoc).
  assert (src <> dst ++ [name src]) as Hne.
  { intros E. rewrite <- E in Hstgt. rewrite Hstgt in Hssrc. discriminate. }
  unfold copy_item. rewrite Hsrc, Hdst.
  assert (exists_ (w_fs w) dst = true) as ->
    by (unfold exists_; by rewrite Hsdst).
  assert (is_dir (w_fs w) dst = true) as ->
    by (unfold is_dir; by rewrite Hsdst).
  simpl andb. cbv beta iota zeta. rewrite Hisrc, Hitgt.
  assert (exists_ (w_fs w) src = true) as ->
    by (unfold exists_; by rewrite Hssrc).
  assert (is_dir (w_fs w) src = false) as ->
    by (unfold is_dir; by rewrite Hssrc).
  assert (is_dir (w_fs w) (dst ++ [name src]) = false) as Hdir
    by (unfold is_dir; by rewrite Hstgt).
  simpl negb. simpl orb. cbv beta iota zeta. rewrite !Hdir.
  unfold sys_copy2. cbv beta zeta. rewrite !Hdir.
  rewrite bool_decide_eq_false_2
    by (unfold normalized in *; rewrite Hnsrc, Hntgt; by intros [[= ?] _]).
  unfold sys_read. rewrite Hssrc. unfold bind, sys_write.
  unfold normalized in Hntgt. rewrite Hntgt, lookup_node_snoc, Hfree.
  unfold check_parent, parent. rewrite removelast_last, Hsdst.
  by rewrite name_snoc.
Qed.

(** C6 (code defect). Copying a regular file onto another existing
    regular file succeeds and replaces the content of the destination:
    the branch of [copy_item] for files does not test whether the
    destination exists, unlike its branch for folders and unlike
    [move_item]. *)
Theorem copy_overwrites_existing_file (w : World) (src_name dst_name : string)
    (src dst : Path) (content old : string) :
  resolve_here w src_name = Ok src -> resolve_here w dst_name = Ok dst ->
  normalized (w_fs w) src -> normalized (w_fs w) dst ->
  inside w src = true -> inside w dst = true ->
  stat (w_fs w) src = Some (File content) ->
  stat (w_fs w) dst = Some (File old) ->
  src <> dst ->
  copy_item w src_name dst_name
  = ("Copied file '" +:+ name src +:+ "' to '" +:+ name dst +:+ "'",
     set_fs (<[dst := File content]> (w_fs w)) w).
Proof.
  intros Hsrc Hdst Hnsrc Hndst Hisrc Hidst Hssrc Hsdst Hne.
  unfold copy_item. rewrite Hsrc, Hdst.
  assert (is_dir (w_fs w) dst = false) as Hdir_dst
    by (unfold is_dir; by rewrite Hsdst).
  assert (is_dir (w_fs w) src = false) as Hdir_src
    by (unfold is_dir; by rewrite Hssrc).
  assert (exists_ (w_fs w) src = true) as Hex_src
    by (unfold exists_; by rewrite Hssrc).
  rewrite Hdir_dst, andb_false_r. cbv beta iota zeta.
  rewrite Hisrc, Hidst, Hex_src, Hdir_src. simpl negb. simpl orb.
  cbv beta iota zeta.
  unfold sys_copy2. cbv beta zeta. rewrite !Hdir_dst.
  rewrite bool_decide_eq_false_2
    by (unfold normalized in *; rewrite Hnsrc, Hndst; by intros [[= ?] _]).
  unfold sys_read. rewrite Hssrc. unfold bind, sys_write.
  rewrite stat_normalized in Hsdst by done.
  unfold normalized in Hndst. by rewrite Hndst, Hsdst.
Qed.

Lemma copy_overwrites_existing_file_witness :
  let fs : FS :=
    list_to_map [(["sb"], Dir); (["sb"; "a.txt"], File "new text");
                 (["sb"; "b.txt"], File "text to keep")] in
  let w := mkWorld fs (State.init ["sb"]) [] [] [] in
  copy_item w "a.txt" "b.txt"
  = ("Copied file 'a.txt' to 'b.txt'",
     set_fs (<[["sb"; "b.txt"] := File "new text"]> fs) w).
Proof.
  intros fs w.
  apply (copy_overwrites_existing_file w "a.txt" "b.txt" ["sb"; "a.txt"]
           ["sb"; "b.txt"] "new text" "text to keep");
    by vm_compute.
Defined.

End ExecutorClaims.

(** ** Claims on the command loop ([src/main.py], [src/commands.py]) *)
Module MainClaims.
Import Text Fs State Executor Parser Commands Main Notions FsFacts StateClaims.

(** *** Which operations touch the shell state *)

Ltac keeps_state op :=
  unfold op, said; repeat case_match; reflexivity.

Lemma mkdir_state w name : w_state (mkdir w name) = w_state w.
Proof. keeps_state mkdir. Qed.

Lemma mkfile_state w name : w_state (mkfile w name) = w_state w.
Proof. keeps_state mkfile. Qed.

Lemma delete_state w kind name : w_state (delete w kind name) = w_state w.
Proof. keeps_state delete. Qed.

Lemma open_app_state sys w app : w_state (open_app sys w app) = w_state w.
Proof. keeps_state open_app. Qed.

Lemma copy_item_state w src dst : w_state (copy_item w src dst).2 = w_state w.
Proof. keeps_state copy_item. Qed.

Lemma move_item_state w src dst : w_state (move_item w src dst).2 = w_state w.
Proof. keeps_state move_item. Qed.

Lemma rename_item_state w old new :
  w_state (rename_item w old new).2 = w_state w.
Proof. keeps_state rename_item. Qed.

Lemma append_file_state w name text :
  w_state (append_file w name text).2 = w_state w.
Proof. keeps_state append_file. Qed.

Lemma touch_file_state w name : w_state (touch_file w name).2 = w_state w.
Proof. keeps_state touch_file. Qed.

Lemma open_file_state sys w name :
  w_state (open_file sys w name).2 = w_state w.
Proof. keeps_state open_file. Qed.

(** Every intent but CD leaves the shell state as it is. *)
Lemma handle_keeps_state (sys : System) (intent : Intent) (w : World) :
  (forall path, intent <> CD path) ->
  w_state (handle sys intent w).2 = w_state w.
Proof.
  intros Hcd. destruct intent; try reflexivity; unfold handle, said, snd.
  - apply mkdir_state.
  - apply mkfile_state.
  - by destruct (Hcd path).
  - apply open_app_state.
  - apply open_file_state.
  - apply rename_item_state.
  - apply copy_item_state.
  - apply move_item_state.
  - apply append_file_state.
  - apply touch_file_state.
Qed.

(** *** Changing the directory *)

Lemma set_state_same (w : World) : set_state (w_state w) w = w.
Proof. by destruct w. Qed.

(** [change_directory] moves to a directory of the sandbox or leaves the
    state as it is. *)
Lemma change_directory_cases (st : ShellState) (fs : FS) (path : path_arg) :
  match change_directory st fs path with
  | Ok (st', true) =>
      base st' = base st /\ is_dir fs (cwd st') = true
      /\ ((is_here path = true /\ cwd st' = cwd st)
          \/ (normalized fs (cwd st') /\ base st `prefix_of` cwd st'))
  | Ok (st', false) => st' = st
  | Raise e => forall msg, e <> ValueError msg
  end.
Proof.
  unfold change_directory.
  pose proof (resolve_in_cwd_cases st fs path) as H.
  destruct (resolve_in_cwd st fs path) as [p|e].
  - destruct (is_dir fs p) eqn:Hdir; simpl; [|done].
    split; [done|]. split; [done|].
    destruct H as [[? ->]|(? & H & ?)]; [by left|right].
    split; [|done]. by apply resolve_idempotent in H.
  - by destruct e.
Qed.

(** [cd] leaves the file system, and either leaves the shell state as it
    is or moves to a directory of the sandbox, resolved. *)
Lemma cd_cases (w : World) (path : string) :
  w_fs (cd w path) = w_fs w
  /\ base (w_state (cd w path)) = base (w_state w)
  /\ (w_state (cd w path) = w_state w
      \/ (normalized (w_fs w) (cwd (w_state (cd w path)))
          /\ base (w_state w) `prefix_of` cwd (w_state (cd w path))
          /\ is_dir (w_fs w) (cwd (w_state (cd w path))) = true)).
Proof.
  unfold cd.
  destruct (String.eqb path ".." && _); [by auto|].
  destruct (resolve_here w path) as [target|e]; [|by auto].
  destruct (inside w target); [|by auto].
  destruct (is_dir (w_fs w) target); [|by auto]. simpl.
  pose proof (change_directory_cases (w_state w) (w_fs w) (PathObj target)) as H.
  destruct (change_directory (w_state w) (w_fs w) (PathObj target))
    as [[st' []]|e]; simpl; [| |by auto].
  - destruct H as (Hb & Hdir & [[? _]|[? ?]]); [done|]. by auto 10.
  - subst st'. by auto.
Qed.


(** *** The command loop *)

Lemma handle_delete_confirmation_state (sh : Shell) (text : string) :
  w_state (world (handle_delete_confirmation sh text).2) = w_state (world sh).
Proof.
  unfold handle_delete_confirmation.
  repeat case_match; try reflexivity. simpl. apply delete_state.
Qed.

(** A text that is not taken as an answer is parsed and handled. *)
Lemma process_command_handled (sys : System) (sh : Shell) (text : string) :
  (handle_delete_confirmation sh text).1 = false ->
  w_state (world (process_command sys sh text))
  = w_state (handle sys (parse text) (world sh)).2.
Proof.
  intros H. unfold process_command.
  destruct (handle_delete_confirmation sh text) as [b sh']. simpl in H.
  subst b.
  destruct (handle sys (parse text) (world sh)) as [r w'].
  by destruct r as [[]|], (parse text).
Qed.

Lemma process_command_answered (sys : System) (sh : Shell) (text : string) :
  (handle_delete_confirmation sh text).1 = true ->
  process_command sys sh text = (handle_delete_confirmation sh text).2.
Proof.
  intros H. unfold process_command.
  destruct (handle_delete_confirmation sh text) as [b sh']. simpl in H.
  by subst b.
Qed.


Lemma run_shell_invariant (P : Shell -> Prop) (sys : System) :
  (forall sh text, P sh -> P (process_command sys sh text)) ->
  forall texts sh, P sh -> P (run_shell sys sh texts).
Proof.
  intros Hstep texts. induction texts as [|text texts IH]; intros sh HP.
  - done.
  - simpl. destruct (running sh); [|done]. apply IH.
    destruct (String.eqb text ""); [done|]. by apply Hstep.
Qed.




(** *** The confirmation of a delete *)

Lemma affirmative_spec (text : string) :
  affirmative text = true
  <-> strip (lower text) = "yes" \/ strip (lower text) = "y".
Proof.
  unfold affirmative.
  rewrite bool_decide_eq_true, !elem_of_cons, elem_of_nil. tauto.
Qed.

(** The machine waits for an answer exactly when a payload is pending,
    in every state that the command loop reaches. *)
Lemma process_command_consistent (sys : System) (sh : Shell) (text : string) :
  consistent sh -> consistent (process_command sys sh text).
Proof.
  intros H. unfold process_command, handle_delete_confirmation.
  destruct H as [[Hs Hn]|[Hs [[kind name] Hp]]].
  - rewrite Hn.
    destruct (handle sys (parse text) (world sh)) as [[[|k n]|] w'];
      [left|by right|left]; by simpl.
  - rewrite Hp, Hs. simpl. destruct (affirmative text); by left.
Qed.

Lemma run_shell_consistent (sys : System) (fs : FS) (sandbox : Path)
    (texts : list string) :
  consistent (run_shell sys (start fs sandbox) texts).
Proof.
  apply run_shell_invariant; [apply process_command_consistent|by left].
Qed.

(** C3. While the machine waits for the answer to a delete, the next text
    is taken as the answer and is not parsed: the machine is back in READY
    with nothing pending; exactly the texts that are [yes] or [y] once
    lowered and stripped run [delete] on the pending target; any other
    text cancels and leaves the file system, the shell state and the
    started processes as they were. *)
Theorem confirmation_consumes_next_utterance (sys : System) (sh : Shell)
    (text kind name : string) :
  state sh = AWAIT_CONFIRM_DELETE ->
  pending_payload sh = Some (kind, name) ->
  let sh' := process_command sys sh text in
  sh' = (handle_delete_confirmation sh text).2
  /\ state sh' = READY /\ pending_payload sh' = None
  /\ running sh' = running sh
  /\ (affirmative text = true
      <-> strip (lower text) = "yes" \/ strip (lower text) = "y")
  /\ (affirmative text = true ->
      let outcome := "Successfully deleted " +:+ kind +:+ " '" +:+ name +:+ "'" in
      world sh' = log_event text "DELETE_CONFIRM" outcome
                    (print outcome (delete (world sh) kind name)))
  /\ (affirmative text = false ->
      let outcome := "Delete " +:+ kind +:+ " '" +:+ name +:+ "' cancelled." in
      world sh' = log_event text "DELETE_CANCEL" outcome
                    (print outcome (world sh))
      /\ w_fs (world sh') = w_fs (world sh)
      /\ w_state (world sh') = w_state (world sh)
      /\ w_procs (world sh') = w_procs (world sh)).
Proof.
  intros Hs Hp sh'.
  assert ((handle_delete_confirmation sh text).1 = true) as Hc.
  { unfold handle_delete_confirmation. rewrite Hp, Hs.
    by destruct (affirmative text). }
  subst sh'. rewrite process_command_answered by done.
  split; [done|]. split; [|split; [|split; [|split; [|split]]]].
  4: apply affirmative_spec.
  all: unfold handle_delete_confirmation; rewrite Hp, Hs; simpl.
  1-3: by destruct (affirmative text).
  all: by intros ->.
Qed.

Lemma confirmation_consumes_next_utterance_witness :
  let fs : FS :=
    list_to_map [(["sb"], Dir); (["sb"; "a.txt"], File "A")] in
  let sh := process_command Linux (start fs ["sb"]) "delete file a.txt" in
  state (process_command Linux sh " YES ") = READY
  /\ w_fs (world (process_command Linux sh "delete it")) = w_fs (world sh).
Proof.
  intros fs sh.
  assert (state sh = AWAIT_CONFIRM_DELETE) as Hs by (by vm_compute).
  assert (pending_payload sh = Some ("file", "a.txt")) as Hp
    by (by vm_compute).
  split.
  - exact (proj1 (proj2
      (confirmation_consumes_next_utterance Linux sh " YES " _ _ Hs Hp))).
  - destruct (confirmation_consumes_next_utterance Linux sh "delete it" _ _
                Hs Hp) as (_ & _ & _ & _ & _ & _ & Hno).
    apply Hno. by vm_compute.
Defined.

End MainClaims.

(** ** The executor on resolved paths *)
Module ExecutorFacts.
Import Text Fs State Executor Notions TextFacts FsFacts StateClaims.
Import ExecutorClaims.

(** What [resolve_in_cwd] returns from a resolved current directory of
    the sandbox is resolved, lies in the sandbox and passes
    [inside_sandbox]. *)
Lemma resolve_here_ok (w : World) (rel : string) (p : Path) :
  normalized (w_fs w) (cwd (w_state w)) -> confined (w_state w) ->
  resolve_here w rel = Ok p ->
  normalized (w_fs w) p /\ base (w_state w) `prefix_of` p
  /\ inside w p = true.
Proof.
  intros Hn Hc H. unfold resolve_here in H.
  pose proof (resolve_in_cwd_cases (w_state w) (w_fs w) (Str rel)) as Hcases.
  rewrite H in Hcases.
  assert (normalized (w_fs w) p /\ base (w_state w) `prefix_of` p) as [Hp Hb].
  { destruct Hcases as [[_ ->]|(_ & Hres & Hb)]; [done|].
    split; [by eapply resolve_idempotent | done]. }
  split; [done|]. split; [done|].
  unfold inside. rewrite inside_sandbox_spec. by exists p.
Qed.

Lemma is_dir_normalized (fs : FS) (p : Path) :
  normalized fs p -> is_dir fs p = true <-> lookup_node fs p = Some Dir.
Proof.
  intros H. unfold is_dir. rewrite stat_normalized by done.
  by destruct (lookup_node fs p) as [[]|].
Qed.

Lemma is_file_normalized (fs : FS) (p : Path) :
  normalized fs p ->
  is_file fs p = true <-> exists content, lookup_node fs p = Some (File content).
Proof.
  intros H. unfold is_file. rewrite stat_normalized by done.
  destruct (lookup_node fs p) as [[content| |target]|]; split; try done;
    try (by intros [? [=]]). by exists content.
Qed.

Lemma exists_normalized (fs : FS) (p : Path) :
  normalized fs p -> exists_ fs p = true <-> is_Some (lookup_node fs p).
Proof.
  intros H. unfold exists_. rewrite stat_normalized by done.
  destruct (lookup_node fs p); split; (done || by intros []).
Qed.

(** *** The system calls, read backwards from a success *)

Lemma sys_mkdir_Ok (fs fs' : FS) (p : Path) :
  sys_mkdir fs p = Ok fs' ->
  lookup_node fs p = None /\ stat fs (parent p) = Some Dir
  /\ fs' = <[p := Dir]> fs.
Proof.
  unfold sys_mkdir, check_parent, bind. case_bool_decide as Hex; [done|].
  destruct (stat fs (parent p)) as [[]|]; try done. intros [= <-].
  split; [|done]. by apply eq_None_not_Some.
Qed.

Lemma sys_touch_Ok (exist_ok : bool) (fs fs' : FS) (p : Path) :
  sys_touch exist_ok fs p = Ok fs' ->
  (exist_ok = true /\ is_Some (stat fs p) /\ fs' = fs)
  \/ (stat fs p = None /\ stat fs (parent p) = Some Dir
      /\ fs' = <[p := File ""]> fs).
Proof.
  unfold sys_touch, check_parent, bind.
  destruct (stat fs p) as [n|].
  - destruct exist_ok; [|done]. intros [= <-]. left. eauto.
  - destruct (stat fs (parent p)) as [[]|]; try done. intros [= <-]. by right.
Qed.

Lemma sys_write_Ok (fs fs' : FS) (p : Path) (text : string) :
  sys_write fs p text = Ok fs' ->
  exists q, resolve fs p = Some q /\ fs' = <[q := File text]> fs
            /\ (lookup_node fs q = None
                \/ exists old, lookup_node fs q = Some (File old)).
Proof.
  unfold sys_write, check_parent, bind.
  destruct (resolve fs p) as [q|]; [|done].
  destruct (lookup_node fs q) as [[old| |]|] eqn:E; try done.
  - intros [= <-]. exists q. eauto.
  - destruct (stat fs (parent q)) as [[]|]; try done. intros [= <-].
    exists q. eauto.
Qed.

Lemma sys_unlink_Ok (fs fs' : FS) (p : Path) :
  sys_unlink fs p = Ok fs' ->
  fs' = base.delete p fs /\ is_Some (lookup_node fs p)
  /\ lookup_node fs p <> Some Dir.
Proof.
  unfold sys_unlink. destruct (lookup_node fs p) as [[]|]; try done;
    intros [= <-]; eauto.
Qed.

Lemma sys_rmtree_Ok (fs fs' : FS) (p : Path) :
  sys_rmtree fs p = Ok fs' ->
  fs' = remove_tree fs p /\ lookup_node fs p = Some Dir.
Proof.
  unfold sys_rmtree. destruct (lookup_node fs p) as [[]|]; try done.
  by intros [= <-].
Qed.

Lemma sys_rename_Ok (fs fs' : FS) (src dst : Path) :
  sys_rename fs src dst = Ok fs' ->
  fs' = rerooted fs src dst ∪ remove_tree fs src
  /\ is_Some (lookup_node fs src) /\ stat fs (parent dst) = Some Dir.
Proof.
  unfold sys_rename, check_parent, bind.
  destruct (lookup_node fs src); [|done].
  destruct (stat fs (parent dst)) as [[]|]; try done. intros [= <-]. eauto.
Qed.

Lemma sys_copytree_Ok (fs fs' : FS) (src dst : Path) :
  sys_copytree fs src dst = Ok fs' ->
  fs' = rerooted fs src dst ∪ fs /\ exists_ fs dst = false
  /\ stat fs (parent dst) = Some Dir.
Proof.
  unfold sys_copytree, check_parent, bind.
  destruct (exists_ fs dst); [done|].
  destruct (stat fs (parent dst)) as [[]|]; try done. by intros [= <-].
Qed.

Lemma sys_copy2_Ok (fs fs' : FS) (src dst : Path) :
  sys_copy2 fs src dst = Ok fs' ->
  exists content q,
    stat fs src = Some (File content)
    /\ resolve fs (if is_dir fs dst then dst ++ [name src] else dst) = Some q
    /\ fs' = <[q := File content]> fs.
Proof.
  unfold sys_copy2, sys_read, bind. cbv zeta.
  case_bool_decide; [done|].
  destruct (stat fs src) as [[content| |]|]; try done.
  intros (q & ? & ? & _)%sys_write_Ok. eauto.
Qed.

(** *** Moved and copied subtrees *)

Lemma map_fmap {A B : Type} (f : A -> B) (l : list A) : map f l = f <$> l.
Proof. induction l as [|a l IH]; simpl; [done | by rewrite IH]. Qed.

Lemma rerooted_lookup_Some (fs : FS) (src dst p : Path) (n : node) :
  rerooted fs src dst !! p = Some n ->
  exists r, p = dst ++ r /\ fs !! (src ++ r) = Some n.
Proof.
  unfold rerooted. rewrite map_fmap. intros H%elem_of_list_to_map_2.
  apply list_elem_of_fmap in H as ([q m] & [= -> ->] & Hq).
  apply elem_of_map_to_list in Hq. unfold subtree in Hq.
  apply map_lookup_filter_Some in Hq as [Hq Hpre]. simpl in *.
  destruct Hpre as [r ->]. exists r. by rewrite drop_app_length.
Qed.

Lemma rerooted_lookup (fs : FS) (src dst r : Path) :
  rerooted fs src dst !! (dst ++ r) = fs !! (src ++ r).
Proof.
  destruct (fs !! (src ++ r)) as [n|] eqn:E.
  - unfold rerooted. rewrite map_fmap. apply elem_of_list_to_map_1.
    + rewrite <- list_fmap_compose.
      apply NoDup_fmap_2_strong; [|apply NoDup_map_to_list].
      intros [q1 n1] [q2 n2] H1 H2 Heq. simpl in Heq.
      apply elem_of_map_to_list in H1, H2. unfold subtree in H1, H2.
      apply map_lookup_filter_Some in H1 as [H1 Hp1].
      apply map_lookup_filter_Some in H2 as [H2 Hp2]. simpl in *.
      destruct Hp1 as [r1 ->]. destruct Hp2 as [r2 ->].
      rewrite !drop_app_length in Heq. apply app_inv_head in Heq as ->.
      congruence.
    + apply list_elem_of_fmap. exists (src ++ r, n). simpl.
      rewrite drop_app_length. split; [done|].
      apply elem_of_map_to_list. unfold subtree.
      apply map_lookup_filter_Some. split; [done|]. by exists r.
  - destruct (rerooted fs src dst !! (dst ++ r)) as [n|] eqn:E'; [|done].
    apply rerooted_lookup_Some in E' as (r' & ->%app_inv_head & E').
    congruence.
Qed.

Lemma rerooted_lookup_None (fs : FS) (src dst p : Path) :
  ~ dst `prefix_of` p -> rerooted fs src dst !! p = None.
Proof.
  intros H. destruct (rerooted fs src dst !! p) as [n|] eqn:E; [|done].
  apply rerooted_lookup_Some in E as (r & -> & _). destruct H. by exists r.
Qed.

Lemma remove_tree_lookup (fs : FS) (src p : Path) :
  remove_tree fs src !! p = if decide (src `prefix_of` p) then None else fs !! p.
Proof.
  unfold remove_tree. destruct (decide (src `prefix_of` p)) as [H|H].
  - apply map_lookup_filter_None. right. intros n _ Hn. by destruct Hn.
  - destruct (fs !! p) as [n|] eqn:E.
    + by apply map_lookup_filter_Some.
    + apply map_lookup_filter_None. by left.
Qed.

(** *** What each operation can do to the file system *)

Lemma mkdir_cases (w : World) (name_ : string) :
  w_fs (mkdir w name_) = w_fs w
  \/ exists t, resolve_here w name_ = Ok t /\ inside w t = true
               /\ lookup_node (w_fs w) t = None
               /\ stat (w_fs w) (parent t) = Some Dir
               /\ mkdir w name_
                  = print ("Created directory: " +:+ name_)
                      (set_fs (<[t := Dir]> (w_fs w)) w).
Proof.
  unfold mkdir. destruct (resolve_here w name_) as [t|e]; [|by left].
  destruct (inside w t) eqn:Hin; [|by left]. simpl.
  destruct (sys_mkdir (w_fs w) t) as [fs'|e] eqn:E; [|left; by destruct e].
  apply sys_mkdir_Ok in E as (? & ? & ->). right. by exists t.
Qed.

Lemma mkfile_cases (w : World) (name_ : string) :
  w_fs (mkfile w name_) = w_fs w
  \/ exists t, resolve_here w name_ = Ok t /\ inside w t = true
               /\ stat (w_fs w) t = None
               /\ stat (w_fs w) (parent t) = Some Dir
               /\ mkfile w name_
                  = print ("Created file: " +:+ name_)
                      (set_fs (<[t := File ""]> (w_fs w)) w).
Proof.
  unfold mkfile. destruct (resolve_here w name_) as [t|e]; [|by left].
  destruct (inside w t) eqn:Hin; [|by left]. simpl.
  destruct (sys_touch false (w_fs w) t) as [fs'|e] eqn:E;
    [|left; by destruct e].
  apply sys_touch_Ok in E as [([=] & _)|(? & ? & ->)]. right. by exists t.
Qed.

Lemma touch_file_cases (w : World) (name_ : string) :
  w_fs (touch_file w name_).2 = w_fs w
  \/ exists t, resolve_here w name_ = Ok t /\ inside w t = true
               /\ stat (w_fs w) t = None
               /\ stat (w_fs w) (parent t) = Some Dir
               /\ touch_file w name_
                  = ("Touched '" +:+ name t +:+ "'",
                     set_fs (<[t := File ""]> (w_fs w)) w).
Proof.
  unfold touch_file. destruct (resolve_here w name_) as [t|e]; [|by left].
  destruct (inside w t) eqn:Hin; [|by left]. simpl.
  destruct (sys_touch true (w_fs w) t) as [fs'|e] eqn:E; [|by left].
  apply sys_touch_Ok in E as [(_ & _ & ->)|(? & ? & ->)]; [by left|].
  right. by exists t.
Qed.

Lemma delete_cases (w : World) (kind name_ : string) :
  w_fs (delete w kind name_) = w_fs w
  \/ exists t,
       resolve_here w name_ = Ok t /\ inside w t = true
       /\ ((kind = "folder" /\ is_dir (w_fs w) t = true
            /\ lookup_node (w_fs w) t = Some Dir
            /\ delete w kind name_
               = print ("Deleted directory: " +:+ name_)
                   (set_fs (remove_tree (w_fs w) t) w))
           \/ (kind <> "folder" /\ is_file (w_fs w) t = true
               /\ is_Some (lookup_node (w_fs w) t)
               /\ lookup_node (w_fs w) t <> Some Dir
               /\ delete w kind name_
                  = print ("Deleted file: " +:+ name_)
                      (set_fs (base.delete t (w_fs w)) w))).
Proof.
  unfold delete. destruct (resolve_here w name_) as [t|e]; [|by left].
  destruct (inside w t) eqn:Hin; [|by left]. simpl.
  destruct (String.eqb_spec kind "folder") as [->|Hk].
  - destruct (is_dir (w_fs w) t) eqn:Hd; [|by left]. simpl.
    destruct (sys_rmtree (w_fs w) t) as [fs'|e] eqn:E; [|by left].
    apply sys_rmtree_Ok in E as [-> ?]. right. exists t. by auto 10.
  - destruct (is_file (w_fs w) t) eqn:Hf; [|by left]. simpl.
    destruct (sys_unlink (w_fs w) t) as [fs'|e] eqn:E; [|by left].
    apply sys_unlink_Ok in E as (-> & ? & ?). right. exists t.
    split; [done|]. split; [done|]. right. by auto 10.
Qed.

Lemma append_file_cases (w : World) (name_ text : string) :
  w_fs (append_file w name_ text).2 = w_fs w
  \/ exists t q old,
       resolve_here w name_ = Ok t /\ inside w t = true
       /\ resolve (w_fs w) t = Some q
       /\ match lookup_node (w_fs w) q with
          | Some (File content) => old = content
          | Some _ => False
          | None => old = ""
          end
       /\ append_file w name_ text
          = ("Appended text to '" +:+ name t +:+ "'",
             set_fs (<[q := File (old +:+ text +:+ String newline "")]>
                       (w_fs w)) w).
Proof.
  unfold append_file. destruct (resolve_here w name_) as [t|e]; [|by left].
  destruct (inside w t) eqn:Hin; [|by left]. simpl.
  destruct (sys_append (w_fs w) t _) as [fs'|e] eqn:E; [|by left].
  right. unfold sys_append, stat in E.
  destruct (resolve (w_fs w) t) as [q|] eqn:Hq;
    [|apply sys_write_Ok in E as (? & ? & _); congruence].
  destruct (lookup_node (w_fs w) q) as [[old| |]|] eqn:Hl.
  - apply sys_write_Ok in E as (q' & Hq' & -> & _).
    assert (q' = q) as -> by congruence.
    exists t, q, old. by rewrite Hl.
  - apply sys_write_Ok in E as (q' & Hq' & -> & Hnode).
    assert (q' = q) as -> by congruence.
    rewrite Hl in Hnode. by destruct Hnode as [?|[? ?]].
  - apply sys_write_Ok in E as (q' & Hq' & -> & Hnode).
    assert (q' = q) as -> by congruence.
    rewrite Hl in Hnode. by destruct Hnode as [?|[? ?]].
  - apply sys_write_Ok in E as (q' & Hq' & -> & _).
    assert (q' = q) as -> by congruence.
    exists t, q, "". by rewrite Hl.
Qed.

Lemma move_item_cases (w : World) (src_name dst_name : string) :
  w_fs (move_item w src_name dst_name).2 = w_fs w
  \/ exists src dst0 dst,
       resolve_here w src_name = Ok src /\ resolve_here w dst_name = Ok dst0
       /\ dst = (if exists_ (w_fs w) dst0 && is_dir (w_fs w) dst0
                 then dst0 ++ [name src] else dst0)
       /\ inside w src = true /\ inside w dst = true
       /\ exists_ (w_fs w) src = true /\ exists_ (w_fs w) dst = false
       /\ stat (w_fs w) (parent dst) = Some Dir
       /\ move_item w src_name dst_name
          = ("Moved '" +:+ name src +:+ "' to '" +:+ name dst +:+ "'",
             set_fs (rerooted (w_fs w) src dst ∪ remove_tree (w_fs w) src) w).
Proof.
  unfold move_item.
  destruct (resolve_here w src_name) as [src|e]; [|by left].
  destruct (resolve_here w dst_name) as [dst0|e]; [|by left]. cbv zeta.
  set (dst := if exists_ (w_fs w) dst0 && is_dir (w_fs w) dst0
              then dst0 ++ [name src] else dst0).
  destruct (inside w src) eqn:Hs; [|by left].
  destruct (inside w dst) eqn:Hd; [|by left]. simpl.
  destruct (exists_ (w_fs w) src) eqn:Hes; [|by left]. simpl.
  destruct (exists_ (w_fs w) dst) eqn:Hed; [by left|].
  destruct (sys_rename (w_fs w) src dst) as [fs'|e] eqn:E; [|by left].
  apply sys_rename_Ok in E as (-> & _ & ?). right.
  exists src, dst0, dst. by auto 10.
Qed.

Lemma rename_item_cases (w : World) (old new : string) :
  w_fs (rename_item w old new).2 = w_fs w
  \/ exists src dst,
       resolve_here w old = Ok src /\ dst = join (parent src) new
       /\ inside w src = true /\ inside w dst = true
       /\ exists_ (w_fs w) src = true /\ exists_ (w_fs w) dst = false
       /\ stat (w_fs w) (parent dst) = Some Dir
       /\ w_fs (rename_item w old new).2
          = rerooted (w_fs w) src dst ∪ remove_tree (w_fs w) src.
Proof.
  unfold rename_item.
  destruct (resolve_here w old) as [src|e]; [|by left].
  destruct (inside w src) eqn:Hs; [|by left]. simpl.
  destruct (exists_ (w_fs w) src) eqn:Hes; [|by left]. simpl.
  set (dst := join (parent src) new).
  destruct (inside w dst) eqn:Hd; [|by left]. simpl.
  destruct (exists_ (w_fs w) dst) eqn:Hed; [by left|].
  destruct (sys_rename (w_fs w) src dst) as [fs'|e] eqn:E; [|by left].
  apply sys_rename_Ok in E as (-> & _ & ?). right.
  exists src, dst. by auto 10.
Qed.

Lemma copy_item_cases (w : World) (src_name dst_name : string) :
  w_fs (copy_item w src_name dst_name).2 = w_fs w
  \/ exists src dst0 dst,
       resolve_here w src_name = Ok src /\ resolve_here w dst_name = Ok dst0
       /\ dst = (if exists_ (w_fs w) dst0 && is_dir (w_fs w) dst0
                 then dst0 ++ [name src] else dst0)
       /\ inside w src = true /\ inside w dst = true
       /\ ((is_dir (w_fs w) src = true /\ exists_ (w_fs w) dst = false
            /\ stat (w_fs w) (parent dst) = Some Dir
            /\ copy_item w src_name dst_name
               = ("Copied folder '" +:+ name src +:+ "' to '" +:+ name dst
                  +:+ "'",
                  set_fs (rerooted (w_fs w) src dst ∪ w_fs w) w))
           \/ (exists content dst1 dst2 q,
                 stat (w_fs w) src = Some (File content)
                 /\ dst1 = (if is_dir (w_fs w) dst then dst ++ [name src]
                            else dst)
                 /\ dst2 = (if is_dir (w_fs w) dst1 then dst1 ++ [name src]
                            else dst1)
                 /\ resolve (w_fs w) dst2 = Some q
                 /\ copy_item w src_name dst_name
                    = ("Copied file '" +:+ name src +:+ "' to '" +:+ name dst1
                       +:+ "'",
                       set_fs (<[q := File content]> (w_fs w)) w))).
Proof.
  unfold copy_item.
  destruct (resolve_here w src_name) as [src|e]; [|by left].
  destruct (resolve_here w dst_name) as [dst0|e]; [|by left]. cbv zeta.
  set (dst := if exists_ (w_fs w) dst0 && is_dir (w_fs w) dst0
              then dst0 ++ [name src] else dst0).
  destruct (inside w src) eqn:Hs; [|by left].
  destruct (inside w dst) eqn:Hd; [|by left]. simpl.
  destruct (exists_ (w_fs w) src) eqn:Hes; [|by left]. simpl.
  destruct (is_dir (w_fs w) src) eqn:Hds.
  - destruct (exists_ (w_fs w) dst) eqn:Hed; [by left|].
    destruct (sys_copytree (w_fs w) src dst) as [fs'|e] eqn:E; [|by left].
    apply sys_copytree_Ok in E as (-> & _ & ?). right.
    exists src, dst0, dst. by auto 10.
  - set (dst1 := if is_dir (w_fs w) dst then dst ++ [name src] else dst).
    destruct (sys_copy2 (w_fs w) src dst1) as [fs'|e] eqn:E; [|by left].
    apply sys_copy2_Ok in E as (content & q & ? & ? & ->). right.
    exists src, dst0, dst. do 5 (split; [done|]). right.
    exists content, dst1, (if is_dir (w_fs w) dst1 then dst1 ++ [name src]
                           else dst1), q.
    by auto 10.
Qed.

(** *** Entries that do not change how paths resolve *)

Lemma walk_same_links (fs fs' : FS) (acc : Path) (comps : list string) :
  (forall p, is_link (fs' !! p) = false /\ is_link (fs !! p) = false
             \/ fs' !! p = fs !! p) ->
  walk fs' acc comps = walk fs acc comps.
Proof.
  intros H. revert acc. induction comps as [|c rest IH]; intros acc; [done|].
  simpl. rewrite !IH. pose proof (H (acc ++ [c])) as Hc.
  unfold FS, Path in *. destruct Hc as [[H1 H2]| ->]; [|done].
  destruct (fs' !! (acc ++ [c])) as [[]|], (fs !! (acc ++ [c])) as [[]|];
    done.
Qed.

Lemma resolve_same_links (fs fs' : FS) (p : Path) :
  (forall p, is_link (fs' !! p) = false /\ is_link (fs !! p) = false
             \/ fs' !! p = fs !! p) ->
  resolve fs' p = resolve fs p.
Proof.
  intros H. unfold resolve. generalize MAXSYMLINKS (@nil string) p.
  intros fuel. induction fuel as [|f IH]; intros acc comps; simpl;
    rewrite (walk_same_links fs fs') by done; [done|].
  destruct (walk fs acc comps); [done | apply IH].
Qed.

Lemma resolve_insert (fs : FS) (t p : Path) (n : node) :
  is_link (Some n) = false -> is_link (fs !! t) = false ->
  resolve (<[t := n]> fs) p = resolve fs p.
Proof.
  intros Hn Ht. apply resolve_same_links. intros q. unfold FS, Path in *.
  destruct (decide (q = t)) as [->|Hq].
  - left. by rewrite lookup_insert_eq.
  - right. by rewrite lookup_insert_ne.
Qed.

(** An entry that is not there has nothing below it, in a tree. *)
Lemma tree_free (fs : FS) (t : Path) :
  tree_shaped fs -> lookup_node fs t = None -> free_at fs t.
Proof.
  intros Htree Ht q [r ->]. induction r as [|c r IH] using rev_ind.
  - rewrite app_nil_r. by destruct t.
  - destruct (fs !! (t ++ r ++ [c])) as [n|] eqn:E; [|done].
    rewrite app_assoc in E.
    pose proof (Htree (t ++ r) c ltac:(by rewrite E)) as Hd.
    assert (t ++ r <> []) as Hne by (destruct t; [done | discriminate]).
    destruct (t ++ r) as [|x l] eqn:El; [done|]. simpl in Hd.
    pose proof (eq_trans (eq_sym IH) Hd). discriminate.
Qed.

(** *** File systems in which every path resolves the same way *)

Lemma resolve_in_cwd_same (st : ShellState) (fs fs' : FS) (rel : path_arg) :
  (forall p, resolve fs' p = resolve fs p) ->
  resolve_in_cwd st fs' rel = resolve_in_cwd st fs rel.
Proof.
  intros H. unfold resolve_in_cwd, inside_sandbox. rewrite H.
  destruct (resolve fs (under_cwd st rel)) as [t|]; [|done]. by rewrite H.
Qed.

Lemma inside_sandbox_same (st : ShellState) (fs fs' : FS) (p : Path) :
  (forall p, resolve fs' p = resolve fs p) ->
  inside_sandbox st fs' p = inside_sandbox st fs p.
Proof. intros H. unfold inside_sandbox. by rewrite H. Qed.

Lemma remove_tree_insert_free (fs : FS) (t : Path) (n : node) :
  free_at fs t -> remove_tree (<[t := n]> fs) t = fs.
Proof.
  intros Hfree. apply map_eq. intros p. rewrite remove_tree_lookup.
  unfold FS, Path in *. destruct (decide (t `prefix_of` p)) as [H|H].
  - symmetry. by apply Hfree.
  - rewrite lookup_insert_ne; [done|]. by intros ->.
Qed.

Lemma tree_shaped_check (fs : FS) : tree_check fs = true -> tree_shaped fs.
Proof.
  unfold tree_check. rewrite forallb_forall. intros H p c [n Hn].
  specialize (H (p ++ [c], n)). simpl in H. unfold parent in H.
  rewrite removelast_last in H.
  assert (In (p ++ [c], n) (map_to_list fs)) as Hin
    by (by apply list_elem_of_In, elem_of_map_to_list).
  specialize (H Hin). destruct (p ++ [c]) eqn:E; [by destruct p|].
  by destruct (lookup_node fs p) as [[]|].
Qed.

(** *** Resolving a real path followed by more components *)

Lemma walk_real_app (fs : FS) (acc comps rest : Path) :
  real fs (acc ++ comps) ->
  walk fs acc (comps ++ rest) = walk fs (acc ++ comps) rest.
Proof.
  revert acc. induction comps as [|c comps IH]; intros acc H; simpl.
  - by rewrite app_nil_r.
  - replace (acc ++ c :: comps) with ((acc ++ [c]) ++ comps) in *
      by (by rewrite <- app_assoc).
    pose proof (real_prefix _ _ _ H) as (_ & (H1 & H2 & H3) & Hl)%real_inv_snoc.
    rewrite bool_decide_eq_false_2 by (by intros [?|?]).
    rewrite bool_decide_eq_false_2 by done.
    destruct (fs !! (acc ++ [c])) as [[content| |target]|] eqn:E;
      try (by apply IH).
    by destruct (Hl target).
Qed.

Lemma resolve_real_app (fs : FS) (p rest : Path) :
  real fs p ->
  resolve fs (p ++ rest) = resolve_from fs MAXSYMLINKS p rest.
Proof.
  intros H. unfold resolve, MAXSYMLINKS. simpl.
  by rewrite (walk_real_app fs [] p rest H).
Qed.

Lemma resolve_parent (fs : FS) (p : Path) :
  real fs p -> resolve fs (p ++ [".."]) = Some (parent p).
Proof. intros H. by rewrite resolve_real_app. Qed.

Lemma resolve_child (fs : FS) (p : Path) (c : string) :
  real fs p -> plain c -> not_link fs (p ++ [c]) ->
  resolve fs (p ++ [c]) = Some (p ++ [c]).
Proof. intros. apply resolve_of_real. by constructor. Qed.

(** *** Names without a separator *)

Lemma split_slash_plain (cur s : string) :
  has_char "/" s = false -> split_slash cur s = [cur +:+ s].
Proof.
  revert cur. induction s as [|a s IH]; intros cur; simpl.
  - by rewrite append_nil_r.
  - intros [Ha Hs]%orb_false_iff. rewrite Ha, IH by done.
    by rewrite append_assoc.
Qed.

Lemma parts_plain (s : string) :
  has_char "/" s = false ->
  parts s = if bool_decide (s <> "" /\ s <> ".") then [s] else [].
Proof.
  intros H. unfold parts. rewrite split_slash_plain by done.
  rewrite append_nil_l. simpl. unfold filter, list_filter.
  by repeat case_decide; repeat case_bool_decide.
Qed.

Lemma join_plain (base : Path) (s : string) :
  has_char "/" s = false ->
  join base s = if bool_decide (s <> "" /\ s <> ".") then base ++ [s]
                else base.
Proof.
  intros H. unfold join, is_absolute, startswith.
  assert (strip_prefix "/" s = None) as ->.
  { destruct s as [|a s]; [done|]. cbn [has_char] in H.
    apply orb_false_iff in H as [Ha _].
    change (strip_prefix "/" (String a s))
      with (if Ascii.eqb "/" a then strip_prefix "" s else None).
    by rewrite Ascii.eqb_sym, Ha. }
  rewrite parts_plain by done. case_bool_decide; [done|].
  by rewrite app_nil_r.
Qed.

End ExecutorFacts.

(** ** The operations of the executor on the file system *)
Module ExecutorProps.
Import Text Fs State Executor Notions TextFacts FsFacts StateClaims.
Import ExecutorClaims ExecutorFacts.

Lemma kept_insert (fs : FS) (t : Path) (n : node) :
  fs !! t = None -> kept fs (<[t := n]> fs).
Proof.
  intros Ht p m Hp. unfold FS, Path in *.
  rewrite lookup_insert_ne; [done|]. intros ->. congruence.
Qed.

Lemma kept_refl (fs : FS) : kept fs fs.
Proof. by intros p n. Qed.

Lemma lookup_node_None (fs : FS) (t : Path) :
  lookup_node fs t = None -> fs !! t = None.
Proof. by destruct t. Qed.

(** [mkdir], [mkfile] and [touch_file] create at most one entry and never
    replace or remove one: every entry that was there is still there,
    unchanged. *)
Theorem creating_keeps_entries (w : World) (name_ : string) :
  normalized (w_fs w) (cwd (w_state w)) -> confined (w_state w) ->
  kept (w_fs w) (w_fs (mkdir w name_))
  /\ kept (w_fs w) (w_fs (mkfile w name_))
  /\ kept (w_fs w) (w_fs (touch_file w name_).2).
Proof.
  intros Hn Hc. split; [|split].
  - destruct (mkdir_cases w name_) as [->|(t & _ & _ & Ht & _ & ->)];
      [apply kept_refl|].
    by apply kept_insert, lookup_node_None.
  - destruct (mkfile_cases w name_) as [->|(t & Hr & _ & Ht & _ & ->)];
      [apply kept_refl|].
    apply (resolve_here_ok w _ _ Hn Hc) in Hr as (Hnt & _ & _).
    rewrite stat_normalized in Ht by done.
    by apply kept_insert, lookup_node_None.
  - destruct (touch_file_cases w name_) as [->|(t & Hr & _ & Ht & _ & ->)];
      [apply kept_refl|].
    apply (resolve_here_ok w _ _ Hn Hc) in Hr as (Hnt & _ & _).
    rewrite stat_normalized in Ht by done.
    by apply kept_insert, lookup_node_None.
Qed.

Lemma creating_keeps_entries_witness :
  let fs : FS :=
    list_to_map [(["sb"], Dir); (["sb"; "a.txt"], File "kept")] in
  let w := mkWorld fs (State.init ["sb"]) [] [] [] in
  w_fs (mkfile w "a.txt") !! ["sb"; "a.txt"] = Some (File "kept")
  /\ w_fs (mkdir w "a.txt") !! ["sb"; "a.txt"] = Some (File "kept")
  /\ w_fs (touch_file w "b.txt").2 !! ["sb"; "a.txt"] = Some (File "kept").
Proof.
  intros fs w.
  assert (normalized (w_fs w) (cwd (w_state w))) as Hn by (by vm_compute).
  assert (confined (w_state w)) as Hc by (by exists []).
  destruct (creating_keeps_entries w "a.txt" Hn Hc) as (H1 & H2 & _).
  destruct (creating_keeps_entries w "b.txt" Hn Hc) as (_ & _ & H3).
  split; [|split]; [apply H2 | apply H1 | apply H3]; by vm_compute.
Defined.

(** [append_file] loses nothing: every entry is kept as it is, except the
    file written to, whose new content is the old one followed by the text
    and a line break. *)
Theorem append_loses_nothing (w : World) (name_ text : string) (p : Path)
    (n : node) :
  w_fs w !! p = Some n ->
  w_fs (append_file w name_ text).2 !! p = Some n
  \/ exists old,
       n = File old
       /\ w_fs (append_file w name_ text).2 !! p
          = Some (File (old +:+ text +:+ String newline "")).
Proof.
  intros Hp.
  destruct (append_file_cases w name_ text)
    as [->|(t & q & old & _ & _ & _ & Hold & ->)]; [by left|].
  simpl. unfold FS, Path in *. destruct (decide (p = q)) as [->|Hne].
  - right. rewrite lookup_insert_eq.
    destruct q as [|c q]; simpl in Hold; [done|].
    unfold FS, Path in *. rewrite Hp in Hold. destruct n; try done.
    subst. by eexists.
  - left. by rewrite lookup_insert_ne.
Qed.

Lemma append_loses_nothing_witness :
  let fs : FS :=
    list_to_map [(["sb"], Dir); (["sb"; "a.txt"], File "one");
                 (["sb"; "b.txt"], File "other")] in
  let w := mkWorld fs (State.init ["sb"]) [] [] [] in
  let fs' := w_fs (append_file w "a.txt" "two").2 in
  (fs' !! ["sb"; "b.txt"] = Some (File "other")
   \/ exists old, File "other" = File old
                  /\ fs' !! ["sb"; "b.txt"]
                     = Some (File (old +:+ "two" +:+ String newline "")))
  /\ fs' !! ["sb"; "a.txt"] = Some (File ("onetwo" +:+ String newline "")).
Proof.
  intros fs w fs'. split; [|by vm_compute].
  apply (append_loses_nothing w "a.txt" "two" ["sb"; "b.txt"]).
  by vm_compute.
Defined.

(** [delete] removes the named file and nothing else when the kind is not
    [folder], the named directory with everything below it and nothing
    else when the kind is [folder], and only when the target is of that
    kind; in every other case the file system is left as it is. *)
Theorem delete_removes_only_the_target (w : World) (kind name_ : string) :
  normalized (w_fs w) (cwd (w_state w)) -> confined (w_state w) ->
  let fs' := w_fs (delete w kind name_) in
  fs' = w_fs w
  \/ exists t,
       resolve_here w name_ = Ok t /\ base (w_state w) `prefix_of` t
       /\ ((kind = "folder" /\ lookup_node (w_fs w) t = Some Dir
            /\ forall p, fs' !! p = if decide (t `prefix_of` p) then None
                                    else w_fs w !! p)
           \/ (kind <> "folder"
               /\ (exists content, lookup_node (w_fs w) t = Some (File content))
               /\ forall p, fs' !! p = if decide (p = t) then None
                                       else w_fs w !! p)).
Proof.
  intros Hn Hc fs'. subst fs'.
  destruct (delete_cases w kind name_) as [->|(t & Hr & _ & H)]; [by left|].
  right. exists t.
  destruct (resolve_here_ok w _ _ Hn Hc Hr) as (Hnt & Hb & _).
  split; [done|]. split; [done|].
  destruct H as [(-> & _ & Hd & ->)|(Hk & Hf & _ & _ & ->)].
  - left. split; [done|]. split; [done|]. intros p. simpl.
    apply remove_tree_lookup.
  - right. split; [done|]. split; [by apply is_file_normalized|].
    intros p. simpl. unfold FS, Path in *.
    destruct (decide (p = t)) as [->|Hne].
    + by rewrite lookup_delete_eq.
    + by rewrite lookup_delete_ne.
Qed.

Lemma delete_removes_only_the_target_witness :
  let fs : FS :=
    list_to_map [(["sb"], Dir); (["sb"; "d"], Dir);
                 (["sb"; "d"; "a.txt"], File "A"); (["sb"; "b.txt"], File "B")] in
  let w := mkWorld fs (State.init ["sb"]) [] [] [] in
  (w_fs (delete w "file" "d") = fs)
  /\ w_fs (delete w "folder" "d") !! ["sb"; "d"; "a.txt"] = None
  /\ w_fs (delete w "folder" "d") !! ["sb"; "b.txt"] = Some (File "B").
Proof.
  intros fs w.
  assert (normalized (w_fs w) (cwd (w_state w))) as Hn by (by vm_compute).
  assert (confined (w_state w)) as Hc by (by exists []).
  split; [|split].
  - destruct (delete_removes_only_the_target w "file" "d" Hn Hc)
      as [H|(t & Hr & _ & [(Hk & _)|(_ & [c Hf] & _)])]; [done | done |].
    exfalso. assert (t = ["sb"; "d"]) as -> by (by vm_compute in Hr; injection Hr).
    by vm_compute in Hf.
  - by vm_compute.
  - by vm_compute.
Defined.

(** Deleting what was just created gives the file system back: [mkfile]
    followed by [delete] of kind [file] on the same name, and [mkdir]
    followed by [delete] of kind [folder], leave the file system as it was
    before the creation. *)
Theorem create_then_delete (w : World) (name_ : string) :
  normalized (w_fs w) (cwd (w_state w)) -> confined (w_state w) ->
  tree_shaped (w_fs w) ->
  (w_fs (mkfile w name_) <> w_fs w ->
   w_fs (delete (mkfile w name_) "file" name_) = w_fs w)
  /\ (w_fs (mkdir w name_) <> w_fs w ->
      w_fs (delete (mkdir w name_) "folder" name_) = w_fs w).
Proof.
  intros Hn Hc Htree. split; intros Hnew.
  - destruct (mkfile_cases w name_) as [?|(t & Hr & Hin & Ht & _ & ->)];
      [done|].
    destruct (resolve_here_ok w _ _ Hn Hc Hr) as (Hnt & _ & _).
    rewrite stat_normalized in Ht by done.
    pose proof (lookup_node_None _ _ Ht) as Hfs.
    assert (forall p, resolve (<[t := File ""]> (w_fs w)) p = resolve (w_fs w) p)
      as Hres by (intros p; apply resolve_insert; [done | by rewrite Hfs]).
    unfold delete, resolve_here, inside. simpl.
    unfold resolve_here, inside in Hr, Hin.
    rewrite (resolve_in_cwd_same _ _ _ _ Hres), Hr.
    rewrite (inside_sandbox_same _ _ _ _ Hres), Hin. simpl.
    assert (lookup_node (<[t := File ""]> (w_fs w)) t = Some (File "")) as Hl.
    { destruct t; [done|]. simpl. unfold FS, Path in *.
      by rewrite lookup_insert_eq. }
    unfold is_file, stat. rewrite Hres, Hnt, Hl. simpl.
    unfold sys_unlink. rewrite Hl. simpl. unfold FS, Path in *.
    by rewrite delete_insert_id.
  - destruct (mkdir_cases w name_) as [?|(t & Hr & Hin & Ht & _ & ->)];
      [done|].
    destruct (resolve_here_ok w _ _ Hn Hc Hr) as (Hnt & _ & _).
    pose proof (lookup_node_None _ _ Ht) as Hfs.
    assert (forall p, resolve (<[t := Dir]> (w_fs w)) p = resolve (w_fs w) p)
      as Hres by (intros p; apply resolve_insert; [done | by rewrite Hfs]).
    unfold delete, resolve_here, inside. simpl.
    unfold resolve_here, inside in Hr, Hin.
    rewrite (resolve_in_cwd_same _ _ _ _ Hres), Hr.
    rewrite (inside_sandbox_same _ _ _ _ Hres), Hin. simpl.
    assert (lookup_node (<[t := Dir]> (w_fs w)) t = Some Dir) as Hl.
    { destruct t; [done|]. simpl. unfold FS, Path in *.
      by rewrite lookup_insert_eq. }
    unfold is_dir, stat. rewrite Hres, Hnt, Hl. simpl.
    unfold sys_rmtree. rewrite Hl. simpl.
    apply remove_tree_insert_free. by apply tree_free.
Qed.

Lemma create_then_delete_witness :
  let fs : FS :=
    list_to_map [(["sb"], Dir); (["sb"; "a.txt"], File "A")] in
  let w := mkWorld fs (State.init ["sb"]) [] [] [] in
  w_fs (delete (mkfile w "new.txt") "file" "new.txt") = fs
  /\ w_fs (delete (mkdir w "new") "folder" "new") = fs.
Proof.
  intros fs w.
  assert (normalized (w_fs w) (cwd (w_state w))) as Hn by (by vm_compute).
  assert (confined (w_state w)) as Hc by (by exists []).
  assert (tree_shaped (w_fs w)) as Ht.
  { apply tree_shaped_check. by vm_compute. }
  split.
  - apply (create_then_delete w "new.txt" Hn Hc Ht). intros E.
    apply (f_equal (fun m : FS => m !! ["sb"; "new.txt"])) in E.
    by vm_compute in E.
  - apply (create_then_delete w "new" Hn Hc Ht). intros E.
    apply (f_equal (fun m : FS => m !! ["sb"; "new"])) in E.
    by vm_compute in E.
Defined.

End ExecutorProps.

(** ** Changes that stay in the sandbox *)
Module SandboxFacts.
Import Text Fs State Executor Notions TextFacts FsFacts StateClaims.
Import ExecutorClaims ExecutorFacts.

Lemma safe_step_refl (base : Path) (fs : FS) : safe_step base fs fs.
Proof. by split. Qed.

Lemma safe_step_insert (base : Path) (fs : FS) (t : Path) (n : node) :
  base `prefix_of` t -> is_link (Some n) = false ->
  safe_step base fs (<[t := n]> fs).
Proof.
  intros Hb Hn. split.
  - intros p Hp. unfold FS, Path in *. rewrite lookup_insert_ne; [done|].
    by intros ->.
  - intros Hl p target Hp. unfold FS, Path in *.
    destruct (decide (p = t)) as [->|Hne].
    + rewrite lookup_insert_eq. intros [= ->]. done.
    + rewrite lookup_insert_ne by done. by apply Hl.
Qed.

Lemma safe_step_delete (base : Path) (fs : FS) (t : Path) :
  base `prefix_of` t -> safe_step base fs (base.delete t fs).
Proof.
  intros Hb. split.
  - intros p Hp. unfold FS, Path in *. rewrite lookup_delete_ne; [done|].
    by intros ->.
  - intros Hl p target Hp. unfold FS, Path in *.
    intros [_ H]%lookup_delete_Some. by apply (Hl p target).
Qed.

Lemma safe_step_remove_tree (base : Path) (fs : FS) (t : Path) :
  base `prefix_of` t -> safe_step base fs (remove_tree fs t).
Proof.
  intros Hb. split.
  - intros p Hp. rewrite remove_tree_lookup.
    destruct (decide (t `prefix_of` p)) as [H|H]; [|done].
    destruct Hp. by transitivity t.
  - intros Hl p target Hp. rewrite remove_tree_lookup.
    destruct (decide (t `prefix_of` p)); [done | by apply Hl].
Qed.

Lemma rerooted_no_link (base : Path) (fs : FS) (src dst p : Path)
    (target : string) :
  base `prefix_of` src -> no_links_below base fs ->
  rerooted fs src dst !! p <> Some (Symlink target).
Proof.
  intros Hs Hl (r & -> & H)%rerooted_lookup_Some.
  apply (Hl (src ++ r) target); [|done].
  transitivity src; [done | by exists r].
Qed.

Lemma safe_step_rename (base : Path) (fs : FS) (src dst : Path) :
  base `prefix_of` src -> base `prefix_of` dst ->
  safe_step base fs (rerooted fs src dst ∪ remove_tree fs src).
Proof.
  intros Hs Hd. split.
  - intros p Hp. unfold FS, Path in *. rewrite lookup_union_r.
    + by apply (safe_step_remove_tree base fs src).
    + apply rerooted_lookup_None. intros H. destruct Hp. by transitivity dst.
  - intros Hl p target Hp [H|[_ H]]%lookup_union_Some_raw.
    + by apply (rerooted_no_link base) in H.
    + by apply (safe_step_remove_tree base fs src Hs) in H.
Qed.

Lemma safe_step_copytree (base : Path) (fs : FS) (src dst : Path) :
  base `prefix_of` src -> base `prefix_of` dst ->
  safe_step base fs (rerooted fs src dst ∪ fs).
Proof.
  intros Hs Hd. split.
  - intros p Hp. unfold FS, Path in *. rewrite lookup_union_r; [done|].
    apply rerooted_lookup_None. intros H. destruct Hp. by transitivity dst.
  - intros Hl p target Hp [H|[_ H]]%lookup_union_Some_raw.
    + by apply (rerooted_no_link base) in H.
    + by apply (Hl p target).
Qed.

(** In a sandbox without links, a resolved path of the sandbox stays
    resolved when a plain name is added to it. *)
Lemma normalized_child (base : Path) (fs : FS) (d : Path) (c : string) :
  no_links_below base fs -> normalized fs d -> base `prefix_of` d ->
  plain c ->
  normalized fs (d ++ [c]) /\ base `prefix_of` (d ++ [c]).
Proof.
  intros Hl Hd Hb Hc.
  assert (base `prefix_of` d ++ [c]) as Hb'
    by (transitivity d; [done | by exists [c]]).
  split; [|done]. apply normalized_real. constructor; [|done|].
  - by apply normalized_real.
  - intros target. by apply Hl.
Qed.

Lemma name_plain (fs : FS) (src : Path) :
  normalized fs src -> src <> [] -> plain (name src).
Proof.
  intros Hn%normalized_real Hne.
  destruct src as [|c0 src0] using rev_ind; [done|].
  rewrite name_snoc. by apply real_inv_snoc in Hn as (_ & ? & _).
Qed.

(** A resolved path stays resolved when the file system changes in the
    sandbox only and gets no link there. *)
Lemma normalized_transfer (base : Path) (fs fs' : FS) (p : Path) :
  same_outside base fs fs' -> no_links_below base fs' ->
  normalized fs p -> normalized fs' p.
Proof.
  intros Hsame Hl Hp%normalized_real. apply normalized_real.
  induction Hp as [|p c Hp IH Hc Hnl]; constructor; try done.
  intros target. destruct (decide (base `prefix_of` p ++ [c])) as [H|H].
  - by apply Hl.
  - pose proof (Hsame _ H) as E. unfold FS, Path in *. rewrite E. apply Hnl.
Qed.

(** *** The parent of a path of the sandbox *)

Lemma parent_prefix (p : Path) : parent p `prefix_of` p.
Proof.
  destruct p as [|c p] using rev_ind; [done|].
  unfold parent. rewrite removelast_last. by exists [c].
Qed.

Lemma parent_shorter (p : Path) : p <> [] -> length (parent p) < length p.
Proof.
  destruct p as [|c p] using rev_ind; [done|]. intros _.
  unfold parent. rewrite removelast_last, length_app. simpl. lia.
Qed.

Lemma parent_in_sandbox (base src : Path) :
  base `prefix_of` src -> base `prefix_of` parent src \/ src = base.
Proof.
  intros [r ->]. destruct r as [|c r] using rev_ind.
  - right. by rewrite app_nil_r.
  - left. rewrite app_assoc. unfold parent. rewrite removelast_last.
    by exists r.
Qed.

Lemma not_above (base : Path) :
  base <> [] -> ~ base `prefix_of` parent base.
Proof.
  intros Hne H%prefix_length. pose proof (parent_shorter base Hne). lia.
Qed.

(** *** Each operation of the executor stays in the sandbox *)

Section Steps.
Variable w : World.
Hypothesis Hw : settled w.

#[local] Notation fs := (w_fs w).
#[local] Notation root := (base (w_state w)).

Lemma settled_links : no_links_below root fs.
Proof using Hw.
  destruct Hw as (_ & _ & Hl). intros p target Hp. apply Hl.
  transitivity (base (w_state w)); [apply parent_prefix | done].
Qed.

Lemma resolved (rel : string) (p : Path) :
  resolve_here w rel = Ok p -> normalized fs p /\ root `prefix_of` p.
Proof using Hw.
  destruct Hw as (Hn & Hc & _). intros H.
  by destruct (resolve_here_ok w rel p Hn Hc H) as (? & ? & _).
Qed.

Lemma mkdir_safe (name_ : string) :
  safe_step root fs (w_fs (mkdir w name_)).
Proof using Hw.
  destruct (mkdir_cases w name_) as [->|(t & Hr & _ & _ & _ & ->)];
    [apply safe_step_refl|].
  apply resolved in Hr as [_ ?]. by apply safe_step_insert.
Qed.

Lemma mkfile_safe (name_ : string) :
  safe_step root fs (w_fs (mkfile w name_)).
Proof using Hw.
  destruct (mkfile_cases w name_) as [->|(t & Hr & _ & _ & _ & ->)];
    [apply safe_step_refl|].
  apply resolved in Hr as [_ ?]. by apply safe_step_insert.
Qed.

Lemma touch_file_safe (name_ : string) :
  safe_step root fs (w_fs (touch_file w name_).2).
Proof using Hw.
  destruct (touch_file_cases w name_) as [->|(t & Hr & _ & _ & _ & ->)];
    [apply safe_step_refl|].
  apply resolved in Hr as [_ ?]. by apply safe_step_insert.
Qed.

Lemma delete_safe (kind name_ : string) :
  safe_step root fs (w_fs (delete w kind name_)).
Proof using Hw.
  destruct (delete_cases w kind name_)
    as [->|(t & Hr & _ & [(_ & _ & _ & ->)|(_ & _ & _ & _ & ->)])];
    [apply safe_step_refl| |]; apply resolved in Hr as [_ ?].
  - by apply safe_step_remove_tree.
  - by apply safe_step_delete.
Qed.

Lemma append_file_safe (name_ text : string) :
  safe_step root fs (w_fs (append_file w name_ text).2).
Proof using Hw.
  destruct (append_file_cases w name_ text)
    as [->|(t & q & old & Hr & _ & Hq & _ & ->)]; [apply safe_step_refl|].
  apply resolved in Hr as [Hn ?].
  assert (q = t) as -> by (unfold normalized in Hn; congruence).
  by apply safe_step_insert.
Qed.

Lemma move_item_safe (src_name dst_name : string) :
  safe_step root fs (w_fs (move_item w src_name dst_name).2).
Proof using Hw.
  destruct (move_item_cases w src_name dst_name)
    as [->|(src & dst0 & dst & Hs & Hd & -> & _ & _ & _ & _ & _ & ->)];
    [apply safe_step_refl|].
  apply resolved in Hs as [_ ?]. apply resolved in Hd as [_ ?].
  apply safe_step_rename; [done|].
  destruct (_ && _); [by apply prefix_app_r | done].
Qed.

(** The destination of a copy, with the source's name added where the
    destination is a directory, is still a resolved path of the
    sandbox. *)
Lemma extended (src d : Path) (b : bool) :
  normalized fs src -> src <> [] ->
  normalized fs d -> root `prefix_of` d ->
  let d' := if b then d ++ [name src] else d in
  normalized fs d' /\ root `prefix_of` d'.
Proof using Hw.
  intros Hs Hne Hd Hb. destruct b; simpl; [|done].
  apply (normalized_child (base (w_state w))); try done;
    [apply settled_links|].
  by eapply name_plain.
Qed.

Lemma copy_item_safe (src_name dst_name : string) :
  safe_step root fs (w_fs (copy_item w src_name dst_name).2).
Proof using Hw.
  destruct (copy_item_cases w src_name dst_name)
    as [->|(src & dst0 & dst & Hs & Hd & Hdst & _ & _ & H)];
    [apply safe_step_refl|].
  apply resolved in Hs as [Hns Hbs]. apply resolved in Hd as [Hnd Hbd].
  destruct H as [(_ & _ & _ & ->)
                |(content & dst1 & dst2 & q & Hc & Hdst1 & Hdst2 & Hq & ->)].
  - apply safe_step_copytree; [done|]. subst dst.
    destruct (_ && _); [by apply prefix_app_r | done].
  - assert (src <> []) as Hne.
    { intros ->. rewrite stat_normalized in Hc by done. done. }
    simpl.
    destruct (extended src dst0 (exists_ (w_fs w) dst0 && is_dir (w_fs w) dst0)
                Hns Hne Hnd Hbd) as [H1 H1'].
    simpl in H1, H1'. rewrite <- Hdst in H1, H1'.
    destruct (extended src dst (is_dir (w_fs w) dst) Hns Hne H1 H1')
      as [H2 H2'].
    simpl in H2, H2'. rewrite <- Hdst1 in H2, H2'.
    destruct (extended src dst1 (is_dir (w_fs w) dst1) Hns Hne H2 H2')
      as [H3 H3'].
    simpl in H3, H3'. rewrite <- Hdst2 in H3, H3'.
    assert (q = dst2) as ->
      by (pose proof (eq_trans (eq_sym Hq) H3) as E; by injection E).
    by apply safe_step_insert.
Qed.

Lemma rename_item_safe (old new : string) :
  has_char "/" new = false ->
  safe_step root fs (w_fs (rename_item w old new).2).
Proof using Hw.
  intros Hnew.
  destruct (rename_item_cases w old new)
    as [->|(src & dst & Hs & Hdst & _ & Hd & _ & _ & _ & ->)];
    [apply safe_step_refl|].
  apply resolved in Hs as [Hns Hbs].
  apply safe_step_rename; [done|].
  rewrite join_plain in Hdst by done.
  destruct (parent_in_sandbox _ _ Hbs) as [Hp| ->].
  { subst dst. case_bool_decide; [by apply prefix_app_r | done]. }
  destruct (decide (base (w_state w) = [])) as [E|Hne];
    [rewrite E; apply prefix_nil|].
  unfold inside in Hd. apply inside_sandbox_spec in Hd as (q & Hq & Hbq).
  pose proof (real_parent _ _ (proj1 (normalized_real _ _) Hns)) as Hreal.
  case_bool_decide as Hplain.
  - destruct (decide (new = "..")) as [->|Hdots].
    + subst dst. rewrite resolve_parent in Hq by done.
      injection Hq as <-. exfalso. apply (not_above _ Hne).
      transitivity (parent (parent (base (w_state w)))); [done|].
      apply parent_prefix.
    + destruct Hw as (_ & _ & Hl). subst dst.
      rewrite resolve_child in Hq; [by injection Hq as <-|done| |].
      * by destruct Hplain.
      * intros target. apply Hl. by apply prefix_app_r.
  - subst dst. exfalso. apply (not_above _ Hne).
    apply resolve_of_real in Hreal.
    pose proof (eq_trans (eq_sym Hq) Hreal) as E. by injection E as ->.
Qed.

End Steps.

End SandboxFacts.

(** ** What the groups of a match hold *)
Module CaptureFacts.
Import Text Re Parser Notions TextFacts ReFacts.

Lemma consumed_append (w s' : string) : consumed (w +:+ s') s' = w.
Proof.
  unfold consumed. rewrite length_append.
  replace (String.length w + String.length s' - String.length s')
    with (String.length w) by lia.
  induction w as [|a w IH].
  - rewrite append_nil_l. by destruct s'.
  - rewrite append_cons. simpl. by rewrite IH.
Qed.

Lemma has_char_append (a : ascii) (w s : string) :
  strip_prefix w s = Some "" -> has_char a s = has_char a w.
Proof. intros ->%strip_prefix_append. by rewrite append_nil_r. Qed.

Lemma forall_chars_has (w : string) :
  forall_chars (fun a => has_char a w) w = true.
Proof.
  assert (forall v, forall_chars (fun a => has_char a (v +:+ w)) w = true)
    as H; [|apply (H "")].
  induction w as [|b w IH]; intros v; simpl; [done|].
  apply andb_true_iff. split.
  - induction v as [|x v IHv]; [simpl; by rewrite Ascii.eqb_refl|].
    rewrite append_cons. simpl. by rewrite IHv, orb_true_r.
  - specialize (IH (v +:+ String b "")).
    by rewrite append_assoc in IH.
Qed.

Section Captures.
Variable n0 : nat.
#[local] Abbreviation lang := (Notions.lang n0).

(** What a pattern reads is made of characters that it can read. *)
Lemma lang_reads (r : regex) (s : string) (c : caps) (s' : string) (c' : caps) :
  lang r s c s' c' ->
  exists w, s = w +:+ s' /\ forall_chars (reads r) w = true.
Proof.
  intros H. induction H; simpl.
  - by exists "".
  - exists (String a ""). split; [done|]. simpl. by rewrite H.
  - apply strip_prefix_append in H as ->. exists w. split; [done|].
    apply forall_chars_has.
  - destruct IHlang1 as (w1 & -> & Hw1), IHlang2 as (w2 & -> & Hw2).
    exists (w1 +:+ w2). split; [by rewrite append_assoc|].
    rewrite forall_chars_append. apply andb_true_iff.
    split; eapply forall_chars_impl; try eassumption;
      intros a Ha; rewrite Ha; by rewrite ?orb_true_r.
  - destruct IHlang as (w & -> & Hw). exists w. split; [done|].
    eapply forall_chars_impl; [|exact Hw]. intros a Ha. by rewrite Ha.
  - destruct IHlang as (w & -> & Hw). exists w. split; [done|].
    eapply forall_chars_impl; [|exact Hw]. intros a Ha.
    by rewrite Ha, orb_true_r.
  - by exists "".
  - destruct IHlang1 as (w1 & -> & Hw1), IHlang2 as (w2 & -> & Hw2).
    exists (w1 +:+ w2). split; [by rewrite append_assoc|].
    rewrite forall_chars_append. apply andb_true_iff.
    split; [exact Hw1 | exact Hw2].
  - by exists "".
  - destruct IHlang1 as (w1 & -> & Hw1), IHlang2 as (w2 & -> & Hw2).
    exists (w1 +:+ w2). split; [by rewrite append_assoc|].
    rewrite forall_chars_append. apply andb_true_iff.
    split; [exact Hw1 | exact Hw2].
  - done.
  - by exists "".
  - by exists "".
  - by exists "".
Qed.

(** A group holds characters that it can read only. *)
Lemma lang_group_reads (r : regex) (s : string) (c : caps) (s' : string)
    (c' : caps) (P : string -> ascii -> bool) :
  (forall g a, group_reads g r a = true -> P g a = true) ->
  lang r s c s' c' ->
  (forall g v, group g c = Some v -> forall_chars (P g) v = true) ->
  forall g v, group g c' = Some v -> forall_chars (P g) v = true.
Proof.
  intros HP H. induction H; simpl in HP; try done.
  - intros Hc. apply IHlang2; [|apply IHlang1; [|done]];
      intros g a Ha; apply HP; rewrite Ha; by rewrite ?orb_true_r.
  - apply IHlang. intros g a Ha. apply HP. by rewrite Ha.
  - apply IHlang. intros g a Ha. apply HP. by rewrite Ha, orb_true_r.
  - intros Hc. apply IHlang2; [done|]. by apply IHlang1.
  - intros Hc. apply IHlang2; [done|]. by apply IHlang1.
  - intros Hc g0 v. simpl. destruct (String.eqb_spec g g0) as [->|Hne].
    + intros [= <-]. apply lang_reads in H as (w & -> & Hw).
      rewrite consumed_append. eapply forall_chars_impl; [|exact Hw].
      intros a Ha. apply HP. by rewrite String.eqb_refl, Ha.
    + apply IHlang; [|done]. intros g1 a Ha. apply HP.
      by rewrite Ha, orb_true_r.
Qed.

Lemma lang_only_words (r : regex) (s : string) (c : caps) (s' : string)
    (c' : caps) :
  only_words r = true -> lang r s c s' c' -> consumed s s' ∈ words_of r.
Proof.
  intros Hr H. induction H; simpl in Hr; try done.
  - apply strip_prefix_append in H as ->. rewrite consumed_append.
    simpl. apply list_elem_of_singleton. done.
  - apply andb_true_iff in Hr as [? ?]. simpl. apply elem_of_app. auto.
  - apply andb_true_iff in Hr as [? ?]. simpl. apply elem_of_app. auto.
Qed.

(** A group made of alternative words holds one of them. *)
Lemma lang_group_words (r : regex) (s : string) (c : caps) (s' : string)
    (c' : caps) (g : string) (L : list string) :
  group_only_words g r = true -> group_words g r ⊆ L ->
  lang r s c s' c' ->
  (forall v, group g c = Some v -> v ∈ L) ->
  forall v, group g c' = Some v -> v ∈ L.
Proof.
  intros Hr HL H. induction H; simpl in Hr, HL; try done.
  - apply andb_true_iff in Hr as [? ?]. intros Hc.
    apply IHlang2; [done | set_solver |]. apply IHlang1; [done | set_solver | done].
  - apply andb_true_iff in Hr as [? ?]. apply IHlang; [done | set_solver].
  - apply andb_true_iff in Hr as [? ?]. apply IHlang; [done | set_solver].
  - intros Hc. apply IHlang2; [done | done |]. by apply IHlang1.
  - intros Hc. apply IHlang2; [done | done |]. by apply IHlang1.
  - apply andb_true_iff in Hr as [Hw ?]. intros Hc v. simpl.
    destruct (String.eqb_spec g0 g) as [->|Hne].
    + intros [= <-]. apply HL, elem_of_app. left.
      by eapply lang_only_words.
    + apply IHlang; [done | set_solver | done].
Qed.

Lemma lang_keeps_group (r : regex) (s : string) (c : caps) (s' : string)
    (c' : caps) (g : string) :
  lang r s c s' c' -> is_Some (group g c) -> is_Some (group g c').
Proof.
  intros H. induction H; try done; try (by auto).
  intros Hc. simpl. destruct (String.eqb g0 g); [by eexists | auto].
Qed.

Lemma lang_sure_group (r : regex) (s : string) (c : caps) (s' : string)
    (c' : caps) (g : string) :
  sure_group g r = true -> lang r s c s' c' -> is_Some (group g c').
Proof.
  intros Hr H. induction H; simpl in Hr; try done.
  - apply orb_true_iff in Hr as [?|?]; [|by auto].
    eapply lang_keeps_group; [eassumption | auto].
  - apply andb_true_iff in Hr as [? ?]. auto.
  - apply andb_true_iff in Hr as [? ?]. auto.
  - simpl. destruct (String.eqb g0 g); [by eexists|]. auto.
Qed.

End Captures.

End CaptureFacts.

(** ** The parser on whole utterances *)
Module ParserProps.
Import Text Re Parser Notions TextFacts ReFacts ParserFacts CaptureFacts.

Lemma lower_char_idemp (a : ascii) : lower_char (lower_char a) = lower_char a.
Proof.
  apply Ascii.eqb_eq. revert a. apply all_ascii_spec. by vm_compute.
Qed.

Lemma lower_idemp (s : string) : lower (lower s) = lower s.
Proof.
  induction s as [|a s IH]; simpl; [done|]. by rewrite lower_char_idemp, IH.
Qed.

Lemma lower_lstrip (s : string) : lower (lstrip s) = lstrip (lower s).
Proof.
  induction s as [|a s IH]; simpl; [done|]. rewrite lower_char_space.
  by destruct (is_space a).
Qed.

Lemma lower_rstrip (s : string) : lower (rstrip s) = rstrip (lower s).
Proof.
  induction s as [|a s IH]; simpl; [done|]. rewrite <- IH, lower_char_space.
  destruct (rstrip s); simpl; [by destruct (is_space a) | done].
Qed.

Lemma strip_idemp (s : string) : strip (strip s) = strip s.
Proof.
  unfold strip at 1. rewrite strip_no_blank_start. unfold strip.
  apply rstrip_idemp.
Qed.

(** Lowering and trimming a second time changes nothing. *)
Lemma normalize_idemp (u : string) : normalize (normalize u) = normalize u.
Proof.
  unfold normalize, strip. rewrite lower_rstrip, lower_lstrip, lower_idemp.
  apply (strip_idemp (lower u)).
Qed.

(** [parse] looks at the lowered, trimmed text only. *)
Lemma parse_normal_form (u : string) :
  parse u = match try_patterns patterns (normalize u) with
            | Some intent => intent
            | None => UNKNOWN (normalize u)
            end.
Proof.
  unfold parse. destruct (String.eqb_spec u "") as [->|_]; [|done].
  by vm_compute.
Qed.

(** Case and the blanks around an utterance play no part: two texts that
    are the same once lowered and trimmed give the same intent, and so
    every intent is that of a text in lower case. *)
Theorem parse_ignores_case_and_margins (u v : string) :
  normalize u = normalize v -> parse u = parse v.
Proof. intros H. by rewrite !parse_normal_form, H. Qed.

Lemma parse_ignores_case_and_margins_witness :
  parse "  CrEaTe FiLe Notes.TXT  " = parse "create file notes.txt".
Proof. apply parse_ignores_case_and_margins. by vm_compute. Defined.

Lemma normalize_blank (u : string) :
  forall_chars is_space u = true -> normalize u = "".
Proof.
  intros H. unfold normalize, strip.
  assert (lstrip (lower u) = "") as ->; [|done].
  induction u as [|a u IH]; simpl in *; [done|].
  apply andb_true_iff in H as [Ha Hu]. rewrite lower_char_space, Ha. auto.
Qed.

(** An empty utterance, or one made of white space only, is not
    understood: the intent is UNKNOWN with an empty raw text. *)
Theorem blank_text_is_unknown (u : string) :
  forall_chars is_space u = true -> parse u = UNKNOWN "".
Proof.
  intros H. rewrite parse_normal_form, normalize_blank by done.
  by vm_compute.
Qed.

Lemma blank_text_is_unknown_witness :
  parse "" = UNKNOWN "" /\ parse ("   " +:+ String (ascii_of_N 9) "") = UNKNOWN "".
Proof. split; by apply blank_text_is_unknown. Defined.

(** *** From an intent back to the rule that built it *)

Lemma parse_rule (text : string) :
  type_of (parse text) <> "UNKNOWN" ->
  exists n pattern handler rest m,
    patterns !! n = Some (pattern, handler)
    /\ re_match pattern (normalize text) = Some (rest, m)
    /\ parse text = handler m
    /\ rule_types !! n = Some (type_of (parse text)).
Proof.
  rewrite parse_normal_form.
  destruct (try_patterns patterns (normalize text)) as [i|] eqn:E; [|done].
  intros _. apply try_patterns_Some in E as (n & h & m & Hfirst & <-).
  pose proof (first_match_type _ _ _ _ Hfirst) as Hty.
  destruct Hfirst as [(p & rest & Hn & Hp) _]. by exists n, p, h, rest, m.
Qed.

Lemma re_match_group_reads (r : regex) (s rest : string) (m : caps)
    (g : string) :
  re_match r s = Some (rest, m) ->
  forall_chars (group_reads g r) (grp g m) = true.
Proof.
  intros H%re_match_sound. unfold grp.
  destruct (group g m) as [v|] eqn:E; [|done]. simpl.
  refine (lang_group_reads _ _ _ _ _ _ (fun g => group_reads g r) _ H _ g v E).
  - by intros g0 a.
  - by intros g0 v0.
Qed.

Lemma re_match_group_words (r : regex) (s rest : string) (m : caps)
    (g v : string) :
  group_only_words g r = true ->
  re_match r s = Some (rest, m) -> group g m = Some v ->
  v ∈ group_words g r.
Proof.
  intros Hr H%re_match_sound.
  refine (lang_group_words _ _ _ _ _ _ g (group_words g r) Hr _ H _ v);
    [done | by intros v0].
Qed.

Lemma lstrip_chars (P : ascii -> bool) (s : string) :
  forall_chars P s = true -> forall_chars P (lstrip s) = true.
Proof. apply forall_chars_suffix, suffix_lstrip. Qed.

Lemma strip_chars (P : ascii -> bool) (s : string) :
  forall_chars P s = true -> forall_chars P (strip s) = true.
Proof. intros H. by apply rstrip_prefix_chars, lstrip_chars. Qed.

(** A group of the class [[\w\-. ]], trimmed, is made of characters of
    that class. *)
Lemma name_group_chars (r : regex) (s rest : string) (m : caps) (g : string) :
  all_ascii (fun a => implb (group_reads g r a) (in_cls name_chars a)) = true ->
  re_match r s = Some (rest, m) ->
  forall_chars (in_cls name_chars) (strip (grp g m)) = true.
Proof.
  intros Hg H. apply strip_chars.
  eapply forall_chars_impl; [|by eapply re_match_group_reads].
  intros a Ha. pose proof (all_ascii_spec _ Hg a) as Himp. simpl in Himp.
  by rewrite Ha in Himp.
Qed.

Tactic Notation "rule_number" ident(n) hyp(Hty) integer(before)
    integer(after) :=
  unfold rule_types in Hty;
  do before (destruct n as [|n]; [by simplify_eq|]);
  destruct n as [|n];
  [|exfalso; do after (destruct n as [|n]; [by simplify_eq|]);
    by simplify_eq].

Lemma no_such_char (P : ascii -> bool) (a : ascii) (s : string) :
  P a = false -> forall_chars P s = true -> has_char a s = false.
Proof.
  intros Ha. induction s as [|b s IH]; simpl; [done|].
  intros [Hb Hs]%andb_true_iff. rewrite IH by done.
  destruct (Ascii.eqb_spec b a) as [->|]; [congruence | done].
Qed.

(** The names that the rules for folders, files, deleting, searching and
    renaming hand on are made of letters, digits, [_], [-], [.] and
    blanks: they hold no path separator, so the entry they name is looked
    for in the current directory (or is the directory itself, or its
    parent). *)
Theorem names_hold_no_separator (text : string) :
  let ok name :=
    forall_chars (in_cls name_chars) name = true
    /\ has_char "/" name = false /\ has_char backslash name = false in
  match parse text with
  | MKDIR name | MKFILE name | DELETE _ name | SEARCH name => ok name
  | RENAME old new => ok old /\ ok new
  | _ => True
  end.
Proof.
  intros ok.
  assert (forall name, forall_chars (in_cls name_chars) name = true -> ok name)
    as Hok.
  { intros name H. split; [done|].
    split; (eapply no_such_char; [|exact H]; by vm_compute). }
  destruct (parse text) eqn:E; try done;
    destruct (parse_rule text) as (n & p & h & rest & m & Hn & Hp & Hh & Hty);
    try (by rewrite E); rewrite E in Hh, Hty; simpl in Hty.
  - rule_number n Hty 3 24. injection Hn as <- <-. injection Hh as ->.
    apply Hok. eapply name_group_chars; [|exact Hp]; by vm_compute.
  - rule_number n Hty 4 23. injection Hn as <- <-. injection Hh as ->.
    apply Hok. eapply name_group_chars; [|exact Hp]; by vm_compute.
  - rule_number n Hty 5 22. injection Hn as <- <-. injection Hh as _ ->.
    apply Hok. eapply name_group_chars; [|exact Hp]; by vm_compute.
  - rule_number n Hty 11 16. injection Hn as <- <-. injection Hh as ->.
    apply Hok. eapply name_group_chars; [|exact Hp]; by vm_compute.
  - rule_number n Hty 12 15. injection Hn as <- <-. injection Hh as -> ->.
    split; apply Hok; (eapply name_group_chars; [|exact Hp]; by vm_compute).
Qed.

(** The new name of a RENAME intent, for the steps that need it. *)
Lemma rename_new_chars (text old new : string) :
  parse text = RENAME old new ->
  forall_chars (in_cls name_chars) new = true.
Proof.
  intros E.
  destruct (parse_rule text) as (n & p & h & rest & m & Hn & Hp & Hh & Hty);
    [by rewrite E|]. rewrite E in Hh, Hty; simpl in Hty.
  rule_number n Hty 12 15. injection Hn as <- <-. injection Hh as -> ->.
  eapply name_group_chars; [|exact Hp]; by vm_compute.
Qed.

(** The application of an OPEN_APP intent is one of four launch
    tokens. *)
Lemma open_app_token (text app : string) :
  parse text = OPEN_APP app ->
  app ∈ ["calc"; "notepad"; "mspaint"; "explorer"].
Proof.
  intros E.
  destruct (parse_rule text) as (n & p & h & rest & m & Hn & Hp & Hh & Hty);
    [by rewrite E|]. rewrite E in Hh, Hty; simpl in Hty.
  rule_number n Hty 9 18. injection Hn as <- <-. injection Hh as ->.
  pose proof (re_match_sound _ _ _ _ Hp) as Hlang.
  assert (sure_group "app" open_app_pattern = true) as Hsure
    by (by vm_compute).
  assert (group_only_words "app" open_app_pattern = true) as Honly
    by (by vm_compute).
  destruct (lang_sure_group _ _ _ _ _ _ "app" Hsure Hlang) as [v Hv].
  pose proof (re_match_group_words _ _ _ _ "app" v Honly Hp Hv) as Hw.
  unfold grp. rewrite Hv. simpl default at 2.
  vm_compute group_words in Hw.
  repeat (apply elem_of_cons in Hw as [->|Hw];
          [vm_compute; set_solver|]).
  by apply elem_of_nil in Hw.
Qed.

End ParserProps.

(** ** Runs of the command loop *)
Module MainFacts.
Import Text Fs State Executor Parser Commands Main Notions.
Import FsFacts StateClaims ExecutorClaims ExecutorFacts SandboxFacts.
Import MainClaims ParserProps.

Lemma open_app_fs (sys : System) (w : World) (app : string) :
  w_fs (open_app sys w app) = w_fs w.
Proof. unfold open_app. by destruct (_ !! app). Qed.

Lemma open_file_fs (sys : System) (w : World) (name_ : string) :
  w_fs (open_file sys w name_).2 = w_fs w.
Proof. unfold open_file. by repeat case_match. Qed.

(** Every intent, a RENAME to a name with a separator apart, leaves what
    is outside the sandbox as it is and brings no link into the
    sandbox. *)
Lemma handle_safe (sys : System) (intent : Intent) (w : World) :
  settled w -> plain_target intent ->
  safe_step (base (w_state w)) (w_fs w) (w_fs (handle sys intent w).2).
Proof.
  intros Hw Hplain. destruct intent; simpl; try apply safe_step_refl.
  - by apply mkdir_safe.
  - by apply mkfile_safe.
  - destruct (cd_cases w path) as (-> & _). apply safe_step_refl.
  - rewrite open_app_fs. apply safe_step_refl.
  - rewrite open_file_fs. apply safe_step_refl.
  - by apply rename_item_safe.
  - by apply copy_item_safe.
  - by apply move_item_safe.
  - by apply append_file_safe.
  - by apply touch_file_safe.
Qed.

Lemma no_links_above (base : Path) (fs fs' : FS) :
  no_links_below (parent base) fs -> same_outside base fs fs' ->
  no_links_below base fs' -> no_links_below (parent base) fs'.
Proof.
  intros Hl Hsame Hl' p target Hp.
  destruct (decide (base `prefix_of` p)) as [H|H]; [by apply Hl'|].
  pose proof (Hsame _ H) as E. unfold FS, Path in *. rewrite E. by apply Hl.
Qed.

Lemma settled_links_below (w : World) :
  settled w -> no_links_below (base (w_state w)) (w_fs w).
Proof. apply settled_links. Qed.

(** A safe step that leaves the shell state alone keeps the world
    settled. *)
Lemma settled_step (w w' : World) :
  settled w -> w_state w' = w_state w ->
  safe_step (base (w_state w)) (w_fs w) (w_fs w') -> settled w'.
Proof.
  intros Hw Hst [Hsame Hl]. pose proof (settled_links_below w Hw) as Hlb.
  destruct Hw as (Hn & Hc & Hla). unfold settled. rewrite Hst.
  split; [|split; [done|]].
  - eapply normalized_transfer; [exact Hsame | by apply Hl | done].
  - eapply no_links_above; [done | done | by apply Hl].
Qed.

Lemma settled_cd (w : World) (path : string) :
  settled w -> settled (cd w path).
Proof.
  intros (Hn & Hc & Hla). destruct (cd_cases w path) as (Hfs & Hb & H).
  unfold settled, confined. rewrite Hfs, Hb.
  destruct H as [->|(? & ? & _)]; done.
Qed.

Lemma settled_ext (w w' : World) :
  w_fs w' = w_fs w -> w_state w' = w_state w -> settled w -> settled w'.
Proof. unfold settled, confined. by intros -> ->. Qed.

Lemma parse_plain_target (text : string) : plain_target (parse text).
Proof.
  destruct (parse text) eqn:E; try done. simpl.
  eapply no_such_char; [|by eapply rename_new_chars]. by vm_compute.
Qed.

(** What one intent does to a settled world. *)
Lemma handle_settled (sys : System) (intent : Intent) (w : World) :
  settled w -> plain_target intent ->
  let w' := (handle sys intent w).2 in
  settled w' /\ base (w_state w') = base (w_state w)
  /\ same_outside (base (w_state w)) (w_fs w) (w_fs w').
Proof.
  intros Hw Hplain w'. subst w'.
  assert ((exists path, intent = CD path) \/ forall path, intent <> CD path)
    as [[path ->]|Hcd] by (destruct intent; eauto).
  - simpl. destruct (cd_cases w path) as (Hfs & Hb & _).
    split; [by apply settled_cd|]. split; [done|]. by rewrite Hfs.
  - assert (w_state (handle sys intent w).2 = w_state w) as Hst.
    { by apply handle_keeps_state. }
    pose proof (handle_safe sys intent w Hw Hplain) as Hsafe.
    split; [by eapply settled_step|]. split; [by rewrite Hst|].
    apply Hsafe.
Qed.

Lemma process_command_fs (sys : System) (sh : Shell) (text : string) :
  w_fs (world (process_command sys sh text))
  = if (handle_delete_confirmation sh text).1
    then w_fs (world (handle_delete_confirmation sh text).2)
    else w_fs (handle sys (parse text) (world sh)).2.
Proof.
  unfold process_command.
  destruct (handle_delete_confirmation sh text) as [[] sh']; [done|].
  simpl. destruct (handle sys (parse text) (world sh)) as [r w'].
  by destruct r as [[]|], (parse text).
Qed.

Lemma confirmation_fs (sh : Shell) (text : string) :
  w_fs (world (handle_delete_confirmation sh text).2) = w_fs (world sh)
  \/ exists kind name_,
       w_fs (world (handle_delete_confirmation sh text).2)
       = w_fs (delete (world sh) kind name_).
Proof.
  unfold handle_delete_confirmation.
  destruct (pending_payload sh) as [[kind name_]|]; [|by left].
  destruct (negb _); [by left|].
  destruct (affirmative text); [right; by exists kind, name_ | by left].
Qed.

(** One command on a settled world: the world stays settled, the sandbox
    root stays, and nothing changes outside the sandbox. *)
Lemma process_command_settled (sys : System) (sh : Shell) (text : string) :
  settled (world sh) ->
  let w := world sh in
  let w' := world (process_command sys sh text) in
  settled w' /\ base (w_state w') = base (w_state w)
  /\ same_outside (base (w_state w)) (w_fs w) (w_fs w').
Proof.
  intros Hw w w'. subst w w'.
  destruct (handle_delete_confirmation sh text).1 eqn:Hc.
  - pose proof (process_command_fs sys sh text) as Hfs. rewrite Hc in Hfs.
    assert (w_state (world (process_command sys sh text))
            = w_state (world sh)) as Hst.
    { rewrite process_command_answered by done.
      apply handle_delete_confirmation_state. }
    assert (safe_step (base (w_state (world sh))) (w_fs (world sh))
              (w_fs (world (process_command sys sh text)))) as Hsafe.
    { rewrite Hfs. destruct (confirmation_fs sh text) as [->|(k & n & ->)];
        [apply safe_step_refl | by apply delete_safe]. }
    split; [by eapply settled_step|]. split; [by rewrite Hst|]. apply Hsafe.
  - pose proof (process_command_fs sys sh text) as Hfs. rewrite Hc in Hfs.
    pose proof (process_command_handled sys sh text Hc) as Hst.
    destruct (handle_settled sys (parse text) (world sh) Hw
                (parse_plain_target text)) as (H1 & H2 & H3).
    split; [by eapply settled_ext|]. split; [by rewrite Hst|].
    by rewrite Hfs.
Qed.

Lemma no_links_check (base : Path) (fs : FS) :
  links_check base fs = true -> no_links_below base fs.
Proof.
  unfold links_check. rewrite forallb_forall. intros H p target Hp Hl.
  specialize (H (p, Symlink target)). simpl in H.
  rewrite bool_decide_eq_true_2 in H by done. simpl in H.
  assert (In (p, Symlink target) (map_to_list fs)) as Hin
    by (by apply list_elem_of_In, elem_of_map_to_list).
  by specialize (H Hin).
Qed.

Lemma start_settled (fs0 : FS) (sandbox : Path) :
  normalized fs0 sandbox -> no_links_below (parent sandbox) fs0 ->
  settled (world (start fs0 sandbox)).
Proof.
  intros Hn Hl. split; [done|]. split; [|done].
  unfold confined. simpl. reflexivity.
Qed.

Lemma same_outside_trans (base : Path) (fs1 fs2 fs3 : FS) :
  same_outside base fs1 fs2 -> same_outside base fs2 fs3 ->
  same_outside base fs1 fs3.
Proof. intros H1 H2 p Hp. by rewrite (H2 p Hp), (H1 p Hp). Qed.

End MainFacts.

(** ** The command loop, from the start *)
Module MainProps.
Import Text Fs State Executor Parser Commands Main Notions.
Import FsFacts StateClaims ExecutorClaims ExecutorFacts SandboxFacts.
Import MainClaims ParserProps MainFacts.

(** The sandbox holds: when the sandbox path is resolved and the
    directory that holds the sandbox contains no symbolic link, no
    sequence of utterances changes anything outside the sandbox root.
    After the run every path that is neither the root nor below it holds
    what it held at the start, no link has appeared beside or in the
    sandbox, and the current directory is a resolved path. *)
Theorem commands_stay_in_sandbox (sys : System) (fs0 : FS) (sandbox : Path)
    (texts : list string) :
  normalized fs0 sandbox -> no_links_below (parent sandbox) fs0 ->
  let w := world (run_shell sys (start fs0 sandbox) texts) in
  same_outside sandbox fs0 (w_fs w)
  /\ no_links_below (parent sandbox) (w_fs w)
  /\ normalized (w_fs w) (cwd (w_state w)).
Proof.
  intros Hn Hl w. subst w.
  assert (settled (world (run_shell sys (start fs0 sandbox) texts))
          /\ base (w_state (world (run_shell sys (start fs0 sandbox) texts)))
             = sandbox
          /\ same_outside sandbox fs0
               (w_fs (world (run_shell sys (start fs0 sandbox) texts))))
    as ((H1 & _ & H2) & Hb & H3).
  { apply (run_shell_invariant
             (fun sh => settled (world sh)
                        /\ base (w_state (world sh)) = sandbox
                        /\ same_outside sandbox fs0 (w_fs (world sh)))).
    - intros sh text (Hs & Hb & Hsame).
      destruct (process_command_settled sys sh text Hs) as (Hs' & Hb' & Hstep).
      split; [done|]. split; [congruence|].
      eapply same_outside_trans; [exact Hsame|]. by rewrite <- Hb.
    - split; [by apply start_settled|]. by split. }
  rewrite Hb in H2. by split.
Qed.

Lemma commands_stay_in_sandbox_witness :
  let fs0 : FS :=
    list_to_map [(["etc"], Dir); (["etc"; "passwd"], File "root");
                 (["etc"; "alt"], Symlink "/etc/passwd");
                 (["home"], Dir); (["home"; "sb"], Dir);
                 (["home"; "sb"; "a.txt"], File "A")] in
  let texts := ["create folder docs"; "copy a.txt to docs";
                "cd to docs"; "append 'x' to file ../../../etc/passwd";
                "rename a.txt to passwd"; "move passwd to /etc";
                "delete folder ../.."; "yes"] in
  let w := world (run_shell Linux (start fs0 ["home"; "sb"]) texts) in
  w_fs w !! ["etc"; "passwd"] = Some (File "root")
  /\ w_fs w !! ["home"; "sb"; "docs"; "passwd"] = Some (File "A").
Proof.
  intros fs0 texts w.
  assert (normalized fs0 ["home"; "sb"]) as Hn by (by vm_compute).
  assert (no_links_below (parent ["home"; "sb"]) fs0) as Hl
    by (apply no_links_check; by vm_compute).
  split; [|by vm_compute].
  destruct (commands_stay_in_sandbox Linux fs0 ["home"; "sb"] texts Hn Hl)
    as (Hsame & _ & _).
  assert (~ ["home"; "sb"] `prefix_of` ["etc"; "passwd"]) as Hout
    by (by intros [k [=]]).
  assert (fs0 !! ["etc"; "passwd"] = Some (File "root")) as H0
    by (by vm_compute).
  exact (eq_trans (Hsame _ Hout) H0).
Defined.

End MainProps.
